(* ===== verification/_CoqProject ===== *)
-Q . S2P
Prelude.v
Mat4.v
Projection.v
GLDriver.v
GLFixed.v
Raster.v
UniformChannel.v
Compositor.v
CompositorContract.v
Camera.v
Frame.v
MainLoop.v
Collaborators.v
