(* ===== verification/Prelude.v ===== *)
(** * Mass-Occlusion-Culling: a verification development of the frame pipeline

    The program (src/src/main.cpp) is a real-time rendering loop.  Its
    file-scope globals hold a projection matrix, the window size, a
    uniform buffer object (UBO) for the model-view-projection (MVP)
    matrix, a camera and a transparency compositor.  [init] builds the
    projection, sets the depth state and creates the UBO; [resize]
    rescales the projection and reshapes the compositor; [enterFrame]
    clears the framebuffer, uploads [projection * view] into the UBO by
    "orphaning" (map with invalidate and unsynchronized bits, store,
    unmap), then runs the compositor's prepare / mesh render / finalize
    sequence; [main] calls [init] and [resize(800, 800)] and loops: count
    the frame, [enterFrame], [Display], poll W/S/A/D, handle the window
    events (resize, mouse drag, wheel, close).

    ** Files, in dependency order

    - Prelude.v (this file): the [moc_scope] notation scope, the [moc]
      and [moc_rw] hint databases, the [CMath] class for [tan], [sin],
      [cos] and [DEGREE_TO_RAD] (C library and Utils.h, not in the
      sources), the float test [qlt], clamping, order-independent folds
      ([fold_left_perm_R]: a fold whose step commutes up to an
      equivalence is invariant under permutation), invariants of folds
      and iterations, and the tactics [qminmax_cases] and [qfield].
    - Mat4.v: glm's [vec4] and column-major [mat4] over exact rationals,
      the element store [m[i].x = q] ([mat_set]), [glm::mat4(s)]
      ([mat4_diag]) and the products; setoid equality with [Proper]
      instances and the associativity of matrix-vector products.
    - Projection.v: the globals [projectionMatrix], [fzNear], [fzFar],
      [frustumScale] as a record; [init_projection] (lines 36-47),
      [resize_projection] (76-77), the depth mapping of
      [glDepthRange(0, 1)] (56).  Theorems: for every [0 < near < far]
      the near plane goes to depth 0 and the far plane to depth 1 (spec
      section 8), depth strictly increasing and within [0, 1], both
      preserved by any number of resizes, and the independence of the
      matrix from the history of sizes.  The lemma [resize_ndc_aspect]
      (the [h / w] ratio of the normalised extents after a resize) is
      used by MainLoop.v.
    - GLDriver.v: an environment model of the OpenGL buffer-object calls
      the code makes (glGenBuffers, glBindBuffer, glBufferData,
      glBindBufferBase, glMapBufferRange, glUnmapBuffer) and of the GPU
      (a draw queues a read of a binding point; the GPU retires reads in
      order, at its own pace).  State: a [gmap] of buffer objects, a
      [gmap] of storages, the uniform bindings, the queue of pending
      reads, the log of what the GPU saw, a stall counter and a bounded
      storage pool ([gl_capacity]).  It is written from the OpenGL rules
      spec section 4.3 relies on, not from code of the repository.
    - GLFixed.v: the fixed-function state of the GL context as one
      record, [gl_fixed] (face culling, depth test, clear values,
      viewport, the default framebuffer at one pixel, the error flag),
      with one operation per GL call main.cpp makes, written from the
      OpenGL 4.5 rules: [glEnable], [glCullFace], [glFrontFace],
      [glDepthMask], [glDepthFunc], [glDepthRange] (clamped),
      [glClearColor], [glClearDepth] (clamped), [glClearStencil],
      [glClear] (a bit mask checked with [Z.land]; the depth clear
      honours the depth mask), [glViewport] (a negative size refused,
      the size clamped to GL_MAX_VIEWPORT_DIMS).  main.cpp's sequences:
      [init_fixed] (lines 49-56), [resize_viewport] (82), [frame_clear]
      (89-92).  Theorems: the clear of [enterFrame] resets the pixel to
      its clear values from any state with depth writes on; lemmas:
      [init_fixed] and
      [frame_clear] raise no GL error, [resize_viewport] raises
      GL_INVALID_VALUE for a negative size and keeps the viewport.
    - Raster.v: OpenGL's culling decision under a [gl_fixed] state: the
      sign of a triangle's window-space area after the perspective
      division and the viewport.  Theorem: from any GL state, after
      [init]'s culling calls and the viewport and projection of any
      positive [resize], a triangle in front of the camera is culled
      exactly when it is not counter-clockwise in eye space.  The lemma
      [window_span] gives the pixels a segment covers under a viewport.
    - UniformChannel.v: the UBO of [init] (lines 58-63) and the upload
      of [enterFrame] (96-103) over the driver model.  An ideal channel
      (the current matrix; a draw captures it; the GPU sees what was
      captured) is the specification, and [uc_rel] is a simulation
      relation: every driver step simulates an ideal step.  Theorems:
      refinement of the ideal channel, no torn read, no stall, at most
      one orphaned storage per queued read, the round trip of a matrix
      from the mapped pointer to the GPU's read, the GPU catching up
      (every queued read observed, orphaned storage freed), success of
      the next upload when the pool has room, and the unchecked NULL map
      when it has not.
    - Compositor.v: the clear of [enterFrame] (89-92) and the GL_LEQUAL
      depth test with depth writes of [init] (53-55) at one pixel, and
      the [Transparency] object (Transparency.h, not in the sources)
      modelled from spec section 4.4: its phase machine, render targets
      under a memory budget, and weighted blended order-independent
      transparency with any weight function.  Theorems: translucent
      order independence (by [fold_left_perm_R] up to colour
      equivalence), order independence of the opaque depth, order
      dependence of opaque ties, invisibility of occluded translucent
      fragments.
    - CompositorContract.v: the compositor's contract of spec section
      4.4 as an interface: the class [TransparencyOps] of the operations
      main.cpp calls and what it observes, the class
      [TransparencyContract] of their laws (reshape only at Idle,
      rejecting non-positive sizes, releasing the old targets; prepare,
      draws and finalize moving Idle -> Accepting-Draws -> Idle with the
      same targets; order-independent colour).  The client lemmas
      [tc_reshape_kept] and [tc_frame] are proved from the laws alone
      and used by Frame.v; the model of Compositor.v is an instance
      ([compositor_contract]).
    - Camera.v: [Camera1stPerson] (not in the sources) from spec
      section 4.1: [zoom] with its minimum distance, [rotate] with its
      pitch clamp, [pan] in the camera's local right/up plane,
      [activate] and the view matrix; the well-formedness invariant
      [cam_wf] and its preservation; where a pan moves the old focus in
      view space.
    - Frame.v: the globals as the record [app]; [init], [resize] and
      [enterFrame] composed from the components, the GL state of
      GLFixed.v included, the calls to the shader state and the mesh
      library recorded in order in [app_trace].  The invariants one
      frame keeps: [app_inv] (channel simulation, no stall, compositor
      idle with one set of targets, camera well formed), [ready] (no
      fault: the compositor's targets have the window's size, few
      enough reads queued), [view_ok] ([Globals::viewMatrix] is the
      active camera's, the projection has its perspective shape) and
      [fixed_ok] ([init]'s culling and depth state in effect, the
      viewport and the projection those of the current size).
      Theorems: a size the compositor rejects, non-positive (spec
      section 8's resize(0, 0)) or over its budget, breaks the next
      frame, because [resize] updates [width] and [height] before, and
      regardless of, [reshapeTransparency]; a negative size, which
      [glViewport] refuses as well, does the same; and section 8's
      idempotence: [resize(w, h)] repeated leaves what one call leaves,
      with one set of targets live.
    - MainLoop.v: [main] and its loop ([loop_iteration]: the framerate
      counter of lines 143-150, [enterFrame], [Display], the key polling
      of 156-171, the event switch of 174-238) and the window's size
      as SFML reports it: fetching a frame's batch of events
      ([window_fetch], line 175) sets it to the batch's last [Resized]
      size ([last_resize]), which [resize(window->GetWidth(),
      window->GetHeight())] (line 181) reads.  The invariants of
      Frame.v hold after [init] and the first [resize] and are kept by
      every iteration ([main_loop_invariant]), which gives the
      whole-program theorems: consistent GPU reads and no stall in any
      run; no fault when the GPU keeps up and sizes are valid; no leak
      of render targets; the order of the collaborators' calls, every
      frame prepared at the size of the last viewport call; [init]'s GL state in effect throughout, with
      GL's depth test equal to the compositor model's; no GL error when
      no resize carries a negative size ([main_loop_invariant_on] keeps
      a property over the inputs that satisfy a condition); clockwise
      triangles culled and the others drawn at every positive size;
      square pixels while the window fits GL_MAX_VIEWPORT_DIMS, and the
      exact stretch the viewport clamp causes beyond it; the
      camera's focus at the centre of the screen at the depth of its
      distance; an exact frame count; the on-screen pan speed of the A
      and D keys, the same at every zoom (spec section 4.1); and the
      scenario theorems of spec section 8: the W-then-S zoom scenario,
      a Closed event ends the loop, a drag turns the camera by the
      distance dragged and a release ends it; and what one iteration
      appends to the trace: a frame, then one viewport call at the
      window's size per [Resized] event of its batch.
    - Collaborators.v: the contracts of spec sections 2, 5 and 6 for
      the shader state, the mesh library and the compositor, as an
      executable monitor over the calls main.cpp makes ([collab_step]:
      initialisation once before the first frame, one shader
      preparation per frame before the compositor's prepare, one mesh
      render in Accepting-Draws, reshape only while Idle).  Theorem:
      every run of [main] is accepted, with one completed frame per
      displayed frame.

    ** Modelling choices

    Floats are exact rationals ([Q]); the one non-finite value the code
    can produce, [h / (float)w] for [w = 0] in [resize], is recorded as
    the flag [proj_nonfinite].  Window sizes and mouse coordinates are
    [Z].  C++ undefined behaviour (a store through the NULL pointer the
    driver returns when it is out of storage, a compositor call out of
    protocol) ends a run with a [fault] value.

    ** Bounds and fuel

    No definition takes fuel.  [main]'s [while (window->IsOpened())]
    never terminates on its own; it is modelled by [main_loop], which is
    structural on a finite list of per-iteration inputs (the clock time,
    how many queued reads the GPU completes, the keys held, the window
    events).  Every theorem about [main] quantifies over all such lists,
    so it covers every finite prefix of every run.  The driver's storage
    pool is a parameter [gl_capacity]: the theorems hold for every
    capacity of at least one, and the NULL-map theorem shows what
    happens when it is exhausted.  The compositor's GPU budget is a
    parameter too.

    ** Not modelled

    SFML (window, clock and input) is I/O and appears as the loop's
    inputs and the window's size; one batch of events per frame is
    assumed to be what the window's first [GetEvent] of the frame
    fetches; GLEW only loads entry points: its call is a trace
    entry, and its result, which main.cpp ignores, is not modelled.
    The shader state and the mesh library are external: their
    contracts are the monitor of Collaborators.v, the mesh library is represented by its draw calls
    and the fragments it produces at the modelled pixel, and the shader
    programs are not modelled.  The compositor's shaders are modelled by
    their blend equations at one pixel, since pixels do not interact.
    The OpenGL driver is modelled only through the calls main.cpp makes
    (GLDriver.v, GLFixed.v); the error flags of the buffer calls and of
    the fixed-function calls are kept apart, since main.cpp reads
    neither.  The source lines not mapped to a definition are the
    includes, declarations without behaviour, blank lines and
    comments. *)

From Stdlib Require Export QArith Qfield Qminmax Lqa Psatz Lia ZArith List
  Permutation Setoid Morphisms.
Export ListNotations.

Declare Scope moc_scope.
Delimit Scope moc_scope with moc.

Create HintDb moc.
Create Rewrite HintDb moc_rw.

Open Scope Q_scope.

(** ** The C math library and the constants of Utils.h

    [tan], [sin] and [cos] come from <cmath> and [DEGREE_TO_RAD] from
    Utils.h, none of which is part of main.cpp: they are parameters of
    the model, as a class. *)
Class CMath := {
  tanf : Q -> Q;
  sinf : Q -> Q;
  cosf : Q -> Q;
  DEGREE_TO_RAD : Q
}.

(** ** Generic Q lemmas *)

(** [a < b] on floats, as a test. *)
Definition qlt (a b : Q) : bool := negb (Qle_bool b a).

Lemma qlt_iff a b : qlt a b = true <-> a < b.
Proof.
  unfold qlt. rewrite negb_true_iff. split.
  - intros E. apply Qnot_le_lt. intros Hle. apply Qle_bool_iff in Hle. congruence.
  - intros Hlt. destruct (Qle_bool b a) eqn:E; [|reflexivity].
    apply Qle_bool_iff in E. lra.
Qed.

Lemma qlt_compat a a' b b' : a == a' -> b == b' -> qlt a b = qlt a' b'.
Proof.
  intros Ha Hb. destruct (qlt a' b') eqn:E.
  - apply qlt_iff in E. apply qlt_iff. rewrite Ha, Hb. exact E.
  - destruct (qlt a b) eqn:E'; [|reflexivity].
    apply qlt_iff in E'. rewrite Ha, Hb in E'. apply qlt_iff in E'. congruence.
Qed.

(** Scaling by a positive factor does not change a sign test. *)
Lemma qlt_pos_mult k x : 0 < k -> qlt 0 (k * x) = qlt 0 x.
Proof.
  intros Hk. destruct (qlt 0 x) eqn:E.
  - apply qlt_iff in E. apply qlt_iff. nra.
  - destruct (qlt 0 (k * x)) eqn:E'; [|reflexivity].
    apply qlt_iff in E'. exfalso.
    assert (~ 0 < x) as Hx by (intros Hx; apply qlt_iff in Hx; congruence). nra.
Qed.


(** Clamping a value into [lo, hi], written as the usual
    [max lo (min hi x)]. *)
Definition Qclamp (lo hi x : Q) : Q := Qmax lo (Qmin hi x).

Lemma Qclamp_lo lo hi x : lo <= Qclamp lo hi x.
Proof. apply Q.le_max_l. Qed.

Lemma Qclamp_hi lo hi x : lo <= hi -> Qclamp lo hi x <= hi.
Proof.
  intros Hle. unfold Qclamp.
  apply Q.max_lub; [exact Hle | apply Q.le_min_l].
Qed.

#[export] Instance Qclamp_proper : Proper (Qeq ==> Qeq ==> Qeq ==> Qeq) Qclamp.
Proof. intros a a' Ha b b' Hb c c' Hc. unfold Qclamp. rewrite Ha, Hb, Hc. reflexivity. Qed.

#[export] Hint Resolve Qclamp_lo Qclamp_hi : moc.

Lemma Qdiv_pos a b : 0 < a -> 0 < b -> 0 < a / b.
Proof. intros Ha Hb. apply Qlt_shift_div_l; [exact Hb | lra]. Qed.

Lemma Qdiv_nonneg a b : 0 <= a -> 0 < b -> 0 <= a / b.
Proof. intros Ha Hb. apply Qle_shift_div_l; [exact Hb | lra]. Qed.

#[export] Hint Resolve Qdiv_pos Qdiv_nonneg : moc.

(** ** Folding a list with a step that commutes up to an equivalence *)

Section FoldPerm.
Context {A B : Type} (R : relation A) `{Equivalence A R}.
Context (f : A -> B -> A).
Context (f_proper : forall b a1 a2, R a1 a2 -> R (f a1 b) (f a2 b)).
Context (f_comm : forall a b1 b2, R (f (f a b1) b2) (f (f a b2) b1)).

Lemma fold_left_R l a1 a2 : R a1 a2 -> R (fold_left f l a1) (fold_left f l a2).
Proof.
  revert a1 a2. induction l as [|b l IH]; intros a1 a2 Ha; simpl; auto.
Qed.

Lemma fold_left_perm_R l1 l2 a1 a2 :
  Permutation l1 l2 -> R a1 a2 -> R (fold_left f l1 a1) (fold_left f l2 a2).
Proof.
  intros Hp. revert a1 a2.
  induction Hp as [| b l1 l2 _ IH | b1 b2 l | l1 l2 l3 _ IH1 _ IH2];
    intros a1 a2 Ha; simpl; auto.
  - apply fold_left_R. rewrite f_comm. apply f_proper, f_proper, Ha.
  - transitivity (fold_left f l2 a1); [apply IH1; reflexivity | apply IH2, Ha].
Qed.
End FoldPerm.

Lemma Permutation_filter {A} (f : A -> bool) l1 l2 :
  Permutation l1 l2 -> Permutation (filter f l1) (filter f l2).
Proof.
  induction 1 as [| x l1 l2 _ IH | x y l | l1 l2 l3 _ IH1 _ IH2]; simpl.
  - constructor.
  - destruct (f x); [constructor|]; exact IH.
  - destruct (f x), (f y); try constructor; reflexivity.
  - etransitivity; eassumption.
Qed.

(** ** Invariants of folds *)

(** A property kept by every step whose input satisfies [Q] holds after
    a fold over such inputs. *)
Lemma fold_left_invariant {A B} (f : A -> B -> A) (P : A -> Prop) (Q : B -> Prop) l a :
  (forall a b, P a -> Q b -> P (f a b)) -> Forall Q l -> P a -> P (fold_left f l a).
Proof.
  intros Hstep Hl. revert a. induction Hl as [|b l Hb _ IH]; intros a Ha; simpl; auto.
Qed.

(** A property kept by a step holds after any number of steps. *)
Lemma iter_invariant {A} (f : A -> A) (P : A -> Prop) n x :
  (forall y, P y -> P (f y)) -> P x -> P (Nat.iter n f x).
Proof. intros Hstep Hx. induction n as [|n IH]; simpl; auto. Qed.

(** ** Integers seen as rationals *)

Lemma inject_Z_sub (x y : Z) : inject_Z (x - y) == inject_Z x - inject_Z y.
Proof. unfold Qeq, Qminus, Qplus, Qopp, inject_Z; simpl; ring. Qed.

#[export] Hint Rewrite inject_Z_sub : moc_rw.

Lemma inject_Z_pos (z : Z) : (0 < z)%Z -> 0 < inject_Z z.
Proof. intros Hz. change 0 with (inject_Z 0). rewrite <- Zlt_Qlt. exact Hz. Qed.

#[export] Hint Resolve inject_Z_pos : moc.

(** ** Proof automation *)

Ltac qmax_elim a b :=
  let M := fresh "M" in let E := fresh "E" in
  destruct (Q.max_spec a b) as [[? E] | [? E]];
  set (M := Qmax a b) in *; clearbody M.

Ltac qmin_elim a b :=
  let M := fresh "M" in let E := fresh "E" in
  destruct (Q.min_spec a b) as [[? E] | [? E]];
  set (M := Qmin a b) in *; clearbody M.

(** Replace every [Qmax] and [Qmin] of the goal and the context by a
    fresh name, with the two cases of its value. *)
Ltac qminmax_cases :=
  repeat match goal with
         | |- context [Qmax ?a ?b] => qmax_elim a b
         | H : context [Qmax ?a ?b] |- _ => qmax_elim a b
         | |- context [Qmin ?a ?b] => qmin_elim a b
         | H : context [Qmin ?a ?b] |- _ => qmin_elim a b
         end.

(** [field] on Q, discharging its non-zero side conditions from the
    positivity hypotheses in context. *)
Ltac qfield :=
  field;
  repeat match goal with
         | |- _ /\ _ => split
         | |- ~ _ => let E := fresh "E" in intro E; nra
         end.
