(* ===== verification/Mat4.v ===== *)
(** * Mat4: the glm column-major 4x4 algebra used by main.cpp

    [glm::vec4] and [glm::mat4] over exact rationals: a matrix is four
    column vectors, [m[c].x] is row 0 of column [c], and
    [operator*] multiplies a matrix by a column vector as
    [m[0]*v.x + m[1]*v.y + m[2]*v.z + m[3]*v.w].  Equality of vectors and
    matrices is componentwise [Qeq]; every operation is a morphism for
    it, so [rewrite] works under them. *)

From S2P Require Import Prelude.

Open Scope Q_scope.

(** ** Data *)

Record vec4 := Vec4 { vx : Q; vy : Q; vz : Q; vw : Q }.

Record mat4 := Mat4 { c0 : vec4; c1 : vec4; c2 : vec4; c3 : vec4 }.

(** Column index [m[i]] and component selector [.x .y .z .w]. *)
Inductive col := Col0 | Col1 | Col2 | Col3.
Inductive lane := LX | LY | LZ | LW.

Definition vget (v : vec4) (l : lane) : Q :=
  match l with LX => vx v | LY => vy v | LZ => vz v | LW => vw v end.

Definition vset (v : vec4) (l : lane) (q : Q) : vec4 :=
  match l with
  | LX => Vec4 q (vy v) (vz v) (vw v)
  | LY => Vec4 (vx v) q (vz v) (vw v)
  | LZ => Vec4 (vx v) (vy v) q (vw v)
  | LW => Vec4 (vx v) (vy v) (vz v) q
  end.

Definition mcol (m : mat4) (i : col) : vec4 :=
  match i with Col0 => c0 m | Col1 => c1 m | Col2 => c2 m | Col3 => c3 m end.

Definition mget (m : mat4) (i : col) (l : lane) : Q := vget (mcol m i) l.

(** [m[i].l = q]: the element assignment of main.cpp. *)
Definition mat_set (m : mat4) (i : col) (l : lane) (q : Q) : mat4 :=
  match i with
  | Col0 => Mat4 (vset (c0 m) l q) (c1 m) (c2 m) (c3 m)
  | Col1 => Mat4 (c0 m) (vset (c1 m) l q) (c2 m) (c3 m)
  | Col2 => Mat4 (c0 m) (c1 m) (vset (c2 m) l q) (c3 m)
  | Col3 => Mat4 (c0 m) (c1 m) (c2 m) (vset (c3 m) l q)
  end.

(** [glm::mat4(s)]: [s] on the diagonal, zero elsewhere. *)
Definition mat4_diag (s : Q) : mat4 :=
  Mat4 (Vec4 s 0 0 0) (Vec4 0 s 0 0) (Vec4 0 0 s 0) (Vec4 0 0 0 s).

Definition vadd (a b : vec4) : vec4 :=
  Vec4 (vx a + vx b) (vy a + vy b) (vz a + vz b) (vw a + vw b).

Definition vscale (s : Q) (a : vec4) : vec4 :=
  Vec4 (s * vx a) (s * vy a) (s * vz a) (s * vw a).

(** [m * v] in glm: a combination of the columns. *)
Definition mat_mul_vec (m : mat4) (v : vec4) : vec4 :=
  vadd (vadd (vscale (vx v) (c0 m)) (vscale (vy v) (c1 m)))
       (vadd (vscale (vz v) (c2 m)) (vscale (vw v) (c3 m))).

(** [a * b] in glm: column [j] of the product is [a * b[j]]. *)
Definition mat_mul (a b : mat4) : mat4 :=
  Mat4 (mat_mul_vec a (c0 b)) (mat_mul_vec a (c1 b))
       (mat_mul_vec a (c2 b)) (mat_mul_vec a (c3 b)).

Infix "*v" := mat_mul_vec (at level 40, left associativity) : moc_scope.
Infix "*m" := mat_mul (at level 40, left associativity) : moc_scope.
Open Scope moc_scope.

(** ** Equality up to [Qeq] *)

Definition vec_eq (a b : vec4) : Prop :=
  vx a == vx b /\ vy a == vy b /\ vz a == vz b /\ vw a == vw b.

Definition mat_eq (a b : mat4) : Prop :=
  vec_eq (c0 a) (c0 b) /\ vec_eq (c1 a) (c1 b) /\
  vec_eq (c2 a) (c2 b) /\ vec_eq (c3 a) (c3 b).

Infix "==v" := vec_eq (at level 70) : moc_scope.
Infix "==m" := mat_eq (at level 70) : moc_scope.

(** Split a [vec_eq]/[mat_eq] goal into its [Qeq] components. *)
Ltac vec_split :=
  repeat match goal with
         | |- _ ==m _ => split; [|split; [|split]]
         | |- _ ==v _ => split; [|split; [|split]]
         | H : _ ==m _ |- _ => destruct H as (? & ? & ? & ?)
         | H : _ ==v _ |- _ => destruct H as (? & ? & ? & ?)
         end.

#[export] Instance vec_eq_equiv : Equivalence vec_eq.
Proof.
  split.
  - intros a. vec_split; reflexivity.
  - intros a b H. vec_split; symmetry; assumption.
  - intros a b c H1 H2. vec_split; etransitivity; eassumption.
Qed.

#[export] Instance mat_eq_equiv : Equivalence mat_eq.
Proof.
  split.
  - intros a. split; [|split; [|split]]; reflexivity.
  - intros a b (H0 & H1 & H2 & H3). split; [|split; [|split]]; symmetry; assumption.
  - intros a b c (H0 & H1 & H2 & H3) (G0 & G1 & G2 & G3).
    split; [|split; [|split]]; etransitivity; eassumption.
Qed.

#[export] Instance vx_proper : Proper (vec_eq ==> Qeq) vx.
Proof. intros a b H. apply H. Qed.
#[export] Instance vy_proper : Proper (vec_eq ==> Qeq) vy.
Proof. intros a b H. apply H. Qed.
#[export] Instance vz_proper : Proper (vec_eq ==> Qeq) vz.
Proof. intros a b H. apply H. Qed.
#[export] Instance vw_proper : Proper (vec_eq ==> Qeq) vw.
Proof. intros a b H. apply H. Qed.

#[export] Instance Vec4_proper : Proper (Qeq ==> Qeq ==> Qeq ==> Qeq ==> vec_eq) Vec4.
Proof. intros ? ? H1 ? ? H2 ? ? H3 ? ? H4. vec_split; assumption. Qed.

#[export] Instance vadd_proper : Proper (vec_eq ==> vec_eq ==> vec_eq) vadd.
Proof.
  intros a a' Ha b b' Hb. unfold vadd. vec_split; simpl;
    match goal with |- _ + _ == _ + _ => idtac end;
    apply Qplus_comp; assumption.
Qed.

#[export] Instance vscale_proper : Proper (Qeq ==> vec_eq ==> vec_eq) vscale.
Proof.
  intros s s' Hs a a' Ha. unfold vscale. vec_split; simpl;
    apply Qmult_comp; assumption.
Qed.

#[export] Instance mat_mul_vec_proper : Proper (mat_eq ==> vec_eq ==> vec_eq) mat_mul_vec.
Proof.
  intros m m' (H0 & H1 & H2 & H3) v v' Hv. unfold mat_mul_vec.
  rewrite H0, H1, H2, H3, Hv. reflexivity.
Qed.

#[export] Instance mat_mul_proper : Proper (mat_eq ==> mat_eq ==> mat_eq) mat_mul.
Proof.
  intros a a' Ha b b' (H0 & H1 & H2 & H3). unfold mat_mul.
  split; [|split; [|split]]; simpl; rewrite Ha; [rewrite H0 | rewrite H1 | rewrite H2 | rewrite H3];
    reflexivity.
Qed.

(** ** Algebra *)

(** Each component of [m * v], written out. *)
Lemma mat_mul_vec_components m v :
  vx (m *v v) == vx (c0 m) * vx v + vx (c1 m) * vy v + vx (c2 m) * vz v + vx (c3 m) * vw v /\
  vy (m *v v) == vy (c0 m) * vx v + vy (c1 m) * vy v + vy (c2 m) * vz v + vy (c3 m) * vw v /\
  vz (m *v v) == vz (c0 m) * vx v + vz (c1 m) * vy v + vz (c2 m) * vz v + vz (c3 m) * vw v /\
  vw (m *v v) == vw (c0 m) * vx v + vw (c1 m) * vy v + vw (c2 m) * vz v + vw (c3 m) * vw v.
Proof. destruct m as [[] [] [] []], v; simpl; repeat split; ring. Qed.

Lemma mat_mul_vec_assoc a b v : (a *m b) *v v ==v a *v (b *v v).
Proof.
  destruct a as [[] [] [] []], b as [[] [] [] []], v.
  unfold mat_mul, mat_mul_vec, vadd, vscale; simpl. vec_split; simpl; ring.
Qed.

