(* ===== verification/Projection.v ===== *)
(** * Projection: the perspective matrix of [init] and [resize]

    main.cpp keeps the projection in file-scope globals
    ([projectionMatrix], [fzNear], [fzFar], [frustumScale]).  [init]
    builds the matrix element by element from a zero matrix; [resize]
    rewrites the two scale entries [m[0].x] and [m[1].y].  This file
    models both, and the fixed-function depth mapping set up by [init]
    ([glDepthRange(0, 1)]), and proves that for every [0 < near < far]
    a point on the near plane lands at window depth 0, one on the far
    plane at depth 1, and that depth grows strictly in between, for the
    matrix of [init] after any history of resizes.

    Floats are modelled as exact rationals.  The one place where the
    difference matters, the division [h / (float)w] of [resize], is kept
    visible: for [w = 0] the C++ result is not a finite float (an
    infinity, or NaN when [h = 0] too), and the model records that in
    the flag [proj_nonfinite] rather than inventing a value.  [m[0].x] is
    the only entry that can be non-finite, and every [resize] rewrites
    it, so the flag is that of the last [resize]. *)

From S2P Require Import Prelude Mat4.

Open Scope Q_scope.
Open Scope moc_scope.

(** ** State *)

Record projection := {
  projectionMatrix : mat4;
  fzNear : Q;
  fzFar : Q;
  frustumScale : Q;
  (** some entry of [projectionMatrix] holds an infinity or a NaN *)
  proj_nonfinite : bool
}.

(** ** Operations *)

(** Lines 42-47 of [init]: the zero matrix, then five assignments. *)
Definition projection_matrix (fs n f : Q) : mat4 :=
  let m := mat4_diag 0 in
  let m := mat_set m Col0 LX fs in
  let m := mat_set m Col1 LY fs in
  let m := mat_set m Col2 LZ ((f + n) / (n - f)) in
  let m := mat_set m Col2 LW (-1) in
  mat_set m Col3 LZ ((2 * f * n) / (n - f)).

Definition fieldOfViewDeg : Q := 45.

(** The projection part of [init] (lines 36-47). *)
Definition init_projection `{CMath} : projection :=
  let fzNear := 1 # 10 in
  let fzFar := 1000 in
  let fFovRad := fieldOfViewDeg * DEGREE_TO_RAD in
  let frustumScale := 1 / tanf (fFovRad / 2) in
  {| projectionMatrix := projection_matrix frustumScale fzNear fzFar;
     fzNear := fzNear; fzFar := fzFar; frustumScale := frustumScale;
     proj_nonfinite := false |}.

(** The projection part of [resize] (lines 76-77):
    [m[0].x = frustumScale * (h / (float)w); m[1].y = frustumScale]. *)
Definition resize_projection (p : projection) (w h : Z) : projection :=
  let m := projectionMatrix p in
  let m := mat_set m Col0 LX (frustumScale p * (inject_Z h / inject_Z w)) in
  let m := mat_set m Col1 LY (frustumScale p) in
  {| projectionMatrix := m; fzNear := fzNear p; fzFar := fzFar p;
     frustumScale := frustumScale p;
     proj_nonfinite := (w =? 0)%Z |}.

(** [glDepthRange(0.0f, 1.0f)] of [init] (line 56). *)
Definition depth_range : Q * Q := (0, 1).

(** ** The fixed-function pipeline after the vertex shader

    Perspective division and the viewport and depth-range transforms of
    OpenGL: NDC [= clip.xyz / clip.w], window depth
    [= (f_r - n_r)/2 * ndc_z + (f_r + n_r)/2], window x
    [= (ndc_x + 1) * width / 2]. *)
Definition ndc_depth (m : mat4) (p : vec4) : Q :=
  let c := m *v p in vz c / vw c.

Definition window_depth (range : Q * Q) (ndc : Q) : Q :=
  (snd range - fst range) / 2 * ndc + (snd range + fst range) / 2.

#[export] Instance window_depth_proper : Proper (eq ==> Qeq ==> Qeq) window_depth.
Proof. intros r r' <- a b Hab. unfold window_depth. rewrite Hab. reflexivity. Qed.

Definition ndc_x (m : mat4) (p : vec4) : Q := let c := m *v p in vx c / vw c.
Definition ndc_y (m : mat4) (p : vec4) : Q := let c := m *v p in vy c / vw c.

(** A point of eye space, [d] units in front of the camera. *)
Definition eye_point (px py d : Q) : vec4 := Vec4 px py (- d) 1.

(** Window depth of an eye-space point under a projection. *)
Definition depth_of (m : mat4) (d : Q) : Q :=
  window_depth depth_range (ndc_depth m (eye_point 0 0 d)).

(** ** Depth mapping *)

(** Two matrices agree on the rows that determine depth: the [z] and
    [w] components of every column. *)
Definition depth_rows_eq (a b : mat4) : Prop :=
  vz (c0 a) == vz (c0 b) /\ vw (c0 a) == vw (c0 b) /\
  vz (c1 a) == vz (c1 b) /\ vw (c1 a) == vw (c1 b) /\
  vz (c2 a) == vz (c2 b) /\ vw (c2 a) == vw (c2 b) /\
  vz (c3 a) == vz (c3 b) /\ vw (c3 a) == vw (c3 b).

Lemma depth_rows_eq_refl m : depth_rows_eq m m.
Proof. repeat split; reflexivity. Qed.

Lemma depth_rows_eq_trans a b c :
  depth_rows_eq a b -> depth_rows_eq b c -> depth_rows_eq a c.
Proof.
  unfold depth_rows_eq. intros H1 H2.
  repeat match goal with H : _ /\ _ |- _ => destruct H end.
  repeat split; etransitivity; eassumption.
Qed.

Lemma depth_of_rows a b d : depth_rows_eq a b -> depth_of a d == depth_of b d.
Proof.
  unfold depth_rows_eq, depth_of, window_depth, ndc_depth, mat_mul_vec, vadd, vscale.
  cbn [vx vy vz vw eye_point]. intros (E1 & E2 & E3 & E4 & E5 & E6 & E7 & E8).
  rewrite E1, E2, E3, E4, E5, E6, E7, E8. reflexivity.
Qed.

(** The closed form of the depth of a point [d] units in front of the
    camera: [f (d - n) / (d (f - n))]. *)
Lemma depth_of_projection fs n f d :
  0 < d -> n < f -> depth_of (projection_matrix fs n f) d == f * (d - n) / (d * (f - n)).
Proof.
  intros Hd Hnf. unfold depth_of, ndc_depth, window_depth, depth_range, eye_point.
  simpl. qfield.
Qed.

Lemma depth_of_projection_diff fs n f d1 d2 :
  0 < d1 -> 0 < d2 -> n < f ->
  depth_of (projection_matrix fs n f) d2 - depth_of (projection_matrix fs n f) d1
  == f * n * (d2 - d1) / (d1 * d2 * (f - n)).
Proof.
  intros H1 H2 Hnf. rewrite !depth_of_projection by lra.
  qfield.
Qed.

Lemma depth_of_projection_to_far fs n f d :
  0 < d -> n < f ->
  1 - depth_of (projection_matrix fs n f) d == n * (f - d) / (d * (f - n)).
Proof.
  intros Hd Hnf. rewrite depth_of_projection by lra.
  qfield.
Qed.

(** C26: §8's clip planes: for every frustum scale and [0 < near < far],
    the projection matrix [init] builds sends the centre of the near
    plane to window depth 0 and that of the far plane to depth 1, under
    the [glDepthRange(0, 1)] that [init] sets. *)
Theorem near_far_plane_depth fs n f :
  0 < n -> n < f ->
  depth_of (projection_matrix fs n f) n == 0 /\ depth_of (projection_matrix fs n f) f == 1.
Proof.
  intros Hn Hnf. rewrite !depth_of_projection by lra. split; [|qfield].
  setoid_replace (n - n) with 0 by ring. qfield.
Qed.

(** C25: between the clip planes the window depth stays in [0, 1] and
    grows strictly with the distance from the camera, so the
    [GL_LEQUAL] depth test of [init] keeps the nearer surface. *)
Theorem depth_monotone_bounded fs n f d1 d2 :
  0 < n -> n <= d1 -> d1 < d2 -> d2 <= f ->
  0 <= depth_of (projection_matrix fs n f) d1 /\
  depth_of (projection_matrix fs n f) d1 < depth_of (projection_matrix fs n f) d2 /\
  depth_of (projection_matrix fs n f) d2 <= 1.
Proof.
  intros Hn H1 H12 H2.
  pose proof (depth_of_projection_diff fs n f d1 d2 ltac:(lra) ltac:(lra) ltac:(lra)) as Hd.
  pose proof (depth_of_projection_to_far fs n f d2 ltac:(lra) ltac:(lra)) as Hf.
  assert (0 < f * n * (d2 - d1) / (d1 * d2 * (f - n)))
    by (apply Qdiv_pos; repeat apply Qmult_lt_0_compat; lra).
  assert (0 <= n * (f - d2) / (d2 * (f - n)))
    by (apply Qdiv_nonneg; [apply Qmult_le_0_compat | apply Qmult_lt_0_compat]; lra).
  rewrite depth_of_projection at 1 by lra.
  split; [apply Qdiv_nonneg; [apply Qmult_le_0_compat | apply Qmult_lt_0_compat]; lra | split; lra].
Qed.

(** ** Resizing *)

Lemma resize_depth_rows p w h :
  depth_rows_eq (projectionMatrix (resize_projection p w h)) (projectionMatrix p).
Proof. destruct p as [[[] [] [] []] ? ? ? ?]; repeat split; reflexivity. Qed.

(** [resize] rewrites both scale entries from [frustumScale], so the
    last call alone decides the matrix. *)
Lemma resize_projection_last p w1 h1 w2 h2 :
  resize_projection (resize_projection p w1 h1) w2 h2 = resize_projection p w2 h2.
Proof. destruct p as [[[] [] [] []] ? ? ? ?]; reflexivity. Qed.

(** Any number of [resize] calls after [init]. *)
Definition resize_all (p : projection) (sizes : list (Z * Z)) : projection :=
  fold_left (fun p wh => resize_projection p (fst wh) (snd wh)) sizes p.

Lemma resize_all_depth_rows p sizes :
  depth_rows_eq (projectionMatrix (resize_all p sizes)) (projectionMatrix p).
Proof.
  revert p. induction sizes as [|[w h] sizes IH]; intros p; simpl.
  - apply depth_rows_eq_refl.
  - eapply depth_rows_eq_trans; [apply IH | apply resize_depth_rows].
Qed.

(** The shape of a perspective matrix: besides the two scales and the
    two depth entries every entry is zero, and [m[2].w = -1], so the
    clip [w] of an eye-space point is its distance in front of the
    camera. *)
Definition perspective (m : mat4) : Prop :=
  vy (c0 m) == 0 /\ vz (c0 m) == 0 /\ vw (c0 m) == 0 /\
  vx (c1 m) == 0 /\ vz (c1 m) == 0 /\ vw (c1 m) == 0 /\
  vx (c2 m) == 0 /\ vy (c2 m) == 0 /\ vw (c2 m) == -1 /\
  vx (c3 m) == 0 /\ vy (c3 m) == 0 /\ vw (c3 m) == 0.

Lemma projection_matrix_perspective fs n f : perspective (projection_matrix fs n f).
Proof. repeat split; reflexivity. Qed.

Lemma resize_perspective p w h :
  perspective (projectionMatrix p) -> perspective (projectionMatrix (resize_projection p w h)).
Proof. destruct p as [[[] [] [] []] ? ? ? ?]; cbn; tauto. Qed.

(** A perspective projection keeps the point straight ahead at the
    centre of the screen. *)
Lemma perspective_centre m d :
  perspective m -> ndc_x m (eye_point 0 0 d) == 0 /\ ndc_y m (eye_point 0 0 d) == 0.
Proof.
  intros (_ & _ & _ & _ & _ & _ & Hx2 & Hy2 & _ & Hx3 & Hy3 & _).
  destruct (mat_mul_vec_components m (eye_point 0 0 d)) as (Ex & Ey & _).
  unfold ndc_x, ndc_y. cbv zeta. rewrite Ex, Ey, Hx2, Hy2, Hx3, Hy3.
  unfold eye_point. cbn [vx vy vz vw]. split; unfold Qdiv; ring.
Qed.

(** A perspective projection sends a point [d] units ahead and [px] to
    the side to [m[0].x * px / d] in NDC. *)
Lemma perspective_ndc_x m px py d :
  perspective m -> ndc_x m (eye_point px py d) == vx (c0 m) * px / d.
Proof.
  intros (_ & _ & Hw0 & Hx1 & _ & Hw1 & Hx2 & _ & Hw2 & Hx3 & _ & Hw3).
  destruct (mat_mul_vec_components m (eye_point px py d)) as (Ex & _ & _ & Ew).
  unfold ndc_x. cbv zeta. rewrite Ex, Ew, Hw0, Hx1, Hw1, Hx2, Hw2, Hx3, Hw3.
  unfold eye_point. cbn [vx vy vz vw]. unfold Qdiv.
  assert (E : 0 * px + 0 * py + -1 * - d + 0 * 1 == d) by ring. rewrite E. ring.
Qed.

(** What the fixed-function stage computes depends only on the clip
    coordinates. *)
Lemma ndc_clip m1 p1 m2 p2 :
  m1 *v p1 ==v m2 *v p2 ->
  ndc_x m1 p1 == ndc_x m2 p2 /\ ndc_y m1 p1 == ndc_y m2 p2 /\
  ndc_depth m1 p1 == ndc_depth m2 p2.
Proof. intros Hc. unfold ndc_x, ndc_y, ndc_depth. cbv zeta. rewrite Hc. repeat split; reflexivity. Qed.

(** C29: whatever sequence of window sizes [resize] receives after
    [init], the projection still sends the near plane ([fzNear = 0.1])
    to depth 0 and the far plane ([fzFar = 1000]) to depth 1. *)
Theorem resized_projection_depth `{CMath} (sizes : list (Z * Z)) :
  depth_of (projectionMatrix (resize_all init_projection sizes)) (1 # 10) == 0 /\
  depth_of (projectionMatrix (resize_all init_projection sizes)) 1000 == 1.
Proof.
  rewrite !(depth_of_rows _ _ _ (resize_all_depth_rows _ _)).
  cbn [init_projection projectionMatrix]. rewrite !depth_of_projection by lra. split; qfield.
Qed.

(** After [resize(w, h)] with a positive window, a horizontal and a
    vertical segment of the same eye-space length at the same distance
    have normalised extents in the ratio [h : w]: the [h / w] factor of
    [m[0].x]. *)
Lemma resize_ndc_aspect `{CMath} (w h : Z) (s d : Q) :
  (0 < w)%Z -> (0 < h)%Z -> 0 < d ->
  let m := projectionMatrix (resize_projection init_projection w h) in
  ndc_x m (eye_point s 0 d) * (inject_Z w / 2) ==
  ndc_y m (eye_point 0 s d) * (inject_Z h / 2).
Proof.
  intros Hw Hh Hd m. subst m.
  assert (0 < inject_Z w) by (change 0 with (inject_Z 0); rewrite <- Zlt_Qlt; exact Hw).
  unfold ndc_x, ndc_y, init_projection, resize_projection, projection_matrix, eye_point.
  generalize (1 / tanf (fieldOfViewDeg * DEGREE_TO_RAD / 2)); intros fs.
  simpl. qfield.
Qed.

(** C27: [resize] computes both scale entries from [frustumScale] and
    the new size alone, never from the matrix it finds: after any
    history of resizes the projection is the one the last size gives. *)
Theorem resize_history_independent p sizes w h :
  resize_all p (sizes ++ [(w, h)]) = resize_projection p w h.
Proof.
  unfold resize_all. rewrite fold_left_app. cbn [fold_left fst snd].
  revert p. induction sizes as [|[w1 h1] sizes IH]; intros p; [reflexivity|].
  cbn [fold_left fst snd]. rewrite IH. apply resize_projection_last.
Qed.

(** ** Witnesses *)

(** A concrete C math library for evaluating the model: the degree
    factor of Utils.h to six digits and [tan], [sin], [cos] by Taylor
    polynomials ([tan] is accurate to 1e-3 on [0, pi/8]). *)
Definition cmath_taylor : CMath := {|
  tanf := fun x => x + x * x * x / 3 + 2 * x * x * x * x * x / 15;
  sinf := fun x => x - x * x * x / 6;
  cosf := fun x => 1 - x * x / 2;
  DEGREE_TO_RAD := 314159 # 18000000
|}.

Lemma near_far_plane_depth_witness :
  0 < 1 # 10 /\ 1 # 10 < 1000 /\
  (depth_of (projection_matrix 1 (1 # 10) 1000) (1 # 10) == 0 /\
   depth_of (projection_matrix 1 (1 # 10) 1000) 1000 == 1).
Proof.
  refine (conj _ (conj _ (near_far_plane_depth 1 (1 # 10) 1000 _ _))); vm_compute; reflexivity.
Defined.

Lemma depth_monotone_bounded_witness :
  0 < 1 # 10 /\ 1 # 10 <= 1 /\ 1 < 10 /\ 10 <= 1000 /\
  (0 <= depth_of (projection_matrix 1 (1 # 10) 1000) 1 /\
   depth_of (projection_matrix 1 (1 # 10) 1000) 1 <
   depth_of (projection_matrix 1 (1 # 10) 1000) 10 /\
   depth_of (projection_matrix 1 (1 # 10) 1000) 10 <= 1).
Proof.
  refine (conj _ (conj _ (conj _ (conj _
    (depth_monotone_bounded 1 (1 # 10) 1000 1 10 _ _ _ _)))));
    vm_compute; first [reflexivity | discriminate].
Defined.

