(* ===== verification/GLDriver.v ===== *)
(** * GLDriver: the OpenGL buffer-object semantics main.cpp relies on

    An environment model, written from the OpenGL 4.5 specification
    (section 6, buffer objects), of the calls of main.cpp that touch the
    uniform buffer: [glGenBuffers], [glBindBuffer], [glBufferData],
    [glBindBufferBase], [glMapBufferRange], a store through the mapped
    pointer, [glUnmapBuffer]; and of the GPU's side: a draw call queues a
    read of the uniform block at a binding point, and the GPU retires
    queued reads in submission order, at times the CPU does not control.

    A buffer object points to a backing storage; storages live in a map
    from storage ids to contents ([None]: undefined).  Invalidating the
    whole buffer on map (GL_MAP_INVALIDATE_BUFFER_BIT) lets the driver
    give the buffer fresh storage ("orphaning"); a synchronised map waits
    for the GPU to finish reading the storage (a stall); an unsynchronised
    map without invalidation hands out the storage the GPU may still be
    reading.  Each queued read carries the contents it must see (a ghost
    field); on retirement the GPU logs what it saw next to it.  Orphaned
    storage is freed when its last read retires; allocation fails with
    GL_OUT_OF_MEMORY when [gl_capacity] storages are live. *)

From S2P Require Import Prelude Mat4.
From stdpp Require Import gmap.

Open Scope Z_scope.

(** ** Constants *)

Definition GL_MAP_READ_BIT : Z := 1.
Definition GL_MAP_WRITE_BIT : Z := 2.
Definition GL_MAP_INVALIDATE_RANGE_BIT : Z := 4.
Definition GL_MAP_INVALIDATE_BUFFER_BIT : Z := 8.
Definition GL_MAP_FLUSH_EXPLICIT_BIT : Z := 16.
Definition GL_MAP_UNSYNCHRONIZED_BIT : Z := 32.

(** The access bits [glMapBufferRange] accepts. *)
Definition GL_MAP_ALL_BITS : Z := 63.

Definition has_bit (access bit : Z) : bool := negb (Z.land access bit =? 0).

Inductive gl_error := GL_INVALID_VALUE | GL_INVALID_OPERATION | GL_OUT_OF_MEMORY.

(** ** State *)

(** A live mapping: the storage it exposes and the mapped range. *)
Record gl_mapping := {
  map_storage : nat;
  map_offset : Z;
  map_length : Z;
  map_access : Z
}.

Record gl_buffer := {
  buf_storage : option nat;
  buf_size : Z;
  buf_mapped : option gl_mapping
}.

(** A read of a uniform block queued by a draw call: the storage it
    reads and (ghost) the contents it was submitted against. *)
Record gpu_read := {
  rd_storage : nat;
  rd_expected : option mat4
}.

Record gl_state := {
  gl_next_name : nat;
  gl_buffers : gmap nat gl_buffer;
  gl_store : gmap nat (option mat4);
  gl_next_storage : nat;
  gl_capacity : nat;
  gl_uniform_binding : nat;
  gl_ubo_slots : gmap nat nat;
  gl_pending : list gpu_read;
  gl_observed : list (option mat4 * option mat4);
  gl_stalls : nat;
  gl_last_error : option gl_error
}.

(** The mapped pointer returned by [glMapBufferRange]. *)
Record gl_pointer := { ptr_storage : nat; ptr_offset : Z }.

Definition gl_initial (capacity : nat) : gl_state := {|
  gl_next_name := 1; gl_buffers := ∅; gl_store := ∅; gl_next_storage := 0;
  gl_capacity := capacity; gl_uniform_binding := 0; gl_ubo_slots := ∅;
  gl_pending := []; gl_observed := []; gl_stalls := 0; gl_last_error := None
|}.

(** Functional record updates, one per field the calls change. *)
Local Abbreviation gl_with st nm bufs sto nsto bnd slots pend obs stl err :=
  {| gl_next_name := nm; gl_buffers := bufs; gl_store := sto;
     gl_next_storage := nsto; gl_capacity := gl_capacity st;
     gl_uniform_binding := bnd; gl_ubo_slots := slots;
     gl_pending := pend; gl_observed := obs; gl_stalls := stl;
     gl_last_error := err |}.

Definition set_buffers (st : gl_state) (b : gmap nat gl_buffer) : gl_state :=
  gl_with st (gl_next_name st) b (gl_store st) (gl_next_storage st)
    (gl_uniform_binding st) (gl_ubo_slots st) (gl_pending st) (gl_observed st)
    (gl_stalls st) (gl_last_error st).

Definition set_store (st : gl_state) (s : gmap nat (option mat4)) : gl_state :=
  gl_with st (gl_next_name st) (gl_buffers st) s (gl_next_storage st)
    (gl_uniform_binding st) (gl_ubo_slots st) (gl_pending st) (gl_observed st)
    (gl_stalls st) (gl_last_error st).

Definition set_binding (st : gl_state) (n : nat) : gl_state :=
  gl_with st (gl_next_name st) (gl_buffers st) (gl_store st) (gl_next_storage st)
    n (gl_ubo_slots st) (gl_pending st) (gl_observed st)
    (gl_stalls st) (gl_last_error st).

(** [glGetError] keeps the first error until it is read. *)
Definition set_error (st : gl_state) (e : gl_error) : gl_state :=
  gl_with st (gl_next_name st) (gl_buffers st) (gl_store st) (gl_next_storage st)
    (gl_uniform_binding st) (gl_ubo_slots st) (gl_pending st) (gl_observed st)
    (gl_stalls st)
    (match gl_last_error st with None => Some e | Some e0 => Some e0 end).

(** ** Storage management *)

(** Some queued read, or some buffer object, still uses the storage. *)
Definition storage_in_use (st : gl_state) (sid : nat) : bool :=
  existsb (fun r => Nat.eqb (rd_storage r) sid) (gl_pending st) ||
  existsb (fun kb => match buf_storage (snd kb) with
                     | Some s => Nat.eqb s sid | None => false end)
          (map_to_list (gl_buffers st)).

(** Free a storage nobody uses any more. *)
Definition release_storage (st : gl_state) (sid : nat) : gl_state :=
  if storage_in_use st sid then st else set_store st (delete sid (gl_store st)).

(** Allocate a fresh storage with undefined contents, unless
    [gl_capacity] storages are already live. *)
Definition alloc_storage (st : gl_state) : option (gl_state * nat) :=
  let sid := gl_next_storage st in
  if Nat.ltb (size (gl_store st)) (gl_capacity st) then
    Some (gl_with st (gl_next_name st) (gl_buffers st) (<[sid := None]> (gl_store st))
            (S sid) (gl_uniform_binding st) (gl_ubo_slots st) (gl_pending st)
            (gl_observed st) (gl_stalls st) (gl_last_error st), sid)
  else None.

(** The GPU finishes every queued read (what [glFinish] waits for),
    logging what each one saw. *)
Definition gpu_drain (st : gl_state) : gl_state :=
  gl_with st (gl_next_name st) (gl_buffers st) (gl_store st) (gl_next_storage st)
    (gl_uniform_binding st) (gl_ubo_slots st) []
    (rev (map (fun r => (rd_expected r, mjoin (gl_store st !! rd_storage r)))
              (gl_pending st)) ++ gl_observed st)
    (S (gl_stalls st)) (gl_last_error st).

(** ** API calls *)

Definition glGenBuffers (st : gl_state) : gl_state * nat :=
  let n := gl_next_name st in
  (gl_with st (S n) (gl_buffers st) (gl_store st) (gl_next_storage st)
     (gl_uniform_binding st) (gl_ubo_slots st) (gl_pending st) (gl_observed st)
     (gl_stalls st) (gl_last_error st), n).

(** Binding a generated name creates its buffer object (size 0, no
    storage); a name never generated is an error. *)
Definition glBindBuffer (st : gl_state) (name : nat) : gl_state :=
  if Nat.eqb name 0 then set_binding st 0
  else if Nat.leb (gl_next_name st) name then set_error st GL_INVALID_OPERATION
  else
    let st := match gl_buffers st !! name with
              | Some _ => st
              | None => set_buffers st (<[name := {| buf_storage := None; buf_size := 0;
                                                     buf_mapped := None |}]> (gl_buffers st))
              end in
    set_binding st name.

(** Update the buffer object bound to the generic binding. *)
Definition update_bound (st : gl_state) (b : gl_buffer) : gl_state :=
  set_buffers st (<[gl_uniform_binding st := b]> (gl_buffers st)).

Definition bound_buffer (st : gl_state) : option gl_buffer :=
  if Nat.eqb (gl_uniform_binding st) 0 then None
  else gl_buffers st !! gl_uniform_binding st.

(** [glBufferData(target, size, NULL, usage)]: new storage of [size]
    bytes with undefined contents; a live mapping is released first and
    the old storage is freed once unused. *)
Definition glBufferData (st : gl_state) (sz : Z) : gl_state :=
  match bound_buffer st with
  | None => set_error st GL_INVALID_OPERATION
  | Some b =>
      if sz <? 0 then set_error st GL_INVALID_VALUE else
      match alloc_storage st with
      | None => set_error st GL_OUT_OF_MEMORY
      | Some (st, sid) =>
          let st := update_bound st {| buf_storage := Some sid; buf_size := sz;
                                       buf_mapped := None |} in
          match buf_storage b with
          | Some old => release_storage st old
          | None => st
          end
      end
  end.

(** The number of indexed uniform-buffer binding points
    (GL_MAX_UNIFORM_BUFFER_BINDINGS is at least 36 since OpenGL 4.3). *)
Definition GL_MAX_UNIFORM_BUFFER_BINDINGS : nat := 36.

(** [glBindBufferBase(GL_UNIFORM_BUFFER, index, name)]: binds the slot
    and the generic binding. *)
Definition glBindBufferBase (st : gl_state) (index name : nat) : gl_state :=
  if Nat.leb GL_MAX_UNIFORM_BUFFER_BINDINGS index then set_error st GL_INVALID_VALUE
  else match gl_buffers st !! name with
       | None => set_error st GL_INVALID_OPERATION
       | Some _ =>
           let st := gl_with st (gl_next_name st) (gl_buffers st) (gl_store st)
                       (gl_next_storage st) name (<[index := name]> (gl_ubo_slots st))
                       (gl_pending st) (gl_observed st) (gl_stalls st) (gl_last_error st) in
           st
       end.

(** The argument checks of [glMapBufferRange], in the order of the
    OpenGL 4.5 specification (section 6.3). *)
Definition map_range_error (b : gl_buffer) (offset length access : Z) : option gl_error :=
  if (offset <? 0) || (length <=? 0) || (buf_size b <? offset + length)
     || negb (Z.land access (Z.lnot GL_MAP_ALL_BITS) =? 0)
  then Some GL_INVALID_VALUE
  else if match buf_mapped b with Some _ => true | None => false end then Some GL_INVALID_OPERATION
  else if negb (has_bit access GL_MAP_READ_BIT) && negb (has_bit access GL_MAP_WRITE_BIT)
  then Some GL_INVALID_OPERATION
  else if has_bit access GL_MAP_READ_BIT &&
          (has_bit access GL_MAP_INVALIDATE_RANGE_BIT ||
           has_bit access GL_MAP_INVALIDATE_BUFFER_BIT ||
           has_bit access GL_MAP_UNSYNCHRONIZED_BIT)
  then Some GL_INVALID_OPERATION
  else if has_bit access GL_MAP_FLUSH_EXPLICIT_BIT && negb (has_bit access GL_MAP_WRITE_BIT)
  then Some GL_INVALID_OPERATION
  else None.

(** [glMapBufferRange]: on an error, NULL.  Otherwise the storage
    handed out depends on the access bits: fresh storage when the whole
    buffer is invalidated (NULL if none can be allocated), the current
    storage after the GPU has finished reading it when the map is
    synchronised, the current storage at once when it is not. *)
Definition glMapBufferRange (st : gl_state) (offset length access : Z)
  : gl_state * option gl_pointer :=
  match bound_buffer st with
  | None => (set_error st GL_INVALID_OPERATION, None)
  | Some b =>
      match map_range_error b offset length access with
      | Some e => (set_error st e, None)
      | None =>
          let mapping sid := {| map_storage := sid; map_offset := offset;
                                map_length := length; map_access := access |} in
          let ptr sid := Some {| ptr_storage := sid; ptr_offset := offset |} in
          if has_bit access GL_MAP_INVALIDATE_BUFFER_BIT then
            match alloc_storage st with
            | None => (set_error st GL_OUT_OF_MEMORY, None)
            | Some (st, sid) =>
                let st := update_bound st {| buf_storage := Some sid; buf_size := buf_size b;
                                             buf_mapped := Some (mapping sid) |} in
                let st := match buf_storage b with
                          | Some old => release_storage st old
                          | None => st
                          end in
                (st, ptr sid)
            end
          else
            match buf_storage b with
            | None => (set_error st GL_INVALID_OPERATION, None)
            | Some sid =>
                let st := if has_bit access GL_MAP_UNSYNCHRONIZED_BIT then st
                          else if existsb (fun r => Nat.eqb (rd_storage r) sid) (gl_pending st)
                          then gpu_drain st else st in
                (update_bound st {| buf_storage := Some sid; buf_size := buf_size b;
                                    buf_mapped := Some (mapping sid) |}, ptr sid)
            end
      end
  end.

(** [*Pointer = m]: a [glm::mat4] stored through the mapped pointer
    fills the 64 bytes at its offset; the model keeps whole-matrix
    contents, so a store at another offset leaves them undefined. *)
Definition gl_store_mat4 (st : gl_state) (p : gl_pointer) (m : mat4) : gl_state :=
  set_store st (<[ptr_storage p := if ptr_offset p =? 0 then Some m else None]> (gl_store st)).

(** [glUnmapBuffer]: [GL_FALSE] and an error when nothing is mapped. *)
Definition glUnmapBuffer (st : gl_state) : gl_state * bool :=
  match bound_buffer st with
  | Some b =>
      match buf_mapped b with
      | Some _ => (update_bound st {| buf_storage := buf_storage b; buf_size := buf_size b;
                                      buf_mapped := None |}, true)
      | None => (set_error st GL_INVALID_OPERATION, false)
      end
  | None => (set_error st GL_INVALID_OPERATION, false)
  end.

(** ** The GPU side *)

(** A draw call whose program reads the uniform block at [slot]: it
    queues a read of the storage behind the buffer bound there.  Drawing
    while that buffer is mapped is an error and draws nothing. *)
Definition gl_draw (st : gl_state) (slot : nat) : gl_state :=
  match gl_ubo_slots st !! slot with
  | None => st
  | Some name =>
      match gl_buffers st !! name with
      | Some {| buf_storage := Some sid; buf_mapped := None |} =>
          gl_with st (gl_next_name st) (gl_buffers st) (gl_store st) (gl_next_storage st)
            (gl_uniform_binding st) (gl_ubo_slots st)
            (gl_pending st ++ [{| rd_storage := sid; rd_expected := mjoin (gl_store st !! sid) |}])
            (gl_observed st) (gl_stalls st) (gl_last_error st)
      | Some {| buf_mapped := Some _ |} => set_error st GL_INVALID_OPERATION
      | _ => st
      end
  end.

(** The GPU completes the oldest queued read, logs what it saw, and the
    storage is freed if nothing uses it any more. *)
Definition gpu_retire (st : gl_state) : option gl_state :=
  match gl_pending st with
  | [] => None
  | r :: rest =>
      let st' := gl_with st (gl_next_name st) (gl_buffers st) (gl_store st) (gl_next_storage st)
                   (gl_uniform_binding st) (gl_ubo_slots st) rest
                   ((rd_expected r, mjoin (gl_store st !! rd_storage r)) :: gl_observed st)
                   (gl_stalls st) (gl_last_error st) in
      Some (release_storage st' (rd_storage r))
  end.

(** ** Lemmas on the driver model *)

Lemma release_storage_eq st sid :
  release_storage st sid =
  set_store st (if storage_in_use st sid then gl_store st else delete sid (gl_store st)).
Proof. unfold release_storage. destruct (storage_in_use st sid); [|reflexivity].
  destruct st; reflexivity. Qed.

(** Freeing changes nothing but the storage map. *)
Lemma release_storage_fields st sid :
  gl_next_name (release_storage st sid) = gl_next_name st /\
  gl_buffers (release_storage st sid) = gl_buffers st /\
  gl_next_storage (release_storage st sid) = gl_next_storage st /\
  gl_ubo_slots (release_storage st sid) = gl_ubo_slots st /\
  gl_pending (release_storage st sid) = gl_pending st /\
  gl_observed (release_storage st sid) = gl_observed st /\
  gl_stalls (release_storage st sid) = gl_stalls st /\
  gl_last_error (release_storage st sid) = gl_last_error st /\
  gl_capacity (release_storage st sid) = gl_capacity st.
Proof. rewrite release_storage_eq. repeat split. Qed.

(** Freeing touches only the freed storage, and only when unused. *)
Lemma lookup_release st sid k :
  (k <> sid \/ storage_in_use st sid = true) ->
  gl_store (release_storage st sid) !! k = gl_store st !! k.
Proof.
  intros Hk. rewrite release_storage_eq. simpl.
  destruct (storage_in_use st sid) eqn:E; [reflexivity|].
  destruct Hk as [Hk | Hk]; [by rewrite lookup_delete_ne | discriminate].
Qed.

Lemma storage_in_use_pending st r :
  In r (gl_pending st) -> storage_in_use st (rd_storage r) = true.
Proof.
  intros Hr. unfold storage_in_use. apply orb_true_intro. left.
  apply existsb_exists. exists r. split; [exact Hr | apply Nat.eqb_refl].
Qed.

Lemma storage_in_use_buffer st name b sid :
  gl_buffers st !! name = Some b -> buf_storage b = Some sid -> storage_in_use st sid = true.
Proof.
  intros Hb Hs. unfold storage_in_use. apply orb_true_intro. right.
  apply existsb_exists. exists (name, b). split.
  - apply list_elem_of_In, elem_of_map_to_list, Hb.
  - simpl. rewrite Hs. apply Nat.eqb_refl.
Qed.

(** The GPU retires the head of its queue, and nothing when idle. *)
Lemma gpu_retire_pending st st' :
  gpu_retire st = Some st' -> gl_pending st' = tl (gl_pending st).
Proof.
  unfold gpu_retire. destruct (gl_pending st) as [|r rest]; [discriminate|].
  intros [= <-]. apply release_storage_fields.
Qed.

Lemma gpu_retire_idle st : gpu_retire st = None -> gl_pending st = [].
Proof. unfold gpu_retire. destruct (gl_pending st); [reflexivity | discriminate]. Qed.

(** Reduce the record plumbing of the driver while keeping its map
    operations and decisions folded. *)
Ltac gl_simpl :=
  cbn -[lookup insert delete size map_to_list Nat.ltb storage_in_use map_range_error has_bit].
