(* ===== verification/GLFixed.v ===== *)
(** * GLFixed: the fixed-function state of the GL context

    The GL calls of main.cpp that are not buffer-object calls set state
    of the context that later clears and draws read: face culling and
    the depth test in [init] (lines 49-56), the viewport in [resize]
    (82), the clear values and the clear in [enterFrame] (89-92).  This
    file models that state as one record, [gl_fixed], with one operation
    per GL call.  Like GLDriver.v it is written from the OpenGL 4.5
    rules, since the driver is not part of the sources: the initial
    values of the state tables ([gl_fixed_default]), the clamping of
    [glDepthRange] and [glClearDepth] to [0, 1], [GL_INVALID_VALUE] with
    no other effect for a negative [glViewport] size or an unknown
    [glClear] bit, the clamp of the viewport to [GL_MAX_VIEWPORT_DIMS],
    and a [glClear] of the depth buffer that honours the depth write
    mask.  The default framebuffer is modelled at one pixel; the error
    flag of these calls is kept apart from the buffer calls' one
    (main.cpp reads neither). *)

From S2P Require Import Prelude GLDriver.

Open Scope Q_scope.

(** ** Enumerations of the calls' arguments *)

Inductive gl_capability := GL_CULL_FACE | GL_DEPTH_TEST.
Inductive gl_face := GL_FRONT | GL_BACK | GL_FRONT_AND_BACK.
Inductive gl_winding := GL_CW | GL_CCW.
Inductive gl_compare :=
| GL_NEVER | GL_LESS | GL_EQUAL | GL_LEQUAL | GL_GREATER | GL_NOTEQUAL | GL_GEQUAL | GL_ALWAYS.

Definition GL_DEPTH_BUFFER_BIT : Z := 256.
Definition GL_STENCIL_BUFFER_BIT : Z := 1024.
Definition GL_COLOR_BUFFER_BIT : Z := 16384.

(** The bits [glClear] accepts in a core context. *)
Definition GL_CLEAR_ALL_BITS : Z :=
  Z.lor GL_COLOR_BUFFER_BIT (Z.lor GL_DEPTH_BUFFER_BIT GL_STENCIL_BUFFER_BIT).

(** ** State *)

Record rgba := RGBA { red : Q; green : Q; blue : Q; alpha : Q }.

Record face_culling := {
  fc_enabled : bool;       (** [GL_CULL_FACE] *)
  fc_mode : gl_face;       (** [GL_CULL_FACE_MODE] *)
  fc_front : gl_winding    (** [GL_FRONT_FACE] *)
}.

Record depth_state := {
  ds_enabled : bool;       (** [GL_DEPTH_TEST] *)
  ds_mask : bool;          (** [GL_DEPTH_WRITEMASK] *)
  ds_func : gl_compare;    (** [GL_DEPTH_FUNC] *)
  ds_range : Q * Q         (** [GL_DEPTH_RANGE] *)
}.

Record clear_values := {
  cv_color : rgba;         (** [GL_COLOR_CLEAR_VALUE] *)
  cv_depth : Q;            (** [GL_DEPTH_CLEAR_VALUE] *)
  cv_stencil : Z           (** [GL_STENCIL_CLEAR_VALUE] *)
}.

(** What the implementation fixes: [GL_MAX_VIEWPORT_DIMS] and the
    stencil bits of the default framebuffer. *)
Record gl_limits := {
  lim_max_w : Z;
  lim_max_h : Z;
  lim_stencil_bits : Z
}.

(** The default framebuffer at the modelled pixel. *)
Record fb_pixel := { fb_color : rgba; fb_depth : Q; fb_stencil : Z }.

Record gl_fixed := {
  glf_face : face_culling;
  glf_depth : depth_state;
  glf_clear : clear_values;
  glf_viewport : Z * Z * Z * Z;
  glf_limits : gl_limits;
  glf_framebuffer : fb_pixel;
  glf_error : option gl_error
}.

(** The state of a new context on a [w] x [h] window (OpenGL 4.5, state
    tables 23.x): culling and the depth test off, back faces, CCW front
    faces, [GL_LESS], depth writes on, range [0, 1], clear colour
    (0,0,0,0), clear depth 1, clear stencil 0, viewport the window. *)
Definition gl_fixed_default (w h : Z) (lim : gl_limits) (fb : fb_pixel) : gl_fixed := {|
  glf_face := {| fc_enabled := false; fc_mode := GL_BACK; fc_front := GL_CCW |};
  glf_depth := {| ds_enabled := false; ds_mask := true; ds_func := GL_LESS; ds_range := (0, 1) |};
  glf_clear := {| cv_color := RGBA 0 0 0 0; cv_depth := 1; cv_stencil := 0 |};
  glf_viewport := (0, 0, w, h)%Z;
  glf_limits := lim; glf_framebuffer := fb; glf_error := None
|}.

(** ** Updates, one per part of the state *)

Definition set_face (g : gl_fixed) (f : face_culling) : gl_fixed :=
  {| glf_face := f; glf_depth := glf_depth g; glf_clear := glf_clear g;
     glf_viewport := glf_viewport g; glf_limits := glf_limits g;
     glf_framebuffer := glf_framebuffer g; glf_error := glf_error g |}.

Definition set_depth (g : gl_fixed) (d : depth_state) : gl_fixed :=
  {| glf_face := glf_face g; glf_depth := d; glf_clear := glf_clear g;
     glf_viewport := glf_viewport g; glf_limits := glf_limits g;
     glf_framebuffer := glf_framebuffer g; glf_error := glf_error g |}.

Definition set_clear (g : gl_fixed) (c : clear_values) : gl_fixed :=
  {| glf_face := glf_face g; glf_depth := glf_depth g; glf_clear := c;
     glf_viewport := glf_viewport g; glf_limits := glf_limits g;
     glf_framebuffer := glf_framebuffer g; glf_error := glf_error g |}.

Definition set_viewport (g : gl_fixed) (v : Z * Z * Z * Z) : gl_fixed :=
  {| glf_face := glf_face g; glf_depth := glf_depth g; glf_clear := glf_clear g;
     glf_viewport := v; glf_limits := glf_limits g;
     glf_framebuffer := glf_framebuffer g; glf_error := glf_error g |}.

Definition set_framebuffer (g : gl_fixed) (fb : fb_pixel) : gl_fixed :=
  {| glf_face := glf_face g; glf_depth := glf_depth g; glf_clear := glf_clear g;
     glf_viewport := glf_viewport g; glf_limits := glf_limits g;
     glf_framebuffer := fb; glf_error := glf_error g |}.

(** The error flag keeps the first error until it is read. *)
Definition set_glf_error (g : gl_fixed) (e : gl_error) : gl_fixed :=
  {| glf_face := glf_face g; glf_depth := glf_depth g; glf_clear := glf_clear g;
     glf_viewport := glf_viewport g; glf_limits := glf_limits g;
     glf_framebuffer := glf_framebuffer g;
     glf_error := match glf_error g with None => Some e | Some e0 => Some e0 end |}.

(** ** The calls *)

Definition glEnable (g : gl_fixed) (cap : gl_capability) : gl_fixed :=
  match cap with
  | GL_CULL_FACE =>
      let f := glf_face g in
      set_face g {| fc_enabled := true; fc_mode := fc_mode f; fc_front := fc_front f |}
  | GL_DEPTH_TEST =>
      let d := glf_depth g in
      set_depth g {| ds_enabled := true; ds_mask := ds_mask d; ds_func := ds_func d;
                     ds_range := ds_range d |}
  end.

Definition glCullFace (g : gl_fixed) (mode : gl_face) : gl_fixed :=
  let f := glf_face g in
  set_face g {| fc_enabled := fc_enabled f; fc_mode := mode; fc_front := fc_front f |}.

Definition glFrontFace (g : gl_fixed) (dir : gl_winding) : gl_fixed :=
  let f := glf_face g in
  set_face g {| fc_enabled := fc_enabled f; fc_mode := fc_mode f; fc_front := dir |}.

Definition glDepthMask (g : gl_fixed) (flag : bool) : gl_fixed :=
  let d := glf_depth g in
  set_depth g {| ds_enabled := ds_enabled d; ds_mask := flag; ds_func := ds_func d;
                 ds_range := ds_range d |}.

Definition glDepthFunc (g : gl_fixed) (func : gl_compare) : gl_fixed :=
  let d := glf_depth g in
  set_depth g {| ds_enabled := ds_enabled d; ds_mask := ds_mask d; ds_func := func;
                 ds_range := ds_range d |}.

(** Both ends are clamped to [0, 1]. *)
Definition glDepthRange (g : gl_fixed) (n f : Q) : gl_fixed :=
  let d := glf_depth g in
  set_depth g {| ds_enabled := ds_enabled d; ds_mask := ds_mask d; ds_func := ds_func d;
                 ds_range := (Qclamp 0 1 n, Qclamp 0 1 f) |}.

(** The colour is kept as given; it is clamped when it is written to
    the fixed-point colour buffer. *)
Definition glClearColor (g : gl_fixed) (r gr b a : Q) : gl_fixed :=
  let c := glf_clear g in
  set_clear g {| cv_color := RGBA r gr b a; cv_depth := cv_depth c; cv_stencil := cv_stencil c |}.

Definition glClearDepth (g : gl_fixed) (d : Q) : gl_fixed :=
  let c := glf_clear g in
  set_clear g {| cv_color := cv_color c; cv_depth := Qclamp 0 1 d; cv_stencil := cv_stencil c |}.

Definition glClearStencil (g : gl_fixed) (s : Z) : gl_fixed :=
  let c := glf_clear g in
  set_clear g {| cv_color := cv_color c; cv_depth := cv_depth c; cv_stencil := s |}.

Definition clamp_rgba (c : rgba) : rgba :=
  RGBA (Qclamp 0 1 (red c)) (Qclamp 0 1 (green c)) (Qclamp 0 1 (blue c)) (Qclamp 0 1 (alpha c)).

(** [glClear(mask)]: an unknown bit is [GL_INVALID_VALUE]; otherwise
    each selected buffer takes its clear value, the depth buffer only
    while depth writes are on, the stencil value masked to the stencil
    bits. *)
Definition glClear (g : gl_fixed) (mask : Z) : gl_fixed :=
  if negb (Z.land mask (Z.lnot GL_CLEAR_ALL_BITS) =? 0)%Z then set_glf_error g GL_INVALID_VALUE
  else
    let fb := glf_framebuffer g in
    let c := glf_clear g in
    set_framebuffer g
      {| fb_color := if has_bit mask GL_COLOR_BUFFER_BIT then clamp_rgba (cv_color c)
                     else fb_color fb;
         fb_depth := if has_bit mask GL_DEPTH_BUFFER_BIT && ds_mask (glf_depth g)
                     then cv_depth c else fb_depth fb;
         fb_stencil := if has_bit mask GL_STENCIL_BUFFER_BIT
                       then Z.land (cv_stencil c) (Z.ones (lim_stencil_bits (glf_limits g)))
                       else fb_stencil fb |}.

(** [glViewport(x, y, w, h)]: a negative size is [GL_INVALID_VALUE]
    and changes nothing; the size is clamped to the maximum. *)
Definition glViewport (g : gl_fixed) (x y w h : Z) : gl_fixed :=
  if (w <? 0)%Z || (h <? 0)%Z then set_glf_error g GL_INVALID_VALUE
  else set_viewport g (x, y, Z.min w (lim_max_w (glf_limits g)),
                       Z.min h (lim_max_h (glf_limits g)))%Z.

(** ** What main.cpp calls *)

(** [init], lines 49-56. *)
Definition init_fixed (g : gl_fixed) : gl_fixed :=
  let g := glEnable g GL_CULL_FACE in
  let g := glCullFace g GL_BACK in
  let g := glFrontFace g GL_CCW in
  let g := glEnable g GL_DEPTH_TEST in
  let g := glDepthMask g true in
  let g := glDepthFunc g GL_LEQUAL in
  glDepthRange g 0 1.

(** [resize], line 82. *)
Definition resize_viewport (g : gl_fixed) (w h : Z) : gl_fixed := glViewport g 0 0 w h.

(** [enterFrame], lines 89-92. *)
Definition frame_clear (g : gl_fixed) : gl_fixed :=
  let g := glClearColor g 0 0 0 1 in
  let g := glClearDepth g 1 in
  let g := glClearStencil g 0 in
  glClear g (Z.lor GL_COLOR_BUFFER_BIT (Z.lor GL_DEPTH_BUFFER_BIT GL_STENCIL_BUFFER_BIT)).

(** ** Reading the state *)

(** The depth comparison of a fragment against the stored depth. *)
Definition gl_compare_eval (f : gl_compare) (incoming stored : Q) : bool :=
  match f with
  | GL_NEVER => false
  | GL_LESS => qlt incoming stored
  | GL_EQUAL => Qeq_bool incoming stored
  | GL_LEQUAL => Qle_bool incoming stored
  | GL_GREATER => qlt stored incoming
  | GL_NOTEQUAL => negb (Qeq_bool incoming stored)
  | GL_GEQUAL => Qle_bool stored incoming
  | GL_ALWAYS => true
  end.

(** With the depth test off every fragment passes. *)
Definition depth_pass (d : depth_state) (incoming stored : Q) : bool :=
  negb (ds_enabled d) || gl_compare_eval (ds_func d) incoming stored.

(** The viewport [glViewport(0, 0, w, h)] leaves for a size it accepts. *)
Definition viewport_for (lim : gl_limits) (w h : Z) : Z * Z * Z * Z :=
  (0, 0, Z.min w (lim_max_w lim), Z.min h (lim_max_h lim))%Z.

(** The state [init]'s calls establish. *)
Definition init_face : face_culling :=
  {| fc_enabled := true; fc_mode := GL_BACK; fc_front := GL_CCW |}.

Definition init_depth : depth_state :=
  {| ds_enabled := true; ds_mask := true; ds_func := GL_LEQUAL; ds_range := (0, 1) |}.

(** The values [enterFrame] clears to. *)
Definition frame_clear_values : clear_values :=
  {| cv_color := RGBA 0 0 0 1; cv_depth := 1; cv_stencil := 0 |}.

Definition cleared_pixel : fb_pixel :=
  {| fb_color := RGBA 0 0 0 1; fb_depth := 1; fb_stencil := 0 |}.

(** [GL_MAX_VIEWPORT_DIMS] is positive. *)
Definition limits_ok (lim : gl_limits) : Prop := (0 < lim_max_w lim)%Z /\ (0 < lim_max_h lim)%Z.

(** The least limits OpenGL 4.5 allows, with an 8-bit stencil. *)
Definition gl45_limits : gl_limits := {| lim_max_w := 16384; lim_max_h := 16384; lim_stencil_bits := 8 |}.

(** ** Lemmas *)

Lemma resize_viewport_ok g w h :
  (0 <= w)%Z -> (0 <= h)%Z -> resize_viewport g w h = set_viewport g (viewport_for (glf_limits g) w h).
Proof.
  intros Hw Hh. unfold resize_viewport, glViewport.
  replace ((w <? 0)%Z || (h <? 0)%Z) with false by (symmetry; apply orb_false_iff; split; apply Z.ltb_ge; lia).
  reflexivity.
Qed.

(** The same viewport call twice is the call once. *)
Lemma resize_viewport_idem g w h :
  resize_viewport (resize_viewport g w h) w h = resize_viewport g w h.
Proof.
  unfold resize_viewport, glViewport.
  destruct ((w <? 0)%Z || (h <? 0)%Z); [|reflexivity].
  unfold set_glf_error. cbn. destruct (glf_error g); reflexivity.
Qed.

(** What the viewport call and the clear leave alone. *)
Lemma resize_viewport_keeps g w h :
  glf_face (resize_viewport g w h) = glf_face g /\ glf_depth (resize_viewport g w h) = glf_depth g /\
  glf_limits (resize_viewport g w h) = glf_limits g.
Proof.
  unfold resize_viewport, glViewport.
  destruct ((w <? 0)%Z || (h <? 0)%Z); repeat split.
Qed.

Lemma frame_clear_keeps g :
  glf_face (frame_clear g) = glf_face g /\ glf_depth (frame_clear g) = glf_depth g /\
  glf_limits (frame_clear g) = glf_limits g /\ glf_viewport (frame_clear g) = glf_viewport g.
Proof. unfold frame_clear, glClear. destruct (negb _); repeat split. Qed.

(** The calls of [init] and the clear of [enterFrame] never raise a GL
    error; [glViewport] raises one only for a negative size. *)
Lemma init_fixed_error g : glf_error (init_fixed g) = glf_error g.
Proof. reflexivity. Qed.

Lemma frame_clear_error g : glf_error (frame_clear g) = glf_error g.
Proof. reflexivity. Qed.

Lemma resize_viewport_error g w h :
  (0 <= w)%Z -> (0 <= h)%Z -> glf_error (resize_viewport g w h) = glf_error g.
Proof. intros Hw Hh. rewrite resize_viewport_ok by assumption. reflexivity. Qed.

Lemma resize_viewport_negative g w h :
  (w < 0 \/ h < 0)%Z ->
  glf_viewport (resize_viewport g w h) = glf_viewport g /\ glf_error (resize_viewport g w h) <> None.
Proof.
  intros Hn. unfold resize_viewport, glViewport.
  replace ((w <? 0)%Z || (h <? 0)%Z) with true by (symmetry; apply orb_true_iff; lia).
  unfold set_glf_error. cbn. split; [reflexivity|]. destruct (glf_error g); discriminate.
Qed.

(** ** The clear of [enterFrame] *)

(** C14: from any GL state whose depth writes are on, [enterFrame]'s
    clear (lines 89-92) leaves the default framebuffer at colour
    (0,0,0,1), depth 1 and stencil 0, with those clear values set,
    nothing else changed and no error: the clear values are set before
    [glClear] reads them, and the mask has only known bits. *)
Theorem frame_clear_resets g :
  ds_mask (glf_depth g) = true ->
  frame_clear g = set_framebuffer (set_clear g frame_clear_values) cleared_pixel.
Proof.
  intros Hm. destruct g as [f d c v l fb e]. cbn in Hm.
  unfold frame_clear, glClear. cbn. rewrite Hm. reflexivity.
Qed.

(** ** Witnesses *)

Definition demo_fb : fb_pixel := {| fb_color := RGBA (1 # 2) 0 0 1; fb_depth := 1 # 4; fb_stencil := 3 |}.

Lemma frame_clear_resets_witness :
  let g := init_fixed (gl_fixed_default 800 800 gl45_limits demo_fb) in
  ds_mask (glf_depth g) = true /\
  frame_clear g = set_framebuffer (set_clear g frame_clear_values) cleared_pixel.
Proof.
  intros g. assert (Hm : ds_mask (glf_depth g) = true) by reflexivity.
  exact (conj Hm (frame_clear_resets g Hm)).
Defined.

