(* ===== verification/Raster.v ===== *)
(** * Raster: the culling decision under the GL state

    [init] enables back-face culling with counter-clockwise front faces
    ([glEnable(GL_CULL_FACE); glCullFace(GL_BACK); glFrontFace(GL_CCW)],
    lines 49-51), and [resize] sets the viewport to the window
    ([glViewport(0, 0, w, h)], line 82); GLFixed.v models both as
    operations on the GL state [gl_fixed].  OpenGL decides whether a
    triangle faces the viewer from the sign of its area in window
    coordinates, after the perspective division and the viewport
    transform.  This file models that decision, [culled], under a GL
    state and a matrix, and proves that with the state [init] leaves and
    the projection [resize] builds it depends on the triangle's
    orientation in eye space alone: the window size, the aspect factor
    [h / w] of [m[0].x] and the field of view never flip a face.  The
    lemma [culled_init_face] is shared with the whole-program theorem of
    MainLoop.v. *)

From S2P Require Import Prelude Mat4 Projection GLDriver GLFixed.

Open Scope Q_scope.
Open Scope moc_scope.

(** ** The viewport transform (line 82) *)

Definition window_coord (origin size : Z) (ndc : Q) : Q :=
  (ndc + 1) * (inject_Z size / 2) + inject_Z origin.

Definition window_pos (vp : Z * Z * Z * Z) (m : mat4) (p : vec4) : Q * Q :=
  let '(x, y, w, h) := vp in (window_coord x w (ndc_x m p), window_coord y h (ndc_y m p)).

(** Twice the signed area of a window-space triangle: positive when its
    vertices run counter-clockwise. *)
Definition signed_area (a b c : Q * Q) : Q :=
  (fst b - fst a) * (snd c - snd a) - (fst c - fst a) * (snd b - snd a).

(** A zero area is back facing. *)
Definition front_facing (fc : face_culling) (area : Q) : bool :=
  match fc_front fc with GL_CCW => qlt 0 area | GL_CW => qlt area 0 end.

(** Whether the rasterizer discards the triangle [p1 p2 p3] under the
    GL state [g] and the matrix [m]. *)
Definition culled (g : gl_fixed) (m : mat4) (p1 p2 p3 : vec4) : bool :=
  let vp := glf_viewport g in
  let fc := glf_face g in
  let area := signed_area (window_pos vp m p1) (window_pos vp m p2) (window_pos vp m p3) in
  fc_enabled fc && match fc_mode fc with
                   | GL_BACK => negb (front_facing fc area)
                   | GL_FRONT => front_facing fc area
                   | GL_FRONT_AND_BACK => true
                   end.

(** ** Orientation in eye space *)

(** The determinant of the eye-space vertices seen from the camera,
    which looks down [-z]: positive when they run counter-clockwise. *)
Definition eye_orientation (p1 p2 p3 : vec4) : Q :=
  let x1 := vx p1 in let y1 := vy p1 in let d1 := - vz p1 in
  let x2 := vx p2 in let y2 := vy p2 in let d2 := - vz p2 in
  let x3 := vx p3 in let y3 := vy p3 in let d3 := - vz p3 in
  x1 * (y2 * d3 - y3 * d2) - y1 * (x2 * d3 - x3 * d2) + d1 * (x2 * y3 - x3 * y2).

(** ** Lemmas *)

(** The window area of a triangle of points in front of the camera,
    under a perspective matrix with scales [sx] and [sy] and a viewport
    [(x, y, w, h)], is the eye orientation times a factor. *)
Lemma window_area_eye sx sy a b x y w h p1 p2 p3 :
  vw p1 == 1 -> vw p2 == 1 -> vw p3 == 1 ->
  vz p1 < 0 -> vz p2 < 0 -> vz p3 < 0 ->
  let m := Mat4 (Vec4 sx 0 0 0) (Vec4 0 sy 0 0) (Vec4 0 0 a (-1)) (Vec4 0 0 b 0) in
  let vp := (x, y, w, h) in
  signed_area (window_pos vp m p1) (window_pos vp m p2) (window_pos vp m p3) ==
  (inject_Z w / 2) * (inject_Z h / 2) * (sx * sy) / (vz p1 * vz p2 * vz p3) *
    (- eye_orientation p1 p2 p3).
Proof.
  intros H1 H2 H3 Z1 Z2 Z3 m vp. subst m vp.
  destruct p1 as [x1 y1 z1 w1], p2 as [x2 y2 z2 w2], p3 as [x3 y3 z3 w3].
  cbn [vx vy vz vw] in *.
  unfold signed_area, window_pos, window_coord, ndc_x, ndc_y, eye_orientation,
    mat_mul_vec, vadd, vscale.
  cbn [fst snd vx vy vz vw c0 c1 c2 c3]. rewrite H1, H2, H3.
  field. repeat split; intros E; nra.
Qed.

Lemma neg_div_pos a b : 0 < a -> b < 0 -> 0 < - (a / b).
Proof.
  intros Ha Hb. assert (E : - (a / b) == a / - b) by (field; lra). rewrite E.
  apply Qdiv_pos; lra.
Qed.

(** Under [init]'s culling state, a viewport of positive size and a
    perspective matrix whose scales have a positive product, a triangle
    in front of the camera is culled exactly when its eye orientation
    is not positive. *)
Lemma culled_init_face g sx sy a b x y w h p1 p2 p3 :
  glf_face g = init_face -> glf_viewport g = (x, y, w, h) ->
  (0 < w)%Z -> (0 < h)%Z -> 0 < sx * sy ->
  vw p1 == 1 -> vw p2 == 1 -> vw p3 == 1 -> vz p1 < 0 -> vz p2 < 0 -> vz p3 < 0 ->
  culled g (Mat4 (Vec4 sx 0 0 0) (Vec4 0 sy 0 0) (Vec4 0 0 a (-1)) (Vec4 0 0 b 0)) p1 p2 p3 =
  negb (qlt 0 (eye_orientation p1 p2 p3)).
Proof.
  intros Hf Hv Hw Hh Hs H1 H2 H3 Z1 Z2 Z3.
  unfold culled. rewrite Hf, Hv. cbn [init_face fc_enabled fc_mode fc_front front_facing andb].
  f_equal.
  assert (Hk : 0 < - (inject_Z w / 2 * (inject_Z h / 2) * (sx * sy) / (vz p1 * vz p2 * vz p3))).
  { apply neg_div_pos; [| assert (0 < vz p1 * vz p2) by nra; nra].
    assert (0 < inject_Z w / 2) by (apply Qdiv_pos; auto with moc; lra).
    assert (0 < inject_Z h / 2) by (apply Qdiv_pos; auto with moc; lra).
    apply Qmult_lt_0_compat; [apply Qmult_lt_0_compat|]; assumption. }
  erewrite qlt_compat; [apply qlt_pos_mult, Hk | reflexivity |].
  rewrite (window_area_eye _ _ _ _ x y w h p1 p2 p3 H1 H2 H3 Z1 Z2 Z3). ring.
Qed.

(** The projection after [resize(w, h)] has that shape, with scales
    [fs * (h / w)] and [fs]. *)
Lemma resize_projection_matrix `{CMath} w h :
  projectionMatrix (resize_projection init_projection w h) =
  let fs := frustumScale init_projection in
  Mat4 (Vec4 (fs * (inject_Z h / inject_Z w)) 0 0 0) (Vec4 0 fs 0 0)
       (Vec4 0 0 ((1000 + (1 # 10)) / ((1 # 10) - 1000)) (-1))
       (Vec4 0 0 ((2 * 1000 * (1 # 10)) / ((1 # 10) - 1000)) 0).
Proof. reflexivity. Qed.

Lemma resize_scales_pos `{CMath} w h :
  (0 < w)%Z -> (0 < h)%Z -> ~ frustumScale init_projection == 0 ->
  0 < frustumScale init_projection * (inject_Z h / inject_Z w) * frustumScale init_projection.
Proof.
  intros Hw Hh Hfs. set (fs := frustumScale init_projection) in *.
  assert (0 < fs * fs) by (destruct (Q_dec fs 0) as [[?|?]|?]; [nra | nra | contradiction]).
  assert (0 < inject_Z h / inject_Z w) by (apply Qdiv_pos; auto with moc).
  nra.
Qed.

(** Under a perspective matrix, the pixels a segment covers from the
    centre of the screen, horizontally and vertically, are its
    normalised extent times half the viewport's size. *)
Lemma window_span m x y w h s d :
  perspective m ->
  fst (window_pos (x, y, w, h) m (eye_point s 0 d)) -
    fst (window_pos (x, y, w, h) m (eye_point 0 0 d)) ==
  ndc_x m (eye_point s 0 d) * (inject_Z w / 2) /\
  snd (window_pos (x, y, w, h) m (eye_point 0 s d)) -
    snd (window_pos (x, y, w, h) m (eye_point 0 0 d)) ==
  ndc_y m (eye_point 0 s d) * (inject_Z h / 2).
Proof.
  intros Hp. destruct (perspective_centre m d Hp) as [Cx Cy].
  unfold window_pos, window_coord. cbn [fst snd]. rewrite Cx, Cy. split; ring.
Qed.

(** ** Culling *)

(** C28: from any GL state, after [init]'s culling calls (lines 49-51)
    and the viewport and projection of [resize(w, h)] for a positive
    window, the faces OpenGL discards are exactly the triangles that
    run clockwise as the camera sees them (eye orientation not
    positive): no window size, aspect factor or field of view flips a
    face. *)
Theorem culling_follows_eye_orientation `{CMath} g0 (w h : Z) p1 p2 p3 :
  limits_ok (glf_limits g0) -> (0 < w)%Z -> (0 < h)%Z -> ~ frustumScale init_projection == 0 ->
  vw p1 == 1 -> vw p2 == 1 -> vw p3 == 1 -> vz p1 < 0 -> vz p2 < 0 -> vz p3 < 0 ->
  culled (resize_viewport (init_fixed g0) w h)
    (projectionMatrix (resize_projection init_projection w h)) p1 p2 p3 =
  negb (qlt 0 (eye_orientation p1 p2 p3)).
Proof.
  intros [Hmw Hmh] Hw Hh Hfs H1 H2 H3 Z1 Z2 Z3.
  rewrite resize_projection_matrix, resize_viewport_ok by lia.
  apply (culled_init_face _ _ _ _ _ 0 0 (Z.min w (lim_max_w (glf_limits g0)))
                                      (Z.min h (lim_max_h (glf_limits g0))));
    try reflexivity; try lia; try assumption.
  apply resize_scales_pos; assumption.
Qed.

(** ** Witness *)

(** A triangle 5 units in front of the camera, counter-clockwise as the
    camera sees it, in a 800x600 window of a new context: drawn. *)
Lemma culling_follows_eye_orientation_witness :
  let p1 := Vec4 0 0 (-5) 1 in let p2 := Vec4 1 0 (-5) 1 in let p3 := Vec4 0 1 (-5) 1 in
  let g0 := gl_fixed_default 800 600 gl45_limits (Build_fb_pixel (RGBA 0 0 0 0) 1 0) in
  limits_ok (glf_limits g0) /\ ~ frustumScale (@init_projection cmath_taylor) == 0 /\
  culled (resize_viewport (init_fixed g0) 800 600)
    (projectionMatrix (@resize_projection (@init_projection cmath_taylor) 800 600)) p1 p2 p3 =
  negb (qlt 0 (eye_orientation p1 p2 p3)).
Proof.
  intros p1 p2 p3 g0.
  assert (Hl : limits_ok (glf_limits g0)) by (split; reflexivity).
  assert (Hfs : ~ frustumScale (@init_projection cmath_taylor) == 0)
    by (vm_compute; intros Hq; discriminate Hq).
  refine (conj Hl (conj Hfs (@culling_follows_eye_orientation cmath_taylor g0 800 600 p1 p2 p3
            Hl _ _ Hfs _ _ _ _ _ _))); try reflexivity.
Defined.
