(* ===== verification/UniformChannel.v ===== *)
(** * UniformChannel: the per-frame upload of the MVP matrix

    main.cpp creates one uniform buffer in [init] (lines 58-63): a name
    from [glGenBuffers], 64 bytes of storage from [glBufferData], bound
    to uniform binding point 0.  Every frame, [enterFrame] (lines 96-103)
    maps the whole buffer with [GL_MAP_WRITE_BIT |
    GL_MAP_INVALIDATE_BUFFER_BIT | GL_MAP_UNSYNCHRONIZED_BIT], stores the
    matrix through the returned pointer, and unmaps it.

    Against the driver model of GLDriver.v this file proves that the
    protocol is the one §4.3 of the spec asks for: the GPU never reads a
    storage the CPU is writing (every queued read sees the contents it
    was submitted against), the CPU never waits for the GPU, and the
    channel refines an ideal one in which each draw sees the last
    uploaded matrix.  The pointer is not checked: when the driver cannot
    allocate fresh storage it returns NULL, and line 101 stores through
    it; the model returns [None] there. *)

From S2P Require Import Prelude Mat4 GLDriver.
From stdpp Require Import gmap.

Open Scope Z_scope.

(** ** Code *)

Definition sizeof_mat4 : Z := 64.

Record ubo_channel := {
  modelViewProjectionUBO : nat;
  modelViewProjectionUBOBindingIndex : nat
}.

(** Lines 58-63 of [init]. *)
Definition init_ubo (st : gl_state) : gl_state * ubo_channel :=
  let '(st, ubo) := glGenBuffers st in
  let st := glBindBuffer st ubo in
  let st := glBufferData st sizeof_mat4 in
  let idx := 0%nat in
  let st := glBindBufferBase st idx ubo in
  (st, {| modelViewProjectionUBO := ubo; modelViewProjectionUBOBindingIndex := idx |}).

(** The access flags of line 99. *)
Definition upload_access : Z :=
  Z.lor (Z.lor GL_MAP_WRITE_BIT GL_MAP_INVALIDATE_BUFFER_BIT) GL_MAP_UNSYNCHRONIZED_BIT.

(** Lines 97-103 of [enterFrame]: bind, map, store, unmap.  [None] is a
    store through a NULL pointer. *)
Definition upload_mvp (st : gl_state) (ch : ubo_channel) (mvp : mat4) : option gl_state :=
  let st := glBindBuffer st (modelViewProjectionUBO ch) in
  match glMapBufferRange st 0 sizeof_mat4 upload_access with
  | (_, None) => None
  | (st, Some p) => Some (fst (glUnmapBuffer (gl_store_mat4 st p mvp)))
  end.

(** A draw call of the frame, whose shaders read the matrix from the
    channel's binding point. *)
Definition draw_with (st : gl_state) (ch : ubo_channel) : gl_state :=
  gl_draw st (modelViewProjectionUBOBindingIndex ch).

(** ** The ideal channel

    What §4.3 of the spec promises: the CPU replaces the current matrix,
    a draw captures the current matrix, and the GPU, when it executes a
    queued draw, sees exactly what that draw captured. *)

Inductive uc_event := EUpload (m : mat4) | EDraw | ERetire.

Record ideal := {
  id_current : option mat4;
  id_queue : list (option mat4);
  id_log : list (option mat4 * option mat4)
}.

Definition ideal_step (s : ideal) (e : uc_event) : ideal :=
  match e with
  | EUpload m => {| id_current := Some m; id_queue := id_queue s; id_log := id_log s |}
  | EDraw => {| id_current := id_current s; id_queue := id_queue s ++ [id_current s];
                id_log := id_log s |}
  | ERetire =>
      match id_queue s with
      | [] => s
      | x :: q => {| id_current := id_current s; id_queue := q; id_log := (x, x) :: id_log s |}
      end
  end.

(** The same events on the driver: an upload by the code of
    [enterFrame], a draw reading the channel's binding point, the GPU
    retiring its oldest queued read (nothing when idle). *)
Definition uc_step (ch : ubo_channel) (st : gl_state) (e : uc_event) : option gl_state :=
  match e with
  | EUpload m => upload_mvp st ch m
  | EDraw => Some (draw_with st ch)
  | ERetire => match gpu_retire st with Some st' => Some st' | None => Some st end
  end.

Fixpoint uc_run (ch : ubo_channel) (st : gl_state) (evs : list uc_event) : option gl_state :=
  match evs with
  | [] => Some st
  | e :: evs => match uc_step ch st e with
                | Some st' => uc_run ch st' evs
                | None => None
                end
  end.

Definition ideal_run (s : ideal) (evs : list uc_event) : ideal := fold_left ideal_step evs s.

(** ** Simulation relation *)

Record uc_rel (ch : ubo_channel) (cur : nat) (st : gl_state) (s : ideal) : Prop := {
  rel_name : (0 < modelViewProjectionUBO ch < gl_next_name st)%nat;
  rel_buffers : gl_buffers st =
    {[modelViewProjectionUBO ch := {| buf_storage := Some cur; buf_size := sizeof_mat4;
                                      buf_mapped := None |}]};
  rel_slot : gl_ubo_slots st !! modelViewProjectionUBOBindingIndex ch =
             Some (modelViewProjectionUBO ch);
  rel_current : gl_store st !! cur = Some (id_current s);
  rel_cur_lt : (cur < gl_next_storage st)%nat;
  rel_pending : Forall (fun r => gl_store st !! rd_storage r = Some (rd_expected r) /\
                                 (rd_storage r < gl_next_storage st)%nat) (gl_pending st);
  rel_queue : map rd_expected (gl_pending st) = id_queue s;
  rel_log : gl_observed st = id_log s;
  rel_error : gl_last_error st = None;
  rel_live : forall k, is_Some (gl_store st !! k) ->
             k = cur \/ exists r, In r (gl_pending st) /\ rd_storage r = k
}.

(** ** Simulation *)

Lemma upload_access_ok sid :
  map_range_error {| buf_storage := sid; buf_size := sizeof_mat4; buf_mapped := None |}
    0 sizeof_mat4 upload_access = None.
Proof. reflexivity. Qed.

Lemma upload_access_invalidates : has_bit upload_access GL_MAP_INVALIDATE_BUFFER_BIT = true.
Proof. reflexivity. Qed.

Ltac rel_fields :=
  constructor; cbn [gl_next_name gl_buffers gl_store gl_next_storage gl_ubo_slots
                    gl_pending gl_observed gl_last_error modelViewProjectionUBO
                    modelViewProjectionUBOBindingIndex id_current id_queue id_log].

Lemma upload_mvp_rel ch cur st s m :
  uc_rel ch cur st s -> (size (gl_store st) < gl_capacity st)%nat ->
  exists st', upload_mvp st ch m = Some st' /\
              uc_rel ch (gl_next_storage st) st' (ideal_step s (EUpload m)) /\
              gl_stalls st' = gl_stalls st /\ gl_capacity st' = gl_capacity st.
Proof.
  intros [Hname Hbuf Hslot Hcur Hlt Hpend Hq Hlog Herr Hlive] Hcap.
  destruct st as [nn bufs sto nsto cap bnd slots pend obs stl err]; simpl in *.
  destruct ch as [ubo idx]; simpl in *.
  pose proof (f_equal (lookup ubo) Hbuf) as Hl. rewrite lookup_singleton_eq in Hl.
  apply Nat.ltb_lt in Hcap.
  assert (E0 : Nat.eqb ubo 0 = false) by (apply Nat.eqb_neq; lia).
  assert (E1 : Nat.leb nn ubo = false) by (apply Nat.leb_gt; lia).
  unfold upload_mvp, glBindBuffer, glMapBufferRange, bound_buffer, alloc_storage,
    update_bound, set_binding, set_buffers, gl_store_mat4, set_store, glUnmapBuffer.
  gl_simpl. rewrite E0, E1, Hl. gl_simpl.
  rewrite E0, Hl. gl_simpl.
  rewrite upload_access_ok, upload_access_invalidates, Hcap. gl_simpl.
  rewrite release_storage_eq. unfold set_store. gl_simpl.
  destruct (storage_in_use _ cur) eqn:Euse.
  all: unfold bound_buffer, update_bound, set_buffers; gl_simpl.
  all: rewrite E0, lookup_insert_eq; gl_simpl; rewrite insert_insert_eq.
  all: eexists; split; [reflexivity|]; split; [|split; reflexivity].
  all: rel_fields; try assumption; try lia.
  all: try (rewrite Hbuf, insert_singleton_eq; reflexivity).
  all: try (apply lookup_insert_eq).
  (* the storage of a queued read is neither the fresh one nor, when it
     is freed, the old one; every live storage is the current one or
     queued *)
  all: first
    [ intros k Hk; destruct (decide (k = nsto)) as [->|Hne]; [left; reflexivity | right];
      rewrite lookup_insert_ne in Hk by congruence
    | apply List.Forall_forall; intros r Hr; rewrite List.Forall_forall in Hpend;
      destruct (Hpend r Hr) as [Hs Hr']; split; [|lia];
      rewrite lookup_insert_ne by lia ].
  - rewrite lookup_insert_ne by lia. exact Hs.
  - rewrite lookup_insert_ne in Hk by congruence.
    destruct (Hlive k Hk) as [->|Hr]; [|exact Hr].
    unfold storage_in_use in Euse. cbn [gl_pending gl_buffers] in Euse.
    rewrite Hbuf, insert_singleton_eq, map_to_list_singleton in Euse. cbn in Euse.
    apply orb_true_iff in Euse as [Euse|Euse].
    + apply existsb_exists in Euse as (r & Hr & Hrk). apply Nat.eqb_eq in Hrk. eauto.
    + apply orb_true_iff in Euse as [Euse|]; [apply Nat.eqb_eq in Euse; lia | discriminate].
  - rewrite lookup_delete_ne.
    + rewrite lookup_insert_ne by lia. exact Hs.
    + intros Heq. rewrite Heq in Euse.
      erewrite storage_in_use_pending in Euse; [discriminate | exact Hr].
  - destruct (decide (k = cur)) as [->|Hk'].
    + rewrite lookup_delete_eq in Hk. destruct Hk as [? Hk]; discriminate.
    + rewrite lookup_delete_ne, lookup_insert_ne in Hk by congruence.
      destruct (Hlive k Hk) as [->|Hr]; [congruence | exact Hr].
Qed.

Lemma draw_with_rel ch cur st s :
  uc_rel ch cur st s ->
  uc_rel ch cur (draw_with st ch) (ideal_step s EDraw) /\
  gl_stalls (draw_with st ch) = gl_stalls st /\
  gl_capacity (draw_with st ch) = gl_capacity st.
Proof.
  intros [Hname Hbuf Hslot Hcur Hlt Hpend Hq Hlog Herr Hlive].
  destruct st as [nn bufs sto nsto cap bnd slots pend obs stl err]; simpl in *.
  destruct ch as [ubo idx]; simpl in *.
  pose proof (f_equal (lookup ubo) Hbuf) as Hl. rewrite lookup_singleton_eq in Hl.
  unfold draw_with, gl_draw. gl_simpl. rewrite Hslot, Hl. gl_simpl.
  split; [|split; reflexivity]. rel_fields; try assumption.
  - apply Forall_app. split; [exact Hpend|]. constructor; [|constructor].
    cbn. rewrite Hcur. split; [reflexivity | exact Hlt].
  - rewrite map_app, Hq, Hcur. reflexivity.
  - intros k Hk. destruct (Hlive k Hk) as [->|(r & Hr & Hrk)]; [left; reflexivity|].
    right. exists r. split; [apply in_or_app; left; exact Hr | exact Hrk].
Qed.

Lemma retire_rel ch cur st s :
  uc_rel ch cur st s ->
  exists st', uc_step ch st ERetire = Some st' /\
              uc_rel ch cur st' (ideal_step s ERetire) /\
              gl_stalls st' = gl_stalls st /\ gl_capacity st' = gl_capacity st.
Proof.
  intros Hrel. pose proof Hrel as [Hname Hbuf Hslot Hcur Hlt Hpend Hq Hlog Herr Hlive].
  unfold uc_step, gpu_retire, ideal_step.
  destruct (gl_pending st) as [|r rest] eqn:Ep.
  { rewrite <- Hq. eexists; split; [reflexivity | split; [exact Hrel | split; reflexivity]]. }
  inversion Hpend as [|? ? [Hs Hr'] Hrest]; subst.
  rewrite <- Hq. cbn [map].
  pose proof (f_equal (lookup (modelViewProjectionUBO ch)) Hbuf) as Hl.
  rewrite lookup_singleton_eq in Hl.
  set (st1 := {| gl_next_name := _ |}).
  (* a storage still referred to survives the release *)
  assert (Hkeep : forall k, (k <> rd_storage r \/ storage_in_use st1 (rd_storage r) = true) ->
                  gl_store (release_storage st1 (rd_storage r)) !! k = gl_store st !! k)
    by (intros k Hk; apply (lookup_release st1 _ k Hk)).
  pose proof (release_storage_fields st1 (rd_storage r))
    as (F1 & F2 & F3 & F4 & F5 & F6 & F7 & F8 & F9).
  eexists; split; [reflexivity|]. split; [|rewrite F7, F9; split; reflexivity].
  assert (Hin : forall r', In r' rest -> storage_in_use st1 (rd_storage r') = true)
    by (intros r' Hr; apply (storage_in_use_pending st1), Hr).
  assert (Hcur_in : storage_in_use st1 cur = true)
    by (apply (storage_in_use_buffer st1 _ _ cur Hl); reflexivity).
  rel_fields; rewrite ?F1, ?F2, ?F3, ?F4, ?F5, ?F6, ?F8; try assumption; try reflexivity.
  - rewrite Hkeep; [exact Hcur|].
    destruct (decide (cur = rd_storage r)) as [<-|]; [right; exact Hcur_in | left; assumption].
  - apply List.Forall_forall; intros r' Hr'in.
    rewrite List.Forall_forall in Hrest. destruct (Hrest r' Hr'in) as [Hs' Hlt'].
    split; [|exact Hlt'].
    rewrite Hkeep; [exact Hs'|].
    destruct (decide (rd_storage r' = rd_storage r)) as [E|]; [|left; assumption].
    right. rewrite <- E. apply Hin, Hr'in.
  - cbn. rewrite Hs. cbn. rewrite Hlog. reflexivity.
  - intros k Hk. destruct (decide (k = rd_storage r)) as [->|Hne].
    + unfold release_storage in Hk.
      destruct (storage_in_use st1 (rd_storage r)) eqn:Euse.
      * apply orb_true_iff in Euse as [Euse|Euse].
        -- apply existsb_exists in Euse as (r' & Hin' & E). apply Nat.eqb_eq in E. eauto.
        -- unfold st1 in Euse; cbn [gl_buffers] in Euse.
           rewrite Hbuf, map_to_list_singleton in Euse. cbn in Euse.
           apply orb_true_iff in Euse as [E|]; [apply Nat.eqb_eq in E; left; congruence | discriminate].
      * cbn in Hk. rewrite lookup_delete_eq in Hk. destruct Hk as [? Hk]; discriminate.
    + rewrite Hkeep in Hk by (left; exact Hne).
      destruct (Hlive k Hk) as [->|(r' & [<-|Hin'] & E)]; [left; reflexivity | congruence | eauto].
Qed.

(** Without room for fresh storage the map fails and the code stores
    through NULL. *)
Lemma upload_mvp_oom ch cur st s m :
  uc_rel ch cur st s -> (gl_capacity st <= size (gl_store st))%nat ->
  upload_mvp st ch m = None.
Proof.
  intros [Hname Hbuf Hslot Hcur Hlt Hpend Hq Hlog Herr Hlive] Hcap.
  destruct st as [nn bufs sto nsto cap bnd slots pend obs stl err]; simpl in *.
  destruct ch as [ubo idx]; simpl in *.
  pose proof (f_equal (lookup ubo) Hbuf) as Hl. rewrite lookup_singleton_eq in Hl.
  assert (E0 : Nat.eqb ubo 0 = false) by (apply Nat.eqb_neq; lia).
  assert (E1 : Nat.leb nn ubo = false) by (apply Nat.leb_gt; lia).
  assert (E2 : Nat.ltb (size sto) cap = false) by (apply Nat.ltb_ge; lia).
  unfold upload_mvp, glBindBuffer, glMapBufferRange, bound_buffer, alloc_storage,
    set_binding, set_buffers.
  gl_simpl. rewrite E0, E1, Hl. gl_simpl. rewrite E0, Hl. gl_simpl.
  rewrite upload_access_ok, upload_access_invalidates, E2. reflexivity.
Qed.

Lemma uc_step_rel ch cur st s e st' :
  uc_rel ch cur st s -> uc_step ch st e = Some st' ->
  exists cur', uc_rel ch cur' st' (ideal_step s e) /\
               gl_stalls st' = gl_stalls st /\ gl_capacity st' = gl_capacity st.
Proof.
  intros Hrel Hstep. destruct e as [m| |].
  - destruct (Nat.lt_ge_cases (size (gl_store st)) (gl_capacity st)) as [Hc|Hc].
    + destruct (upload_mvp_rel ch cur st s m Hrel Hc) as (st1 & E & Hrel1 & Hs1 & Hc1).
      simpl in Hstep. rewrite E in Hstep. injection Hstep as <-. eauto.
    + simpl in Hstep. rewrite (upload_mvp_oom ch cur st s m Hrel Hc) in Hstep. discriminate.
  - injection Hstep as <-. destruct (draw_with_rel ch cur st s Hrel) as (? & ? & ?). eauto.
  - destruct (retire_rel ch cur st s Hrel) as (st1 & E & Hrel1 & Hs1 & Hc1).
    rewrite E in Hstep. injection Hstep as <-. eauto.
Qed.

Lemma uc_run_rel ch cur st s evs st' :
  uc_rel ch cur st s -> uc_run ch st evs = Some st' ->
  exists cur', uc_rel ch cur' st' (ideal_run s evs) /\
               gl_stalls st' = gl_stalls st /\ gl_capacity st' = gl_capacity st.
Proof.
  revert cur st s. induction evs as [|e evs IH]; intros cur st s Hrel Hrun; simpl in Hrun.
  - injection Hrun as <-. eauto.
  - destruct (uc_step ch st e) as [st1|] eqn:E; [|discriminate].
    destruct (uc_step_rel ch cur st s e st1 Hrel E) as (cur1 & Hrel1 & Hs1 & Hc1).
    destruct (IH cur1 st1 (ideal_step s e) Hrel1 Hrun) as (cur2 & Hrel2 & Hs2 & Hc2).
    exists cur2. split; [exact Hrel2 | split; congruence].
Qed.

(** The ideal channel only ever logs a read next to itself. *)
Lemma ideal_run_diag s evs :
  Forall (fun o => fst o = snd o) (id_log s) ->
  Forall (fun o => fst o = snd o) (id_log (ideal_run s evs)).
Proof.
  unfold ideal_run. revert s. induction evs as [|[m| |] evs IH]; intros s Hs; simpl; auto.
  apply IH. destruct (id_queue s); simpl; auto.
Qed.

Lemma uc_rel_pending_length ch cur st s :
  uc_rel ch cur st s -> length (gl_pending st) = length (id_queue s).
Proof. intros Hrel. rewrite <- (rel_queue _ _ _ _ Hrel), length_map. reflexivity. Qed.

(** At most one live storage beyond those of the queued reads. *)
Lemma size_list_to_set_le (l : list nat) : (size (list_to_set l : gset nat) <= length l)%nat.
Proof.
  induction l as [|x l IH]; [cbn [list_to_set length]; rewrite size_empty; lia|].
  cbn [list_to_set length].
  rewrite size_union_alt, size_singleton.
  pose proof (subseteq_size (list_to_set l ∖ {[x]} : gset nat) (list_to_set l)
                ltac:(set_solver)). lia.
Qed.

Lemma uc_rel_store_bound ch cur st s :
  uc_rel ch cur st s -> (size (gl_store st) <= 1 + length (gl_pending st))%nat.
Proof.
  intros Hrel. rewrite <- size_dom.
  assert (Hsub : dom (gl_store st) ⊆
                 {[cur]} ∪ (list_to_set (map rd_storage (gl_pending st)) : gset nat)).
  { intros k Hk. apply elem_of_dom in Hk.
    destruct (rel_live _ _ _ _ Hrel k Hk) as [->|(r & Hr & <-)]; [set_solver|].
    apply elem_of_union_r, elem_of_list_to_set, list_elem_of_In, in_map, Hr. }
  pose proof (subseteq_size _ _ Hsub) as H1.
  rewrite size_union_alt, size_singleton in H1.
  pose proof (subseteq_size (list_to_set (map rd_storage (gl_pending st)) ∖ {[cur]} : gset nat)
                (list_to_set (map rd_storage (gl_pending st))) ltac:(set_solver)).
  pose proof (size_list_to_set_le (map rd_storage (gl_pending st))).
  rewrite length_map in *. lia.
Qed.

(** ** From [init] *)

Definition ideal_init : ideal := {| id_current := None; id_queue := []; id_log := [] |}.

(** [init] leaves one 64-byte buffer with undefined contents bound at
    binding point 0, nothing queued, no error. *)
Lemma init_ubo_rel cap :
  (1 <= cap)%nat ->
  uc_rel (snd (init_ubo (gl_initial cap))) 0 (fst (init_ubo (gl_initial cap))) ideal_init /\
  gl_stalls (fst (init_ubo (gl_initial cap))) = 0%nat.
Proof.
  intros Hcap. destruct cap as [|cap]; [lia|].
  split; [|reflexivity].
  constructor; try (vm_compute; reflexivity).
  - vm_compute. lia.
  - vm_compute. constructor.
  - intros k Hk. left.
    assert (E : gl_store (fst (init_ubo (gl_initial (S cap)))) = {[0%nat := None]})
      by (vm_compute; reflexivity).
    rewrite E in Hk. destruct (decide (k = 0%nat)) as [->|Hne]; [reflexivity|].
    rewrite lookup_singleton_ne in Hk by congruence. destruct Hk as [? Hk]. discriminate.
Qed.

Lemma uc_run_from_init cap evs st' :
  (1 <= cap)%nat ->
  uc_run (snd (init_ubo (gl_initial cap))) (fst (init_ubo (gl_initial cap))) evs = Some st' ->
  exists cur, uc_rel (snd (init_ubo (gl_initial cap))) cur st' (ideal_run ideal_init evs) /\
              gl_stalls st' = 0%nat /\ gl_capacity st' = cap.
Proof.
  intros Hcap Hrun. destruct (init_ubo_rel cap Hcap) as [Hrel Hs].
  destruct (uc_run_rel _ _ _ _ evs st' Hrel Hrun) as (cur & Hrel' & Hs' & Hc').
  exists cur. split; [exact Hrel' | split; [congruence|]].
  rewrite Hc'. destruct cap; reflexivity.
Qed.

(** ** The GPU catching up *)

Lemma uc_run_retires ch st k : exists st', uc_run ch st (repeat ERetire k) = Some st'.
Proof.
  revert st. induction k as [|k IH]; intros st; [eexists; reflexivity|].
  simpl. destruct (gpu_retire st) as [st1|]; apply IH.
Qed.

Lemma ideal_retires s k :
  id_queue (ideal_run s (repeat ERetire k)) = skipn k (id_queue s) /\
  length (id_log (ideal_run s (repeat ERetire k))) =
    (length (id_log s) + Nat.min k (length (id_queue s)))%nat.
Proof.
  revert s. induction k as [|k IH]; intros s; [simpl; split; [reflexivity | lia]|].
  unfold ideal_run in *. cbn [repeat fold_left]. destruct (id_queue s) as [|x q] eqn:Eq.
  - destruct (IH s) as [IH1 IH2]. rewrite Eq in *. simpl in *.
    cbn [ideal_step]. rewrite Eq. split; [rewrite IH1; destruct k; reflexivity | lia].
  - cbn [ideal_step]. rewrite Eq. destruct (IH {| id_current := id_current s; id_queue := q;
      id_log := (x, x) :: id_log s |}) as [IH1 IH2]. rewrite IH1, IH2. simpl. split; [reflexivity | lia].
Qed.

(** Retiring the whole queue logs its last entry last. *)
Lemma ideal_retire_last s q x :
  id_queue s = q ++ [x] ->
  hd_error (id_log (ideal_run s (repeat ERetire (length (id_queue s))))) = Some (x, x).
Proof.
  revert s. induction q as [|y q IH]; intros s Hq; rewrite Hq; unfold ideal_run.
  - cbn [app length repeat fold_left ideal_step]. rewrite Hq. reflexivity.
  - cbn [app length repeat fold_left ideal_step]. rewrite Hq.
    cbn [app].
    apply (IH {| id_current := id_current s; id_queue := q ++ [x]; id_log := (y, y) :: id_log s |}).
    reflexivity.
Qed.

Lemma ideal_upload_draw s evs m :
  id_queue (ideal_run s (evs ++ [EUpload m; EDraw])) =
  id_queue (ideal_run s evs) ++ [Some m].
Proof. unfold ideal_run. rewrite fold_left_app. reflexivity. Qed.

(** With nothing queued, the only live storage is the buffer's. *)
Lemma uc_rel_idle_store ch cur st s :
  uc_rel ch cur st s -> gl_pending st = [] -> gl_store st = {[cur := id_current s]}.
Proof.
  intros Hrel Hp. apply map_eq. intros k. destruct (decide (k = cur)) as [->|Hk].
  - rewrite lookup_singleton_eq. apply (rel_current _ _ _ _ Hrel).
  - rewrite lookup_singleton_ne by congruence.
    destruct (gl_store st !! k) eqn:E; [|reflexivity].
    destruct (rel_live _ _ _ _ Hrel k ltac:(rewrite E; eauto)) as [->|(r & Hr & _)];
      [congruence | rewrite Hp in Hr; destruct Hr].
Qed.

(** ** The channel's guarantees *)

(** C2: after [init], any interleaving of per-frame uploads, draw calls
    and GPU progress that the driver completes is observed by the GPU
    exactly as by the ideal channel of §4.3: the log of what the GPU read
    is the ideal channel's log. *)
Theorem upload_refines_ideal cap evs st' :
  (1 <= cap)%nat ->
  uc_run (snd (init_ubo (gl_initial cap))) (fst (init_ubo (gl_initial cap))) evs = Some st' ->
  gl_observed st' = id_log (ideal_run ideal_init evs).
Proof.
  intros Hcap Hrun. destruct (uc_run_from_init cap evs st' Hcap Hrun) as (cur & Hrel & _ & _).
  apply (rel_log _ _ _ _ Hrel).
Qed.

(** C1: no torn frame: every read the GPU performs of the uniform
    buffer sees the matrix the draw was submitted with, although the
    next frame's upload may run while that draw is still queued. *)
Theorem gpu_reads_consistent cap evs st' :
  (1 <= cap)%nat ->
  uc_run (snd (init_ubo (gl_initial cap))) (fst (init_ubo (gl_initial cap))) evs = Some st' ->
  Forall (fun o => fst o = snd o) (gl_observed st').
Proof.
  intros Hcap Hrun. destruct (uc_run_from_init cap evs st' Hcap Hrun) as (cur & Hrel & _ & _).
  rewrite (rel_log _ _ _ _ Hrel). apply ideal_run_diag. constructor.
Qed.

(** C4: the CPU never waits for the GPU: no upload synchronises. *)
Theorem upload_never_stalls cap evs st' :
  (1 <= cap)%nat ->
  uc_run (snd (init_ubo (gl_initial cap))) (fst (init_ubo (gl_initial cap))) evs = Some st' ->
  gl_stalls st' = 0%nat.
Proof.
  intros Hcap Hrun. destruct (uc_run_from_init cap evs st' Hcap Hrun) as (cur & _ & Hs & _).
  exact Hs.
Qed.

(** C24: orphaning costs at most one storage per queued read beyond the
    current one. *)
Theorem orphaned_storage_bound cap evs st' :
  (1 <= cap)%nat ->
  uc_run (snd (init_ubo (gl_initial cap))) (fst (init_ubo (gl_initial cap))) evs = Some st' ->
  (size (gl_store st') <= 1 + length (gl_pending st'))%nat.
Proof.
  intros Hcap Hrun. destruct (uc_run_from_init cap evs st' Hcap Hrun) as (cur & Hrel & _ & _).
  exact (uc_rel_store_bound _ _ _ _ Hrel).
Qed.

(** C23: the next upload succeeds whenever the driver has room for one
    storage more than the queued reads need. *)
Theorem upload_succeeds cap evs st' m :
  (1 <= cap)%nat ->
  uc_run (snd (init_ubo (gl_initial cap))) (fst (init_ubo (gl_initial cap))) evs = Some st' ->
  (1 + length (gl_pending st') < cap)%nat ->
  exists st'', upload_mvp st' (snd (init_ubo (gl_initial cap))) m = Some st''.
Proof.
  intros Hcap Hrun Hroom.
  destruct (uc_run_from_init cap evs st' Hcap Hrun) as (cur & Hrel & _ & Hc).
  pose proof (uc_rel_store_bound _ _ _ _ Hrel).
  destruct (upload_mvp_rel _ _ _ _ m Hrel ltac:(lia)) as (st'' & E & _). eauto.
Qed.

(** C22: when the GPU is so far behind that every storage the driver
    can allocate is still queued, [glMapBufferRange] returns NULL and
    line 101 stores the matrix through it: the code has no check. *)
Theorem upload_null_store cap evs st' m :
  (1 <= cap)%nat ->
  uc_run (snd (init_ubo (gl_initial cap))) (fst (init_ubo (gl_initial cap))) evs = Some st' ->
  (cap <= size (gl_store st'))%nat ->
  upload_mvp st' (snd (init_ubo (gl_initial cap))) m = None.
Proof.
  intros Hcap Hrun Hfull.
  destruct (uc_run_from_init cap evs st' Hcap Hrun) as (cur & Hrel & _ & Hc).
  apply (upload_mvp_oom _ _ _ _ m Hrel). lia.
Qed.

(** C21: liveness of the GPU side: from any state a run reaches, once
    the GPU retires the reads still queued, every one of them has been
    observed and all orphaned storage is freed: one storage, the
    buffer's, is left. *)
Theorem gpu_catches_up cap evs st' :
  (1 <= cap)%nat ->
  uc_run (snd (init_ubo (gl_initial cap))) (fst (init_ubo (gl_initial cap))) evs = Some st' ->
  exists st'', uc_run (snd (init_ubo (gl_initial cap))) st'
                 (repeat ERetire (length (gl_pending st'))) = Some st'' /\
    gl_pending st'' = [] /\
    length (gl_observed st'') = (length (gl_observed st') + length (gl_pending st'))%nat /\
    exists cur m, gl_store st'' = {[cur := m]}.
Proof.
  intros Hcap Hrun. destruct (uc_run_from_init cap evs st' Hcap Hrun) as (cur & Hrel & _ & _).
  set (k := length (gl_pending st')).
  destruct (uc_run_retires (snd (init_ubo (gl_initial cap))) st' k) as (st'' & Hk).
  destruct (uc_run_rel _ _ _ _ _ _ Hrel Hk) as (cur' & Hrel' & _ & _).
  destruct (ideal_retires (ideal_run ideal_init evs) k) as [Hq Hl].
  assert (Hp : gl_pending st'' = []).
  { apply length_zero_iff_nil. rewrite (uc_rel_pending_length _ _ _ _ Hrel'), Hq, length_skipn.
    subst k. rewrite (uc_rel_pending_length _ _ _ _ Hrel). lia. }
  exists st''. split; [exact Hk|]. split; [exact Hp|]. split.
  - rewrite (rel_log _ _ _ _ Hrel'), Hl, <- (rel_log _ _ _ _ Hrel).
    subst k. rewrite (uc_rel_pending_length _ _ _ _ Hrel). lia.
  - exists cur', (id_current (ideal_run (ideal_run ideal_init evs) (repeat ERetire k))).
    exact (uc_rel_idle_store _ _ _ _ Hrel' Hp).
Qed.

(** C8: round trip through the mapped pointer: the matrix a frame
    stores through [glMapBufferRange]'s pointer is the one the frame's
    next draw reads on the GPU, however many frames are still queued
    when it is stored. *)
Theorem upload_read_roundtrip cap evs m st' :
  (1 <= cap)%nat ->
  uc_run (snd (init_ubo (gl_initial cap))) (fst (init_ubo (gl_initial cap)))
    (evs ++ [EUpload m; EDraw]) = Some st' ->
  exists st'', uc_run (snd (init_ubo (gl_initial cap))) st'
                 (repeat ERetire (length (gl_pending st'))) = Some st'' /\
    hd_error (gl_observed st'') = Some (Some m, Some m).
Proof.
  intros Hcap Hrun. destruct (uc_run_from_init cap _ st' Hcap Hrun) as (cur & Hrel & _ & _).
  destruct (uc_run_retires (snd (init_ubo (gl_initial cap))) st' (length (gl_pending st')))
    as (st'' & Hk).
  destruct (uc_run_rel _ _ _ _ _ _ Hrel Hk) as (cur' & Hrel' & _ & _).
  exists st''. split; [exact Hk|]. rewrite (rel_log _ _ _ _ Hrel').
  rewrite (uc_rel_pending_length _ _ _ _ Hrel).
  apply ideal_retire_last with (q := id_queue (ideal_run ideal_init evs)).
  apply ideal_upload_draw.
Qed.

(** ** Witnesses *)

(** Two frames in flight: upload, draw, upload, draw, then the GPU
    catches up. *)
Definition two_frames : list uc_event :=
  [EUpload (mat4_diag 1); EDraw; EUpload (mat4_diag 2); EDraw; ERetire; ERetire].

Lemma upload_refines_ideal_witness :
  exists st', uc_run (snd (init_ubo (gl_initial 4))) (fst (init_ubo (gl_initial 4))) two_frames
              = Some st' /\
  gl_observed st' = id_log (ideal_run ideal_init two_frames).
Proof.
  eexists. split; [vm_compute; reflexivity|].
  apply (upload_refines_ideal 4 two_frames); [lia | vm_compute; reflexivity].
Defined.

Lemma gpu_reads_consistent_witness :
  exists st', uc_run (snd (init_ubo (gl_initial 4))) (fst (init_ubo (gl_initial 4))) two_frames
              = Some st' /\
  Forall (fun o => fst o = snd o) (gl_observed st').
Proof.
  eexists. split; [vm_compute; reflexivity|].
  apply (gpu_reads_consistent 4 two_frames); [lia | vm_compute; reflexivity].
Defined.

Lemma upload_never_stalls_witness :
  exists st', uc_run (snd (init_ubo (gl_initial 4))) (fst (init_ubo (gl_initial 4))) two_frames
              = Some st' /\ gl_stalls st' = 0%nat.
Proof.
  eexists. split; [vm_compute; reflexivity|].
  apply (upload_never_stalls 4 two_frames); [lia | vm_compute; reflexivity].
Defined.

(** Two draws still queued, three storages live at most. *)
Definition frames_in_flight : list uc_event :=
  [EUpload (mat4_diag 1); EDraw; EUpload (mat4_diag 2); EDraw].

Lemma orphaned_storage_bound_witness :
  exists st', uc_run (snd (init_ubo (gl_initial 4))) (fst (init_ubo (gl_initial 4)))
                frames_in_flight = Some st' /\
  (size (gl_store st') <= 1 + length (gl_pending st'))%nat.
Proof.
  eexists. split; [vm_compute; reflexivity|].
  apply (orphaned_storage_bound 4 frames_in_flight); [lia | vm_compute; reflexivity].
Defined.

Lemma upload_succeeds_witness :
  exists st', uc_run (snd (init_ubo (gl_initial 4))) (fst (init_ubo (gl_initial 4)))
                frames_in_flight = Some st' /\
  (1 + length (gl_pending st') < 4)%nat /\
  exists st'', upload_mvp st' (snd (init_ubo (gl_initial 4))) (mat4_diag 3) = Some st''.
Proof.
  eexists. split; [vm_compute; reflexivity|]. split; [vm_compute; lia|].
  apply (upload_succeeds 4 frames_in_flight); [lia | vm_compute; reflexivity | vm_compute; lia].
Defined.

(** With room for two storages, the third frame's map fails. *)
Lemma upload_null_store_witness :
  exists st', uc_run (snd (init_ubo (gl_initial 2))) (fst (init_ubo (gl_initial 2)))
                frames_in_flight = Some st' /\
  (2 <= size (gl_store st'))%nat /\
  upload_mvp st' (snd (init_ubo (gl_initial 2))) (mat4_diag 3) = None.
Proof.
  eexists. split; [vm_compute; reflexivity|]. split; [vm_compute; lia|].
  apply (upload_null_store 2 frames_in_flight); [lia | vm_compute; reflexivity | vm_compute; lia].
Defined.

Lemma gpu_catches_up_witness :
  exists st', uc_run (snd (init_ubo (gl_initial 4))) (fst (init_ubo (gl_initial 4)))
                frames_in_flight = Some st' /\
  exists st'', uc_run (snd (init_ubo (gl_initial 4))) st'
                 (repeat ERetire (length (gl_pending st'))) = Some st'' /\
    gl_pending st'' = [] /\
    length (gl_observed st'') = (length (gl_observed st') + length (gl_pending st'))%nat /\
    exists cur m, gl_store st'' = {[cur := m]}.
Proof.
  eexists. split; [vm_compute; reflexivity|].
  apply (gpu_catches_up 4 frames_in_flight); [lia | vm_compute; reflexivity].
Defined.

Lemma upload_read_roundtrip_witness :
  exists st', uc_run (snd (init_ubo (gl_initial 4))) (fst (init_ubo (gl_initial 4)))
                (frames_in_flight ++ [EUpload (mat4_diag 3); EDraw]) = Some st' /\
  exists st'', uc_run (snd (init_ubo (gl_initial 4))) st'
                 (repeat ERetire (length (gl_pending st'))) = Some st'' /\
    hd_error (gl_observed st'') = Some (Some (mat4_diag 3), Some (mat4_diag 3)).
Proof.
  eexists. split; [vm_compute; reflexivity|].
  apply (upload_read_roundtrip 4 frames_in_flight); [lia | vm_compute; reflexivity].
Defined.
