(* ===== verification/Compositor.v ===== *)
(** * Compositor: the transparency stage and the per-pixel pipeline

    [Transparency] (Transparency.h, not part of the sources) is modelled
    from §4.4 of the spec: a phase machine [Idle -> Accepting-Draws ->
    Idle] driven by [prepareTransparency] and [finalizeTransparency],
    render targets sized by [reshapeTransparency], which rejects a
    non-positive size without touching anything, and weighted blended
    order-independent transparency: translucent fragments add
    [w * alpha * colour] and [w * alpha] to an accumulation target and
    multiply a revealage target by [1 - alpha]; [finalize] divides and
    composites over the opaque image.  The weight [w] is any function of
    depth and alpha (a Section variable): the theorems hold for all.

    What main.cpp itself fixes is modelled from its lines: the clear
    values of [enterFrame] (colour (0,0,0,1), depth 1.0, stencil 0) and
    the depth test of [init] (GL_DEPTH_TEST with GL_LEQUAL and depth
    writes on).  One pixel is modelled; pixels do not interact. *)

From S2P Require Import Prelude.

Open Scope Q_scope.

(** ** Colours and fragments *)

Record rgb := RGB { cr : Q; cg : Q; cb : Q }.

Definition rgb_eq (a b : rgb) : Prop := cr a == cr b /\ cg a == cg b /\ cb a == cb b.

Definition rgb_add (a b : rgb) : rgb := RGB (cr a + cr b) (cg a + cg b) (cb a + cb b).
Definition rgb_scale (s : Q) (a : rgb) : rgb := RGB (s * cr a) (s * cg a) (s * cb a).

Definition black : rgb := RGB 0 0 0.

(** What the mesh library's draw calls produce at one pixel. *)
Inductive fragment :=
| Opaque (depth : Q) (color : rgb)
| Translucent (depth : Q) (color : rgb) (alpha : Q).

(** ** The GL state main.cpp sets *)

(** [glClearColor(0,0,0,1)], [glClearDepth(1.0f)], [glClearStencil(0)]
    and [glClear] of all three buffers (lines 89-92). *)
Record pixel := {
  px_depth : Q;
  px_color : rgb;
  px_stencil : Z;
  px_accum : rgb;
  px_weight : Q;
  px_reveal : Q
}.

(** The pixel [prepareTransparency] starts a frame from: the values
    the frame's clear writes (lines 89-92) in the framebuffer's fields,
    and the empty accumulation that [prepare] establishes (§4.4: "fresh
    clear state"), no weight and full revealage. *)
Definition clear_pixel : pixel := {|
  px_depth := 1; px_color := black; px_stencil := 0%Z;
  px_accum := black; px_weight := 0; px_reveal := 1
|}.

(** [glEnable(GL_DEPTH_TEST); glDepthFunc(GL_LEQUAL)] (lines 53-55): a
    fragment passes when its depth is at most the stored one. *)
Definition depth_test (frag_depth stored : Q) : bool := Qle_bool frag_depth stored.

(** Depth writes are on ([glDepthMask(GL_TRUE)], line 54) for the opaque
    pass: a passing fragment replaces depth and colour. *)
Definition opaque_step (p : pixel) (f : fragment) : pixel :=
  match f with
  | Opaque d c =>
      if depth_test d (px_depth p)
      then {| px_depth := d; px_color := c; px_stencil := px_stencil p;
              px_accum := px_accum p; px_weight := px_weight p; px_reveal := px_reveal p |}
      else p
  | Translucent _ _ _ => p
  end.

Section Blending.

(** The accumulation weight of a translucent fragment. *)
Variable oit_weight : Q -> Q -> Q.

(** The translucent pass: depth-tested against the opaque depth, no
    depth write, additive accumulation and multiplicative revealage. *)
Definition translucent_step (p : pixel) (f : fragment) : pixel :=
  match f with
  | Translucent d c a =>
      if depth_test d (px_depth p)
      then let wa := oit_weight d a * a in
           {| px_depth := px_depth p; px_color := px_color p; px_stencil := px_stencil p;
              px_accum := rgb_add (px_accum p) (rgb_scale wa c);
              px_weight := px_weight p + wa;
              px_reveal := px_reveal p * (1 - a) |}
      else p
  | Opaque _ _ => p
  end.

Definition is_opaque (f : fragment) : bool :=
  match f with Opaque _ _ => true | Translucent _ _ _ => false end.

(** The pixel after the frame's draws.  The compositor separates
    opaque and translucent geometry into distinct passes (§1, §2: "a
    multi-pass sequence that separates opaque rasterization from
    translucent accumulation"), and the mesh library routes each piece
    to its pass (§6): the opaque fragments are resolved first, in
    submission order, and the translucent ones are tested against the
    opaque depth that results. *)
Definition render_pixel (frags : list fragment) : pixel :=
  let p := fold_left opaque_step (filter is_opaque frags) clear_pixel in
  fold_left translucent_step (filter (fun f => negb (is_opaque f)) frags) p.

(** [finalizeTransparency]'s resolve: the weighted average of the
    translucent colours over the opaque colour, by revealage. *)
Definition composite (p : pixel) : rgb :=
  if Qeq_bool (px_weight p) 0 then px_color p
  else rgb_add (rgb_scale ((1 - px_reveal p) / px_weight p) (px_accum p))
               (rgb_scale (px_reveal p) (px_color p)).

End Blending.

(** ** The transparency object *)

(** The phases of §4.4; [Preparing] and [Finalizing] are passed through
    within one call. *)
Inductive phase := Idle | Preparing | AcceptingDraws | Finalizing.

Inductive phase_step : phase -> phase -> Prop :=
| ps_prepare : phase_step Idle Preparing
| ps_accept : phase_step Preparing AcceptingDraws
| ps_finalize : phase_step AcceptingDraws Finalizing
| ps_done : phase_step Finalizing Idle.

Inductive tp_error := ENotIdle | EBadSize | EOutOfMemory | ENoTargets | ESizeMismatch
                    | ENotAccepting.

Record transparency := {
  tp_phase : phase;
  tp_targets : option (Z * Z);
  tp_allocs : nat;
  tp_frees : nat;
  (** the most pixels the GPU can hold targets for *)
  tp_budget : Z;
  tp_pixel : pixel
}.

Definition phase_eqb (a b : phase) : bool :=
  match a, b with
  | Idle, Idle | Preparing, Preparing | AcceptingDraws, AcceptingDraws
  | Finalizing, Finalizing => true
  | _, _ => false
  end.

Definition initTransparency (budget : Z) : transparency := {|
  tp_phase := Idle; tp_targets := None; tp_allocs := 0; tp_frees := 0;
  tp_budget := budget; tp_pixel := clear_pixel
|}.

(** Release the old targets and allocate new ones, or fail with nothing
    changed: a non-positive size is a precondition failure, a size past
    the budget an allocation failure. *)
Definition reshapeTransparency (t : transparency) (w h : Z) : tp_error + transparency :=
  if negb (phase_eqb (tp_phase t) Idle) then inl ENotIdle
  else if (w <=? 0)%Z || (h <=? 0)%Z then inl EBadSize
  else if (tp_budget t <? w * h)%Z then inl EOutOfMemory
  else inr {| tp_phase := Idle; tp_targets := Some (w, h); tp_allocs := S (tp_allocs t);
              tp_frees := match tp_targets t with Some _ => S (tp_frees t) | None => tp_frees t end;
              tp_budget := tp_budget t; tp_pixel := tp_pixel t |}.

(** Bind and clear the targets for a frame of the given size. *)
Definition prepareTransparency (t : transparency) (w h : Z) : tp_error + transparency :=
  if negb (phase_eqb (tp_phase t) Idle) then inl ENotIdle
  else match tp_targets t with
       | None => inl ENoTargets
       | Some (tw, th) =>
           if (tw =? w)%Z && (th =? h)%Z
           then inr {| tp_phase := AcceptingDraws; tp_targets := tp_targets t;
                       tp_allocs := tp_allocs t; tp_frees := tp_frees t;
                       tp_budget := tp_budget t; tp_pixel := clear_pixel |}
           else inl ESizeMismatch
       end.

(** The mesh library's draws of the frame, routed to the bound targets. *)
Definition accept_draws (w : Q -> Q -> Q) (t : transparency) (frags : list fragment)
  : tp_error + transparency :=
  if negb (phase_eqb (tp_phase t) AcceptingDraws) then inl ENotAccepting
  else inr {| tp_phase := AcceptingDraws; tp_targets := tp_targets t;
              tp_allocs := tp_allocs t; tp_frees := tp_frees t;
              tp_budget := tp_budget t; tp_pixel := render_pixel w frags |}.

(** Resolve to the visible framebuffer and return to [Idle]. *)
Definition finalizeTransparency (w : Q -> Q -> Q) (t : transparency)
  : tp_error + (transparency * rgb) :=
  if negb (phase_eqb (tp_phase t) AcceptingDraws) then inl ENotAccepting
  else inr ({| tp_phase := Idle; tp_targets := tp_targets t;
               tp_allocs := tp_allocs t; tp_frees := tp_frees t;
               tp_budget := tp_budget t; tp_pixel := tp_pixel t |},
            composite (tp_pixel t)).

(** Render targets currently held. *)
Definition live_targets (t : transparency) : nat := tp_allocs t - tp_frees t.

(** ** Equality up to [Qeq] *)

Definition pixel_eq (a b : pixel) : Prop :=
  px_depth a == px_depth b /\ rgb_eq (px_color a) (px_color b) /\
  px_stencil a = px_stencil b /\ rgb_eq (px_accum a) (px_accum b) /\
  px_weight a == px_weight b /\ px_reveal a == px_reveal b.

(** Split a [pixel_eq] goal into its six fields. *)
Ltac pixel_split := split; [|split; [|split; [|split; [|split]]]].

#[export] Instance rgb_eq_equiv : Equivalence rgb_eq.
Proof.
  split.
  - intros a. repeat split; reflexivity.
  - intros a b (H1 & H2 & H3). repeat split; symmetry; assumption.
  - intros a b c (H1 & H2 & H3) (G1 & G2 & G3). repeat split; etransitivity; eassumption.
Qed.

#[export] Instance pixel_eq_equiv : Equivalence pixel_eq.
Proof.
  split.
  - intros a. pixel_split; reflexivity.
  - intros a b (H1 & H2 & H3 & H4 & H5 & H6). pixel_split; symmetry; assumption.
  - intros a b c (H1 & H2 & H3 & H4 & H5 & H6) (G1 & G2 & G3 & G4 & G5 & G6).
    pixel_split; etransitivity; eassumption.
Qed.

#[export] Instance rgb_add_proper : Proper (rgb_eq ==> rgb_eq ==> rgb_eq) rgb_add.
Proof.
  intros a a' (H1 & H2 & H3) b b' (G1 & G2 & G3). unfold rgb_add.
  repeat split; simpl; apply Qplus_comp; assumption.
Qed.

#[export] Instance rgb_scale_proper : Proper (Qeq ==> rgb_eq ==> rgb_eq) rgb_scale.
Proof.
  intros s s' Hs a a' (H1 & H2 & H3). unfold rgb_scale.
  repeat split; simpl; apply Qmult_comp; assumption.
Qed.

#[export] Instance depth_test_proper : Proper (Qeq ==> Qeq ==> eq) depth_test.
Proof.
  intros a a' Ha b b' Hb. unfold depth_test.
  apply eq_true_iff_eq. rewrite !Qle_bool_iff, Ha, Hb. reflexivity.
Qed.

#[export] Instance composite_proper : Proper (pixel_eq ==> rgb_eq) composite.
Proof.
  intros a b (H1 & H2 & H3 & H4 & H5 & H6). unfold composite.
  replace (Qeq_bool (px_weight b) 0) with (Qeq_bool (px_weight a) 0)
    by (apply eq_true_iff_eq; rewrite !Qeq_bool_iff, H5; reflexivity).
  destruct (Qeq_bool (px_weight a) 0); [exact H2|].
  rewrite H2, H4, H5, H6. reflexivity.
Qed.

(** ** The translucent pass commutes *)

Lemma translucent_step_proper w f a b :
  pixel_eq a b -> pixel_eq (translucent_step w a f) (translucent_step w b f).
Proof.
  intros Hab. pose proof Hab as (H1 & H2 & H3 & H4 & H5 & H6).
  destruct f as [d c | d c al]; simpl; [exact Hab|].
  rewrite H1. destruct (depth_test d (px_depth b)); [|exact Hab].
  pixel_split; simpl; try assumption.
  - rewrite H4. reflexivity.
  - rewrite H5. reflexivity.
  - rewrite H6. reflexivity.
Qed.

Lemma translucent_step_comm w p f1 f2 :
  pixel_eq (translucent_step w (translucent_step w p f1) f2)
           (translucent_step w (translucent_step w p f2) f1).
Proof.
  destruct f1 as [d1 c1 | d1 c1 a1], f2 as [d2 c2 | d2 c2 a2]; simpl; try reflexivity.
  destruct (depth_test d1 (px_depth p)) eqn:E1, (depth_test d2 (px_depth p)) eqn:E2;
    simpl; rewrite ?E1, ?E2; simpl; try reflexivity.
  unfold rgb_add, rgb_scale.
  pixel_split; simpl; try reflexivity; try (split; [|split]); simpl; ring.
Qed.

Lemma translucent_pass_perm w l1 l2 p1 p2 :
  Permutation l1 l2 -> pixel_eq p1 p2 ->
  pixel_eq (fold_left (translucent_step w) l1 p1) (fold_left (translucent_step w) l2 p2).
Proof.
  apply (fold_left_perm_R pixel_eq (translucent_step w)).
  - intros f a b. apply translucent_step_proper.
  - apply translucent_step_comm.
Qed.

(** ** The opaque pass keeps the nearest depth *)

Definition same_depth (a b : pixel) : Prop := px_depth a == px_depth b.

#[export] Instance same_depth_equiv : Equivalence same_depth.
Proof.
  unfold same_depth. split.
  - intros a. reflexivity.
  - intros a b H. symmetry. exact H.
  - intros a b c H1 H2. etransitivity; eassumption.
Qed.

Lemma opaque_step_depth_proper f a b :
  same_depth a b -> same_depth (opaque_step a f) (opaque_step b f).
Proof.
  unfold same_depth. intros H. destruct f as [d c | d c al]; simpl; [|exact H].
  rewrite H. destruct (depth_test d (px_depth b)); simpl; [reflexivity | exact H].
Qed.

Lemma opaque_step_depth_comm p f1 f2 :
  same_depth (opaque_step (opaque_step p f1) f2) (opaque_step (opaque_step p f2) f1).
Proof.
  unfold same_depth.
  destruct f1 as [d1 c1 | d1 c1 a1], f2 as [d2 c2 | d2 c2 a2]; simpl; try reflexivity.
  unfold depth_test.
  destruct (Qle_bool d1 (px_depth p)) eqn:E1, (Qle_bool d2 (px_depth p)) eqn:E2;
    simpl; rewrite ?E1, ?E2; simpl;
    repeat match goal with
           | |- context [Qle_bool ?x ?y] => destruct (Qle_bool x y) eqn:?; simpl
           end;
    repeat match goal with
           | H : Qle_bool _ _ = true |- _ => apply Qle_bool_iff in H
           | H : Qle_bool _ _ = false |- _ =>
               apply Bool.not_true_iff_false in H; rewrite Qle_bool_iff in H
           end;
    try reflexivity; lra.
Qed.

Lemma translucent_fold_depth w l p :
  px_depth (fold_left (translucent_step w) l p) = px_depth p.
Proof.
  revert p. induction l as [|[d c | d c a] l IH]; intros p; simpl; [reflexivity | apply IH |].
  rewrite IH. destruct (depth_test d (px_depth p)); reflexivity.
Qed.

(** ** Compositor theorems *)

(** C5: order independence of the translucent pass (§4.4, §8): two
    submissions of the same fragments whose opaque geometry comes in the
    same order resolve to the same colour, however the translucent
    fragments are ordered or interleaved. *)
Theorem translucent_order_independent w f1 f2 :
  Permutation f1 f2 -> filter is_opaque f1 = filter is_opaque f2 ->
  rgb_eq (composite (render_pixel w f1)) (composite (render_pixel w f2)).
Proof.
  intros Hp Ho. unfold render_pixel. rewrite Ho.
  apply composite_proper, translucent_pass_perm; [|reflexivity].
  apply Permutation_filter, Hp.
Qed.

(** C31: the [GL_LEQUAL] test keeps the nearest opaque depth, whatever
    the submission order. *)
Theorem opaque_depth_order_independent w f1 f2 :
  Permutation f1 f2 -> px_depth (render_pixel w f1) == px_depth (render_pixel w f2).
Proof.
  intros Hp. unfold render_pixel. rewrite !translucent_fold_depth.
  apply (fold_left_perm_R same_depth opaque_step);
    [apply opaque_step_depth_proper | apply opaque_step_depth_comm
    | apply Permutation_filter, Hp | reflexivity].
Qed.

(** C32: with [GL_LEQUAL] an opaque fragment at exactly the stored
    depth replaces the colour, so between two opaque surfaces at the
    same depth the one submitted last is seen: opaque ties are order
    dependent, which §4.4 leaves unspecified. *)
Theorem opaque_tie_last_wins w d c1 c2 :
  d <= 1 ->
  px_color (render_pixel w [Opaque d c1; Opaque d c2]) = c2 /\
  px_color (render_pixel w [Opaque d c2; Opaque d c1]) = c1.
Proof.
  intros Hd. unfold render_pixel. cbn -[depth_test].
  assert (E1 : depth_test d 1 = true) by (apply Qle_bool_iff, Hd).
  assert (E2 : depth_test d d = true) by (apply Qle_bool_iff; lra).
  rewrite E1. cbn -[depth_test]. rewrite E2. split; reflexivity.
Qed.

(** C30: a translucent fragment behind the opaque surface does not
    change the pixel at all. *)
Theorem occluded_translucent_invisible w frags d c a :
  px_depth (render_pixel w frags) < d ->
  render_pixel w (frags ++ [Translucent d c a]) = render_pixel w frags.
Proof.
  intros Hd. unfold render_pixel in *. rewrite translucent_fold_depth in Hd.
  rewrite !filter_app. simpl. rewrite app_nil_r, fold_left_app. simpl.
  rewrite translucent_fold_depth. unfold depth_test.
  destruct (Qle_bool d _) eqn:E; [apply Qle_bool_iff in E; lra | reflexivity].
Qed.

(** ** Witnesses *)

Definition unit_weight : Q -> Q -> Q := fun _ _ => 1.
Definition rgb_red : rgb := RGB 1 0 0.
Definition rgb_green : rgb := RGB 0 1 0.
Definition rgb_blue : rgb := RGB 0 0 1.

Lemma translucent_order_independent_witness :
  let f1 := [Opaque (1 # 2) rgb_red; Translucent (1 # 4) rgb_green (1 # 2);
             Translucent (1 # 3) rgb_blue (1 # 4)] in
  let f2 := [Translucent (1 # 3) rgb_blue (1 # 4); Opaque (1 # 2) rgb_red;
             Translucent (1 # 4) rgb_green (1 # 2)] in
  Permutation f1 f2 /\ filter is_opaque f1 = filter is_opaque f2 /\
  rgb_eq (composite (render_pixel unit_weight f1)) (composite (render_pixel unit_weight f2)).
Proof.
  intros f1 f2.
  assert (Hp : Permutation f1 f2)
    by exact (Permutation_sym (Permutation_cons_append
                [Opaque (1 # 2) rgb_red; Translucent (1 # 4) rgb_green (1 # 2)]
                (Translucent (1 # 3) rgb_blue (1 # 4)))).
  refine (conj Hp (conj _ (translucent_order_independent unit_weight f1 f2 Hp _)));
    reflexivity.
Defined.

Lemma opaque_depth_order_independent_witness :
  let f1 := [Opaque (1 # 2) rgb_red; Opaque (1 # 4) rgb_green; Translucent (1 # 8) rgb_blue (1 # 2)] in
  let f2 := [Translucent (1 # 8) rgb_blue (1 # 2); Opaque (1 # 4) rgb_green; Opaque (1 # 2) rgb_red] in
  Permutation f1 f2 /\
  px_depth (render_pixel unit_weight f1) == px_depth (render_pixel unit_weight f2).
Proof.
  intros f1 f2.
  assert (Hp : Permutation f1 f2).
  { apply (Permutation_trans (l' := [Opaque (1 # 2) rgb_red; Translucent (1 # 8) rgb_blue (1 # 2);
                                     Opaque (1 # 4) rgb_green])).
    - apply perm_skip, perm_swap.
    - apply (Permutation_trans (l' := [Translucent (1 # 8) rgb_blue (1 # 2); Opaque (1 # 2) rgb_red;
                                       Opaque (1 # 4) rgb_green])); [apply perm_swap|].
      apply perm_skip, perm_swap. }
  exact (conj Hp (opaque_depth_order_independent unit_weight f1 f2 Hp)).
Defined.

Lemma opaque_tie_last_wins_witness :
  1 # 2 <= 1 /\
  px_color (render_pixel unit_weight [Opaque (1 # 2) rgb_red; Opaque (1 # 2) rgb_green]) = rgb_green /\
  px_color (render_pixel unit_weight [Opaque (1 # 2) rgb_green; Opaque (1 # 2) rgb_red]) = rgb_red.
Proof.
  refine (conj _ (opaque_tie_last_wins unit_weight (1 # 2) rgb_red rgb_green _));
    vm_compute; discriminate.
Defined.

Lemma occluded_translucent_invisible_witness :
  px_depth (render_pixel unit_weight [Opaque (1 # 2) rgb_red]) < 3 # 4 /\
  render_pixel unit_weight ([Opaque (1 # 2) rgb_red] ++ [Translucent (3 # 4) rgb_green (1 # 2)]) =
  render_pixel unit_weight [Opaque (1 # 2) rgb_red].
Proof.
  refine (conj _ (occluded_translucent_invisible unit_weight [Opaque (1 # 2) rgb_red]
                    (3 # 4) rgb_green (1 # 2) _)); vm_compute; reflexivity.
Defined.
