(* ===== verification/CompositorContract.v ===== *)
(** * CompositorContract: what the transparency object promises main.cpp

    Spec section 4.4 is the contract between main.cpp and its
    [Transparency] object, whose code is not part of the sources.  The
    class [TransparencyOps] names the operations main.cpp calls
    ([reshapeTransparency], [prepareTransparency], the draws of the
    frame, [finalizeTransparency]) and what can be observed of the
    object (its phase, its targets, how many target allocations and
    releases it has made); the class [TransparencyContract] states the
    laws sections 4.4 and 7 give them.  The section [Client] proves, from
    the laws alone, what [resize] and [enterFrame] rely on; Frame.v uses
    these lemmas.  The model of Compositor.v is an instance: its
    operations are [TransparencyOps] and [compositor_contract] discharges
    the laws. *)

From S2P Require Import Prelude Compositor.

Open Scope Z_scope.

(** ** The interface *)

Class TransparencyOps (T : Type) := {
  tc_phase : T -> phase;
  tc_targets : T -> option (Z * Z);
  tc_allocs : T -> nat;
  tc_frees : T -> nat;
  tc_reshape : T -> Z -> Z -> tp_error + T;
  tc_prepare : T -> Z -> Z -> tp_error + T;
  tc_draws : T -> list fragment -> tp_error + T;
  tc_finalize : T -> tp_error + (T * rgb)
}.

(** One set of targets of a positive size is held, or none, and every
    allocation but that one has been released. *)
Definition tc_targets_ok {T} `{TransparencyOps T} (t : T) : Prop :=
  match tc_targets t with
  | None => tc_allocs t = tc_frees t
  | Some (w, h) => tc_allocs t = S (tc_frees t) /\ 0 < w /\ 0 < h
  end.

(** The same targets and the same allocations. *)
Definition tc_same_targets {T} `{TransparencyOps T} (t t' : T) : Prop :=
  tc_targets t' = tc_targets t /\ tc_allocs t' = tc_allocs t /\ tc_frees t' = tc_frees t.

Class TransparencyContract (T : Type) `{TransparencyOps T} : Prop := {
  (** [reshape] rejects a non-positive size (§4.4, §7). *)
  tc_reshape_bad_size : forall t w h, w <= 0 \/ h <= 0 -> exists e, tc_reshape t w h = inl e;
  (** a successful [reshape] happens at [Idle], stays there, holds
      targets of the size asked, and releases the old ones: one
      allocation, no leak. *)
  tc_reshape_ok : forall t w h t', tc_targets_ok t -> tc_reshape t w h = inr t' ->
    tc_phase t = Idle /\ tc_phase t' = Idle /\ tc_targets t' = Some (w, h) /\
    tc_allocs t' = S (tc_allocs t) /\ tc_targets_ok t';
  (** [prepare]: [Idle] to [Accepting-Draws], with targets of the
      frame's size. *)
  tc_prepare_ok : forall t w h t', tc_prepare t w h = inr t' ->
    tc_phase t = Idle /\ tc_targets t = Some (w, h) /\ tc_phase t' = AcceptingDraws /\
    tc_same_targets t t';
  (** the draws stay in [Accepting-Draws]. *)
  tc_draws_ok : forall t fs t', tc_draws t fs = inr t' ->
    tc_phase t = AcceptingDraws /\ tc_phase t' = AcceptingDraws /\ tc_same_targets t t';
  (** [finalize]: [Accepting-Draws] back to [Idle]. *)
  tc_finalize_ok : forall t t' c, tc_finalize t = inr (t', c) ->
    tc_phase t = AcceptingDraws /\ tc_phase t' = Idle /\ tc_same_targets t t';
  (** the colour of a frame does not depend on the order of its
      translucent fragments. *)
  tc_order_independent : forall t f1 f2 t1 t2 u1 u2 c1 c2,
    Permutation f1 f2 -> filter is_opaque f1 = filter is_opaque f2 ->
    tc_draws t f1 = inr t1 -> tc_draws t f2 = inr t2 ->
    tc_finalize t1 = inr (u1, c1) -> tc_finalize t2 = inr (u2, c2) -> rgb_eq c1 c2
}.

(** ** What the caller can rely on *)

Section Client.
Context {T : Type} `{TransparencyContract T}.

Lemma tc_same_targets_ok t t' : tc_same_targets t t' -> tc_targets_ok t -> tc_targets_ok t'.
Proof. intros (E1 & E2 & E3). unfold tc_targets_ok. rewrite E1, E2, E3. auto. Qed.

Lemma tc_same_targets_trans t1 t2 t3 :
  tc_same_targets t1 t2 -> tc_same_targets t2 t3 -> tc_same_targets t1 t3.
Proof. intros (A1 & A2 & A3) (B1 & B2 & B3). repeat split; congruence. Qed.

(** [resize] keeps the object whatever [reshape] answers: the result
    is idle with its targets in order. *)
Lemma tc_reshape_kept t w h :
  tc_targets_ok t -> tc_phase t = Idle ->
  let t' := match tc_reshape t w h with inl _ => t | inr t' => t' end in
  tc_targets_ok t' /\ tc_phase t' = Idle.
Proof.
  intros Ht Hp. cbv zeta. destruct (tc_reshape t w h) as [e|t'] eqn:R; [auto|].
  destruct (tc_reshape_ok t w h t' Ht R) as (_ & Hp' & _ & _ & Ht'). auto.
Qed.

(** A frame that gets through [prepare], the draws and [finalize] ends
    [Idle] with the targets and allocations it started with. *)
Lemma tc_frame t w h fs t1 t2 t3 c :
  tc_prepare t w h = inr t1 -> tc_draws t1 fs = inr t2 -> tc_finalize t2 = inr (t3, c) ->
  tc_same_targets t t3 /\ tc_phase t3 = Idle.
Proof.
  intros P D F.
  destruct (tc_prepare_ok _ _ _ _ P) as (_ & _ & _ & S1).
  destruct (tc_draws_ok _ _ _ D) as (_ & _ & S2).
  destruct (tc_finalize_ok _ _ _ F) as (_ & Hp & S3).
  split; [|exact Hp]. eauto using tc_same_targets_trans.
Qed.
End Client.

(** ** The model of Compositor.v implements the contract *)

#[export] Instance compositor_ops (w : Q -> Q -> Q) : TransparencyOps transparency := {|
  tc_phase := tp_phase; tc_targets := tp_targets; tc_allocs := tp_allocs; tc_frees := tp_frees;
  tc_reshape := reshapeTransparency; tc_prepare := prepareTransparency;
  tc_draws := accept_draws w; tc_finalize := finalizeTransparency w
|}.

Lemma reshape_model_ok t w h t' :
  reshapeTransparency t w h = inr t' ->
  tp_phase t = Idle /\ tp_phase t' = Idle /\ tp_targets t' = Some (w, h) /\
  tp_allocs t' = S (tp_allocs t) /\ 0 < w /\ 0 < h /\
  tp_frees t' = match tp_targets t with Some _ => S (tp_frees t) | None => tp_frees t end.
Proof.
  unfold reshapeTransparency.
  destruct (tp_phase t) eqn:Hp; cbn [phase_eqb negb]; try discriminate.
  destruct ((w <=? 0) || (h <=? 0)) eqn:Ewh; [discriminate|].
  apply orb_false_iff in Ewh as [Ew Eh]. apply Z.leb_gt in Ew, Eh.
  destruct (tp_budget t <? w * h); [discriminate|].
  intros [= <-]. cbn. repeat split; assumption.
Qed.

#[export] Instance compositor_contract (w : Q -> Q -> Q) :
  @TransparencyContract transparency (compositor_ops w).
Proof.
  split; cbn [tc_phase tc_targets tc_allocs tc_frees tc_reshape tc_prepare tc_draws tc_finalize
              compositor_ops].
  - intros t wd ht Hn. unfold reshapeTransparency.
    destruct (negb (phase_eqb (tp_phase t) Idle)); [eexists; reflexivity|].
    replace ((wd <=? 0) || (ht <=? 0)) with true by (symmetry; apply orb_true_iff; lia).
    eexists; reflexivity.
  - intros t wd ht t' Ht R.
    destruct (reshape_model_ok t wd ht t' R) as (Hp & Hp' & Ht' & Ha & Hw & Hh & Hf).
    repeat split; try assumption.
    unfold tc_targets_ok in *. cbn in *. rewrite Ht', Ha, Hf.
    destruct (tp_targets t) as [[]|]; repeat split; try lia; try assumption.
  - intros t wd ht t' P. unfold prepareTransparency in P.
    destruct (tp_phase t); cbn [phase_eqb negb] in P; try discriminate.
    destruct (tp_targets t) as [[tw th]|] eqn:Et; [|discriminate].
    destruct ((tw =? wd) && (th =? ht)) eqn:Es; [|discriminate].
    apply andb_true_iff in Es as [E1 E2]. apply Z.eqb_eq in E1, E2. subst.
    injection P as <-. repeat split; cbn; auto.
  - intros t fs t' D. unfold accept_draws in D.
    destruct (tp_phase t); cbn [phase_eqb negb] in D; try discriminate.
    injection D as <-. repeat split.
  - intros t t' c F. unfold finalizeTransparency in F.
    destruct (tp_phase t); cbn [phase_eqb negb] in F; try discriminate.
    injection F as <- _. repeat split.
  - intros t f1 f2 t1 t2 u1 u2 c1 c2 Hp Ho D1 D2 F1 F2.
    unfold accept_draws, finalizeTransparency in *.
    destruct (tp_phase t); cbn [phase_eqb negb] in D1, D2; try discriminate.
    injection D1 as <-. injection D2 as <-. cbn in F1, F2.
    injection F1 as _ <-. injection F2 as _ <-.
    unfold render_pixel. rewrite Ho.
    apply composite_proper, translucent_pass_perm; [|reflexivity].
    apply Permutation_filter, Hp.
Qed.
