(* ===== verification/Camera.v ===== *)
(** * Camera: the orbit camera behind [Globals::viewMatrix]

    [Camera1stPerson] (Cameras/Camera1stPerson.h, not part of the
    sources) is modelled from §4.1 of the spec: a focus point, a distance
    from it, a yaw and a pitch.  [zoom] moves along the view direction
    and clamps the distance at a positive minimum, [rotate] turns and
    clamps the pitch to [-maxPitch, maxPitch], [pan] moves the focus in
    the camera's local right/up plane (the eye's axes taken back through
    the view rotation) in proportion to the distance, and
    [activate] makes the camera the source of [Globals::viewMatrix].
    The sign of [zoom] follows §8 of the spec: a negative delta brings the
    camera closer.  The view matrix is
    [T(0,0,-d) * Rx(pitch) * Ry(yaw) * T(-focus)] with the [sin] and [cos]
    of the C library (the [CMath] class). *)

From S2P Require Import Prelude Mat4.

Open Scope Q_scope.
Open Scope moc_scope.

Record camera_config := {
  minDistance : Q;
  maxPitch : Q;
  panSpeed : Q
}.

Definition config_wf (cfg : camera_config) : Prop := 0 < minDistance cfg /\ 0 < maxPitch cfg.

Record Camera1stPerson := {
  cam_focus : vec4;
  cam_distance : Q;
  cam_yaw : Q;
  cam_pitch : Q;
  cam_active : bool
}.

Section Camera.
Context `{CMath} (cfg : camera_config).

Definition zoom (c : Camera1stPerson) (delta : Q) : Camera1stPerson :=
  {| cam_focus := cam_focus c;
     cam_distance := Qmax (minDistance cfg) (cam_distance c + delta);
     cam_yaw := cam_yaw c; cam_pitch := cam_pitch c; cam_active := cam_active c |}.

Definition rotate (c : Camera1stPerson) (dYaw dPitch : Q) : Camera1stPerson :=
  {| cam_focus := cam_focus c; cam_distance := cam_distance c;
     cam_yaw := cam_yaw c + dYaw;
     cam_pitch := Qclamp (- maxPitch cfg) (maxPitch cfg) (cam_pitch c + dPitch);
     cam_active := cam_active c |}.

(** The camera's local right and up directions in world space: the
    eye's x and y axes taken back through the view rotation
    [Rx(pitch) * Ry(yaw)], i.e. its rows. *)
Definition cam_right (c : Camera1stPerson) : vec4 :=
  Vec4 (cosf (cam_yaw c)) 0 (sinf (cam_yaw c)) 0.
Definition cam_up (c : Camera1stPerson) : vec4 :=
  Vec4 (sinf (cam_yaw c) * sinf (cam_pitch c)) (cosf (cam_pitch c))
       (- (cosf (cam_yaw c) * sinf (cam_pitch c))) 0.

Definition pan (c : Camera1stPerson) (dx dy : Q) : Camera1stPerson :=
  {| cam_focus := vadd (cam_focus c)
                       (vscale (panSpeed cfg * cam_distance c)
                               (vadd (vscale dx (cam_right c)) (vscale dy (cam_up c))));
     cam_distance := cam_distance c; cam_yaw := cam_yaw c; cam_pitch := cam_pitch c;
     cam_active := cam_active c |}.

Definition activate (c : Camera1stPerson) : Camera1stPerson :=
  {| cam_focus := cam_focus c; cam_distance := cam_distance c; cam_yaw := cam_yaw c;
     cam_pitch := cam_pitch c; cam_active := true |}.

(** ** The view matrix *)

Definition translate (t : vec4) : mat4 :=
  Mat4 (Vec4 1 0 0 0) (Vec4 0 1 0 0) (Vec4 0 0 1 0) (Vec4 (vx t) (vy t) (vz t) 1).

Definition rot_x (a : Q) : mat4 :=
  Mat4 (Vec4 1 0 0 0) (Vec4 0 (cosf a) (sinf a) 0) (Vec4 0 (- sinf a) (cosf a) 0)
       (Vec4 0 0 0 1).

Definition rot_y (a : Q) : mat4 :=
  Mat4 (Vec4 (cosf a) 0 (- sinf a) 0) (Vec4 0 1 0 0) (Vec4 (sinf a) 0 (cosf a) 0)
       (Vec4 0 0 0 1).

Definition view_matrix (c : Camera1stPerson) : mat4 :=
  translate (Vec4 0 0 (- cam_distance c) 1) *m rot_x (cam_pitch c) *m rot_y (cam_yaw c)
    *m translate (vscale (-1) (cam_focus c)).

(** ** Invariant *)

Definition cam_wf (c : Camera1stPerson) : Prop :=
  minDistance cfg <= cam_distance c /\
  - maxPitch cfg <= cam_pitch c <= maxPitch cfg.

(** The camera drives the view matrix and its focus is a point. *)
Definition cam_placed (c : Camera1stPerson) : Prop :=
  cam_active c = true /\ vw (cam_focus c) == 1.

End Camera.

Section CameraLemmas.
Context `{CMath} (cfg : camera_config) (Hcfg : config_wf cfg).

Lemma zoom_wf c d : cam_wf cfg c -> cam_wf cfg (zoom cfg c d).
Proof.
  intros [Hd Hp]. split; [apply Q.le_max_l | exact Hp].
Qed.

Lemma rotate_wf c dy dp : cam_wf cfg c -> cam_wf cfg (rotate cfg c dy dp).
Proof.
  destruct Hcfg as [_ Hm]. intros [Hd Hp]. split; [exact Hd|]. simpl.
  split; [apply Qclamp_lo | apply Qclamp_hi; lra].
Qed.

Lemma pan_wf c dx dy : cam_wf cfg c -> cam_wf cfg (pan cfg c dx dy).
Proof. intros Hc. exact Hc. Qed.

Lemma activate_wf c : cam_wf cfg c -> cam_wf cfg (activate c).
Proof. intros Hc. exact Hc. Qed.

(** Two zooms add up when the second one moves in: the first clamp
    can then not hide part of the second move. *)
Lemma zoom_zoom_in c a b :
  b <= 0 -> cam_distance (zoom cfg (zoom cfg c a) b) == cam_distance (zoom cfg c (a + b)).
Proof. intros Hb. simpl. qminmax_cases; lra. Qed.

Lemma zoom_placed c d : cam_placed c -> cam_placed (zoom cfg c d).
Proof. intros Hc. exact Hc. Qed.

Lemma rotate_placed c dy dp : cam_placed c -> cam_placed (rotate cfg c dy dp).
Proof. intros Hc. exact Hc. Qed.

Lemma pan_placed c dx dy : cam_placed c -> cam_placed (pan cfg c dx dy).
Proof.
  intros [Ha Hw]. split; [exact Ha|]. cbn [pan cam_focus vadd vscale vw cam_right cam_up].
  rewrite Hw. ring.
Qed.

Lemma activate_placed c : vw (cam_focus c) == 1 -> cam_placed (activate c).
Proof. intros Hw. split; [reflexivity | exact Hw]. Qed.

Let origin : vec4 := Vec4 0 0 0 1.

Lemma translate_apply t p :
  translate t *v p ==v Vec4 (vx p + vx t * vw p) (vy p + vy t * vw p) (vz p + vz t * vw p) (vw p).
Proof.
  unfold translate, mat_mul_vec, vadd, vscale. cbn [vx vy vz vw c0 c1 c2 c3].
  vec_split; cbn [vx vy vz vw]; ring.
Qed.

Lemma rot_x_origin a : rot_x a *v origin ==v origin.
Proof.
  unfold rot_x, origin, mat_mul_vec, vadd, vscale. cbn [vx vy vz vw c0 c1 c2 c3].
  vec_split; cbn [vx vy vz vw]; ring.
Qed.

Lemma rot_y_origin a : rot_y a *v origin ==v origin.
Proof.
  unfold rot_y, origin, mat_mul_vec, vadd, vscale. cbn [vx vy vz vw c0 c1 c2 c3].
  vec_split; cbn [vx vy vz vw]; ring.
Qed.

(** The view matrix puts the focus straight ahead, [distance] away. *)
Lemma view_matrix_focus c :
  vw (cam_focus c) == 1 ->
  view_matrix c *v cam_focus c ==v Vec4 0 0 (- cam_distance c) 1.
Proof.
  intros Hw. unfold view_matrix. rewrite !mat_mul_vec_assoc.
  assert (E : translate (vscale (-1) (cam_focus c)) *v cam_focus c ==v origin).
  { rewrite translate_apply. unfold origin, vscale. cbn [vx vy vz vw].
    rewrite Hw. vec_split; cbn [vx vy vz vw]; ring. }
  rewrite E, rot_y_origin, rot_x_origin, translate_apply.
  unfold origin. cbn [vx vy vz vw]. vec_split; cbn [vx vy vz vw]; ring.
Qed.
(** After a pan along the camera's right direction the old focus is
    [panSpeed * distance * dx] to the side of the centre of view, at the
    same depth, when the [sin] and [cos] of the yaw are those of an
    angle. *)
Lemma rot_y_apply a v :
  rot_y a *v v ==v Vec4 (cosf a * vx v + sinf a * vz v) (vy v)
                        (- sinf a * vx v + cosf a * vz v) (vw v).
Proof.
  unfold rot_y, mat_mul_vec, vadd, vscale. cbn [vx vy vz vw c0 c1 c2 c3].
  vec_split; cbn [vx vy vz vw]; ring.
Qed.

Lemma rot_x_apply a v :
  rot_x a *v v ==v Vec4 (vx v) (cosf a * vy v - sinf a * vz v)
                        (sinf a * vy v + cosf a * vz v) (vw v).
Proof.
  unfold rot_x, mat_mul_vec, vadd, vscale. cbn [vx vy vz vw c0 c1 c2 c3].
  vec_split; cbn [vx vy vz vw]; ring.
Qed.

(** After a pan along the camera's right direction the old focus is
    [panSpeed * distance * dx] to the side of the centre of view, at the
    same depth, when the [sin] and [cos] of the yaw are those of an
    angle. *)
Lemma view_pan_focus c dx :
  sinf (cam_yaw c) * sinf (cam_yaw c) + cosf (cam_yaw c) * cosf (cam_yaw c) == 1 ->
  vw (cam_focus c) == 1 ->
  view_matrix (pan cfg c dx 0) *v cam_focus c ==v
  Vec4 (- (panSpeed cfg * cam_distance c * dx)) 0 (- cam_distance c) 1.
Proof.
  intros Hp Hw. unfold view_matrix. rewrite !mat_mul_vec_assoc.
  set (t := panSpeed cfg * cam_distance c * dx).
  assert (E1 : translate (vscale (-1) (cam_focus (pan cfg c dx 0))) *v cam_focus c ==v
               Vec4 (- (t * cosf (cam_yaw c))) 0 (- (t * sinf (cam_yaw c))) 1).
  { rewrite translate_apply. unfold pan, cam_right, cam_up, vadd, vscale, t.
    cbn [cam_focus cam_distance cam_yaw vx vy vz vw]. rewrite Hw.
    vec_split; cbn [vx vy vz vw]; ring. }
  rewrite E1, rot_y_apply, rot_x_apply, translate_apply.
  cbn [pan cam_yaw cam_pitch cam_distance vx vy vz vw].
  vec_split; cbn [vx vy vz vw]; try ring.
  transitivity (- t * (sinf (cam_yaw c) * sinf (cam_yaw c) + cosf (cam_yaw c) * cosf (cam_yaw c)));
    [ring | rewrite Hp; ring].
Qed.
End CameraLemmas.

#[export] Hint Resolve zoom_wf rotate_wf pan_wf activate_wf : moc.
#[export] Hint Resolve zoom_placed rotate_placed pan_placed activate_placed : moc.
