(* ===== verification/Frame.v ===== *)
(** * Frame: main.cpp's globals, [init], [resize] and [enterFrame]

    The file-scope globals of main.cpp and the collaborators they reach
    ([Globals::viewMatrix], the camera, the transparency object, the GL
    context) form one record, [app].  [init], [resize] and [enterFrame]
    are state transformers on it, composed from the components: the
    projection (Projection.v), the fixed-function GL state (GLFixed.v),
    the uniform channel (UniformChannel.v), the compositor (Compositor.v,
    whose contract CompositorContract.v states) and the camera
    (Camera.v).  The calls to
    the external shader state and mesh library, and the other
    collaborators' calls, are recorded in order in [app_trace].  A frame
    whose behaviour C++ leaves undefined (a store through NULL, a
    compositor call out of protocol) returns a [fault].

    The file also holds what one frame preserves: the program invariant
    [app_inv] (kept through the compositor's contract only), the
    progress invariant [ready], the view invariant [view_ok] and the GL
    state invariant [fixed_ok], each shown for [init], [resize] and
    [enterFrame]; the loop of [main] (MainLoop.v) carries them through
    its iterations.  The theorems here are those about [resize] alone: a
    size the compositor rejects breaks the next frame, and a repeated
    size changes nothing but the allocation counts. *)

From S2P Require Import Prelude Mat4 Projection GLDriver GLFixed UniformChannel Compositor CompositorContract Camera.
From stdpp Require Import gmap.

Open Scope Q_scope.
Open Scope moc_scope.

(** ** Collaborators' calls, in the order main.cpp makes them *)

Inductive call :=
| CGlewInit | CShaderInit | CMeshInit | CTransparencyInit
| CViewport (w h : Z) | CClear | CUpload | CShaderPrepare
| CTransparencyPrepare (w h : Z) | CMeshRender | CTransparencyFinalize | CDisplay.

(** ** Environment: what main.cpp does not determine *)

Record env := {
  env_cfg : camera_config;
  env_camera0 : Camera1stPerson;
  env_weight : Q -> Q -> Q;
  (** the mesh library's draw calls per frame and their fragments at the
      modelled pixel *)
  env_draws : nat;
  env_fragments : list fragment;
  env_gl_capacity : nat;
  env_gpu_budget : Z;
  (** the GL context SFML creates for the window *)
  env_gl_context : gl_fixed
}.

(** ** State: the globals of lines 12-28 and what they reach *)

Record app := {
  app_proj : projection;
  app_width : Z;
  app_height : Z;
  app_channel : ubo_channel;
  app_camera : Camera1stPerson;
  app_transparency : transparency;
  app_gl : gl_state;
  app_fixed : gl_fixed;
  app_viewMatrix : mat4;
  app_mvp : mat4;
  app_framebuffer : rgb;
  app_trace : list call
}.

Inductive fault := NullStore | CompositorFault (e : tp_error).

(** ** [init], [resize] and [enterFrame] *)

Section Program.
Context `{CMath} (E : env).

Definition set_camera (a : app) (c : Camera1stPerson) : app :=
  {| app_proj := app_proj a; app_width := app_width a; app_height := app_height a;
     app_channel := app_channel a; app_camera := c;
     app_transparency := app_transparency a; app_gl := app_gl a; app_fixed := app_fixed a;
     (* the active camera is the source of Globals::viewMatrix *)
     app_viewMatrix := if cam_active c then view_matrix c else app_viewMatrix a;
     app_mvp := app_mvp a; app_framebuffer := app_framebuffer a;
     app_trace := app_trace a |}.

(** [init] (lines 31-72): the projection, the culling and depth state,
    the uniform buffer, then the collaborators.  The
    globals [width] and [height] have static storage: zero. *)

Definition init : app :=
  let p := init_projection in
  let '(gl, ch) := init_ubo (gl_initial (env_gl_capacity E)) in
  let c := activate (env_camera0 E) in
  {| app_proj := p; app_width := 0; app_height := 0; app_channel := ch;
     app_camera := c; app_transparency := initTransparency (env_gpu_budget E);
     app_gl := gl; app_fixed := init_fixed (env_gl_context E);
     app_viewMatrix := view_matrix c; app_mvp := mat4_diag 0;
     app_framebuffer := black;
     app_trace := [CGlewInit; CShaderInit; CMeshInit; CTransparencyInit] |}.

(** [resize] (lines 74-85).  The compositor's answer is not looked at:
    on a rejected size its state stays as it was. *)

Definition resize (a : app) (w h : Z) : app :=
  let t := app_transparency a in
  {| app_proj := resize_projection (app_proj a) w h; app_width := w; app_height := h;
     app_channel := app_channel a; app_camera := app_camera a;
     app_transparency := match reshapeTransparency t w h with
                         | inl _ => t
                         | inr t' => t'
                         end;
     app_gl := app_gl a; app_fixed := resize_viewport (app_fixed a) w h;
     app_viewMatrix := app_viewMatrix a; app_mvp := app_mvp a;
     app_framebuffer := app_framebuffer a;
     app_trace := app_trace a ++ [CViewport w h] |}.

(** Globals::meshLibrary.render(): its draw calls, each reading the
    matrix at the channel's binding point. *)

Definition mesh_draws (gl : gl_state) (ch : ubo_channel) (n : nat) : gl_state :=
  Nat.iter n (fun g => draw_with g ch) gl.

(** [enterFrame] (lines 87-111). *)

Definition enterFrame (a : app) : fault + app :=
  (* lines 89-92 *)
  let fx := frame_clear (app_fixed a) in
  (* line 95 *)
  let mvp := projectionMatrix (app_proj a) *m app_viewMatrix a in
  (* lines 96-103 *)
  match upload_mvp (app_gl a) (app_channel a) mvp with
  | None => inl NullStore
  | Some gl =>
      (* lines 106-109 *)
      match prepareTransparency (app_transparency a) (app_width a) (app_height a) with
      | inl e => inl (CompositorFault e)
      | inr t =>
          let gl := mesh_draws gl (app_channel a) (env_draws E) in
          match accept_draws (env_weight E) t (env_fragments E) with
          | inl e => inl (CompositorFault e)
          | inr t =>
              match finalizeTransparency (env_weight E) t with
              | inl e => inl (CompositorFault e)
              | inr (t, color) =>
                  inr {| app_proj := app_proj a; app_width := app_width a;
                         app_height := app_height a; app_channel := app_channel a;
                         app_camera := app_camera a; app_transparency := t; app_gl := gl;
                         app_fixed := fx;
                         app_viewMatrix := app_viewMatrix a; app_mvp := mvp;
                         app_framebuffer := color;
                         app_trace := app_trace a ++
                           [CClear; CUpload; CShaderPrepare;
                            CTransparencyPrepare (app_width a) (app_height a);
                            CMeshRender; CTransparencyFinalize] |}
              end
          end
      end
  end.
End Program.

(** ** The program invariant *)

Section Invariant.
Context `{CMath} (E : env).

(** The compositor holds one set of targets or none, and knows it:
    the contract's [tc_targets_ok] (CompositorContract.v) for the
    model. *)

Definition targets_ok (t : transparency) : Prop :=
  @tc_targets_ok _ (compositor_ops (env_weight E)) t.

Record app_inv (a : app) : Prop := {
  inv_channel : exists cur s, uc_rel (app_channel a) cur (app_gl a) s /\
                              Forall (fun o => fst o = snd o) (id_log s);
  inv_stalls : gl_stalls (app_gl a) = 0%nat;
  inv_capacity : gl_capacity (app_gl a) = env_gl_capacity E;
  inv_phase : tp_phase (app_transparency a) = Idle;
  inv_targets : targets_ok (app_transparency a);
  inv_camera : cam_wf (env_cfg E) (app_camera a)
}.

(** The channel part, carried through a GL step that simulates an
    ideal one. *)

Definition channel_ok (ch : ubo_channel) (gl : gl_state) : Prop :=
  exists cur s, uc_rel ch cur gl s /\ Forall (fun o => fst o = snd o) (id_log s) /\
                gl_stalls gl = 0%nat /\ gl_capacity gl = env_gl_capacity E.

Lemma channel_ok_step ch gl e gl' :
  channel_ok ch gl -> uc_step ch gl e = Some gl' -> channel_ok ch gl'.
Proof.
  intros (cur & s & Hrel & Hd & Hs & Hc) Hstep.
  destruct (uc_step_rel ch cur gl s e gl' Hrel Hstep) as (cur' & Hrel' & Hs' & Hc').
  exists cur', (ideal_step s e). split; [exact Hrel'|]. split; [|split; congruence].
  exact (ideal_run_diag s [e] Hd).
Qed.

Lemma channel_ok_draws ch gl n : channel_ok ch gl -> channel_ok ch (mesh_draws gl ch n).
Proof.
  intros Hok. induction n as [|n IH]; [exact Hok|].
  apply (channel_ok_step ch (mesh_draws gl ch n) EDraw); [exact IH | reflexivity].
Qed.

Lemma app_inv_channel a : app_inv a <-> channel_ok (app_channel a) (app_gl a) /\
  tp_phase (app_transparency a) = Idle /\ targets_ok (app_transparency a) /\
  cam_wf (env_cfg E) (app_camera a).
Proof.
  split.
  - intros [(cur & s & Hrel & Hd) Hs Hc Hp Ht Hcam].
    split; [exists cur, s; auto | auto].
  - intros ((cur & s & Hrel & Hd & Hs & Hc) & Hp & Ht & Hcam).
    constructor; eauto.
Qed.
End Invariant.

Section Preservation.
Context `{CMath} (E : env) (Hcfg : config_wf (env_cfg E)).

(** [resize] and [enterFrame] rely on the compositor's contract only:
    its laws keep the targets in order. *)

Lemma resize_inv a w h : app_inv E a -> app_inv E (resize a w h).
Proof.
  rewrite !app_inv_channel. intros (Hch & Hp & Ht & Hcam).
  destruct (@tc_reshape_kept _ _ (compositor_contract (env_weight E)) _ w h Ht Hp).
  simpl. auto.
Qed.

Lemma enterFrame_inv a a' : app_inv E a -> enterFrame E a = inr a' -> app_inv E a'.
Proof.
  rewrite !app_inv_channel. intros (Hch & Hp & Ht & Hcam) Hf. unfold enterFrame in Hf.
  destruct (upload_mvp _ _ _) as [gl|] eqn:U; [|discriminate].
  destruct (prepareTransparency _ _ _) as [|t1] eqn:P; [discriminate|].
  destruct (accept_draws _ _ _) as [|t2] eqn:A; [discriminate|].
  destruct (finalizeTransparency _ _) as [|[t3 c]] eqn:F; [discriminate|].
  injection Hf as <-. simpl.
  destruct (@tc_frame _ _ (compositor_contract (env_weight E)) _ _ _ _ _ _ _ _ P A F)
    as [Hsame Hidle].
  split; [|split; [exact Hidle | split; [eapply tc_same_targets_ok; eauto | exact Hcam]]].
  apply channel_ok_draws. eapply (channel_ok_step E _ _ (EUpload _)); [exact Hch | exact U].
Qed.

Lemma set_camera_inv a c :
  app_inv E a -> cam_wf (env_cfg E) c -> app_inv E (set_camera a c).
Proof. rewrite !app_inv_channel. intros (Hch & Hp & Ht & _) Hc. simpl. auto. Qed.

Lemma init_inv :
  (1 <= env_gl_capacity E)%nat -> cam_wf (env_cfg E) (env_camera0 E) -> app_inv E (init E).
Proof.
  intros Hcap Hcam. destruct (init_ubo_rel (env_gl_capacity E) Hcap) as [Hrel Hs].
  assert (Hc : gl_capacity (fst (init_ubo (gl_initial (env_gl_capacity E)))) = env_gl_capacity E)
    by (destruct (env_gl_capacity E); [lia | reflexivity]).
  unfold init. destruct (init_ubo (gl_initial (env_gl_capacity E))) as [gl ch].
  simpl in *. constructor; simpl; auto with moc.
  - exists 0%nat, ideal_init. split; [exact Hrel | constructor].
  - reflexivity.
Qed.
End Preservation.

(** ** Progress: frames that do not fault

    A frame does not fault when the driver has room for two storages,
    no read is still queued, and the compositor is idle with targets of
    the window's size.  [ready k a]: the channel simulates the ideal
    one, at most [k] reads are queued, and the compositor is idle with
    targets of the window's size. *)

Definition size_ok (E : env) (w h : Z) : Prop :=
  (0 < w)%Z /\ (0 < h)%Z /\ (w * h <= env_gpu_budget E)%Z.

Record ready (E : env) (k : nat) (a : app) : Prop := {
  rdy_channel : exists cur s, uc_rel (app_channel a) cur (app_gl a) s;
  rdy_capacity : gl_capacity (app_gl a) = env_gl_capacity E;
  rdy_queue : (length (gl_pending (app_gl a)) <= k)%nat;
  rdy_phase : tp_phase (app_transparency a) = Idle;
  rdy_targets : tp_targets (app_transparency a) = Some (app_width a, app_height a);
  rdy_budget : tp_budget (app_transparency a) = env_gpu_budget E
}.

Lemma mesh_draws_rel ch cur gl s n :
  uc_rel ch cur gl s ->
  exists s', uc_rel ch cur (mesh_draws gl ch n) s' /\
             length (id_queue s') = (length (id_queue s) + n)%nat /\
             gl_capacity (mesh_draws gl ch n) = gl_capacity gl.
Proof.
  intros Hrel. induction n as [|n (s1 & Hr1 & Hq1 & Hc1)]; [exists s; rewrite Nat.add_0_r; auto|].
  destruct (draw_with_rel _ _ _ _ Hr1) as (Hr2 & _ & Hc2).
  exists (ideal_step s1 EDraw). split; [exact Hr2|]. cbn [ideal_step id_queue].
  rewrite length_app, Hq1. simpl. split; [lia | cbn [mesh_draws Nat.iter]; congruence].
Qed.

Section Progress.
Context `{CMath} (E : env).

Lemma resize_ready k a w h : ready E k a -> size_ok E w h -> ready E k (resize a w h).
Proof.
  intros [Hch Hc Hq Hp Ht Hb] (Hw & Hh & Hwh).
  unfold resize, reshapeTransparency. rewrite Hp, Hb.
  replace ((w <=? 0)%Z || (h <=? 0)%Z) with false by (symmetry; apply orb_false_iff; lia).
  replace (env_gpu_budget E <? w * h)%Z with false by (symmetry; apply Z.ltb_ge; lia).
  constructor; cbn [app_channel app_gl app_transparency app_width app_height tp_phase
                    tp_targets tp_budget phase_eqb negb]; auto.
Qed.

(** From an empty queue a frame succeeds and queues its draws. *)

Lemma enterFrame_ready a :
  ready E 0 a -> (2 <= env_gl_capacity E)%nat ->
  exists a', enterFrame E a = inr a' /\ ready E (env_draws E) a'.
Proof.
  intros [(cur & s & Hrel) Hc Hq Hp Ht Hb] Hcap.
  pose proof (uc_rel_store_bound _ _ _ _ Hrel) as Hsz.
  destruct (upload_mvp_rel _ _ _ _ (projectionMatrix (app_proj a) *m app_viewMatrix a) Hrel
              ltac:(lia)) as (gl1 & U & Hrel1 & _ & Hc1).
  destruct (mesh_draws_rel _ _ _ _ (env_draws E) Hrel1) as (s2 & Hrel2 & Hq2 & Hc2).
  unfold enterFrame. rewrite U. unfold prepareTransparency. rewrite Hp, Ht.
  rewrite !Z.eqb_refl. cbn [andb negb phase_eqb accept_draws finalizeTransparency
                            tp_phase].
  eexists. split; [reflexivity|].
  constructor; cbn [app_channel app_gl app_transparency app_width app_height tp_phase
                    tp_targets tp_budget]; eauto.
  - congruence.
  - rewrite (uc_rel_pending_length _ _ _ _ Hrel2), Hq2.
    cbn [ideal_step id_queue]. rewrite <- (uc_rel_pending_length _ _ _ _ Hrel). lia.
Qed.

Lemma ready_set_camera k a c : ready E k a -> ready E k (set_camera a c).
Proof. intros []; constructor; assumption. Qed.

Lemma init_ready :
  (1 <= env_gl_capacity E)%nat -> size_ok E 800 800 ->
  ready E (env_draws E) (resize (init E) 800 800).
Proof.
  intros Hcap (_ & _ & Hwh). destruct (init_ubo_rel (env_gl_capacity E) Hcap) as [Hrel _].
  assert (Hc : gl_capacity (fst (init_ubo (gl_initial (env_gl_capacity E)))) = env_gl_capacity E)
    by (destruct (env_gl_capacity E); [lia | reflexivity]).
  pose proof (uc_rel_pending_length _ _ _ _ Hrel) as Hq.
  unfold resize, init. destruct (init_ubo (gl_initial (env_gl_capacity E))) as [gl ch].
  cbn [fst snd] in *. unfold reshapeTransparency, initTransparency. simpl.
  replace (env_gpu_budget E <? 800 * 800)%Z with false by (symmetry; apply Z.ltb_ge; lia).
  constructor; simpl; eauto. rewrite Hq. simpl. lia.
Qed.
End Progress.

(** ** The view of the camera's focus

    [ready] and [app_inv] concern the GPU side; [view_ok] concerns what
    the uploaded matrix shows: [Globals::viewMatrix] is the active
    camera's, the focus is a point, and the projection has the shape and
    the depth rows [init] gave it. *)

Lemma enterFrame_inr `{CMath} E a a' :
  enterFrame E a = inr a' ->
  app_proj a' = app_proj a /\ app_camera a' = app_camera a /\
  app_viewMatrix a' = app_viewMatrix a /\
  app_mvp a' = projectionMatrix (app_proj a) *m app_viewMatrix a /\
  app_trace a' = app_trace a ++ [CClear; CUpload; CShaderPrepare;
                                 CTransparencyPrepare (app_width a) (app_height a);
                                 CMeshRender; CTransparencyFinalize] /\
  app_width a' = app_width a /\ app_height a' = app_height a /\
  app_fixed a' = frame_clear (app_fixed a).
Proof.
  unfold enterFrame. intros Hf.
  destruct (upload_mvp _ _ _); [|discriminate].
  destruct (prepareTransparency _ _ _); [discriminate|].
  destruct (accept_draws _ _ _); [discriminate|].
  destruct (finalizeTransparency _ _) as [|[]]; [discriminate|].
  injection Hf as <-. repeat split.
Qed.

Lemma projection_matrix_depth_rows fs1 fs2 n f :
  depth_rows_eq (projection_matrix fs1 n f) (projection_matrix fs2 n f).
Proof. repeat split; reflexivity. Qed.

Section View.
Context `{CMath} (E : env).

Record view_ok (a : app) : Prop := {
  vo_view : app_viewMatrix a = view_matrix (app_camera a);
  vo_camera : cam_placed (app_camera a);
  vo_shape : perspective (projectionMatrix (app_proj a));
  vo_depth : depth_rows_eq (projectionMatrix (app_proj a)) (projection_matrix 1 (1 # 10) 1000)
}.

Lemma set_camera_view a c : view_ok a -> cam_placed c -> view_ok (set_camera a c).
Proof.
  intros [] Hc. pose proof Hc as [Ha _].
  constructor; cbn [set_camera app_viewMatrix app_camera app_proj]; auto.
  rewrite Ha. reflexivity.
Qed.

Lemma resize_view a w h : view_ok a -> view_ok (resize a w h).
Proof.
  intros []. constructor; cbn [resize app_viewMatrix app_camera app_proj]; auto using resize_perspective.
Qed.

(** The frame's matrix sends the focus where the projection sends the
    point [d] units straight ahead. *)

Lemma frame_focus_clip a a' :
  view_ok a -> enterFrame E a = inr a' ->
  app_mvp a' *v cam_focus (app_camera a) ==v
  projectionMatrix (app_proj a) *v eye_point 0 0 (cam_distance (app_camera a)).
Proof.
  intros [Hv [_ Hw] _ _] Ef. destruct (enterFrame_inr E _ _ Ef) as (_ & _ & _ & -> & _).
  rewrite mat_mul_vec_assoc, Hv, view_matrix_focus by exact Hw. reflexivity.
Qed.
End View.

(** ** The fixed-function state

    [init]'s culling and depth state (lines 49-56) is never changed
    again; the viewport is the one [glViewport] accepted for the current
    [width] and [height] whenever they are not negative (a negative size
    is refused with [GL_INVALID_VALUE]); and the projection is the one
    [resize] computed for them. *)

Section Fixed.
Context `{CMath} (E : env).

Record fixed_ok (a : app) : Prop := {
  fx_face : glf_face (app_fixed a) = init_face;
  fx_depth : glf_depth (app_fixed a) = init_depth;
  fx_limits : glf_limits (app_fixed a) = glf_limits (env_gl_context E);
  fx_viewport : (0 <= app_width a)%Z -> (0 <= app_height a)%Z ->
    glf_viewport (app_fixed a) =
    viewport_for (glf_limits (env_gl_context E)) (app_width a) (app_height a);
  fx_proj : app_proj a = resize_projection init_projection (app_width a) (app_height a)
}.

Lemma resize_fixed a w h : fixed_ok a -> fixed_ok (resize a w h).
Proof.
  intros [Hf Hd Hl Hv Hp].
  destruct (resize_viewport_keeps (app_fixed a) w h) as (Kf & Kd & Kl).
  constructor; cbn [resize app_fixed app_width app_height app_proj]; try congruence.
  - intros Hw Hh. rewrite resize_viewport_ok by assumption. cbn [glf_viewport set_viewport].
    rewrite Hl. reflexivity.
  - rewrite Hp. apply resize_projection_last.
Qed.

Lemma enterFrame_fixed a a' : fixed_ok a -> enterFrame E a = inr a' -> fixed_ok a'.
Proof.
  intros [Hf Hd Hl Hv Hp] Ef.
  destruct (enterFrame_inr E _ _ Ef) as (Ep & _ & _ & _ & _ & Ew & Eh & Ex).
  destruct (frame_clear_keeps (app_fixed a)) as (Kf & Kd & Kl & Kv).
  constructor; rewrite ?Ep, ?Ew, ?Eh, ?Ex; try congruence.
  intros. rewrite Kv. auto.
Qed.

Lemma set_camera_fixed a c : fixed_ok a -> fixed_ok (set_camera a c).
Proof. intros []; constructor; assumption. Qed.

Lemma init_fixed_ok : fixed_ok (resize (init E) 800 800).
Proof.
  unfold init. destruct (init_ubo (gl_initial (env_gl_capacity E))).
  constructor; cbn [resize app_fixed app_width app_height app_proj]; reflexivity.
Qed.
End Fixed.

(** ** Sizes the compositor rejects *)

(** A size the compositor rejects leaves it as it was. *)

Lemma resize_rejected a w h e :
  reshapeTransparency (app_transparency a) w h = inl e ->
  app_transparency (resize a w h) = app_transparency a.
Proof. unfold resize. cbn [app_transparency]. intros ->. reflexivity. Qed.

(** A frame asked at another size than the compositor's targets faults. *)

Lemma enterFrame_size_mismatch E a w0 h0 :
  tp_phase (app_transparency a) = Idle -> tp_targets (app_transparency a) = Some (w0, h0) ->
  (w0 =? app_width a)%Z && (h0 =? app_height a)%Z = false ->
  enterFrame E a = inl NullStore \/ enterFrame E a = inl (CompositorFault ESizeMismatch).
Proof.
  intros Hp Ht Hne. unfold enterFrame. destruct (upload_mvp _ _ _); [right | left; reflexivity].
  unfold prepareTransparency. rewrite Hp, Ht, Hne. reflexivity.
Qed.

(** C6: [resize(0, 0)] after a valid size: the compositor rejects the
    size and keeps its targets, as §8 asks, but [resize] has already
    set [width] and [height] to 0 and divided by zero in the
    projection, so the next frame asks the compositor for a 0x0 frame
    and faults (or faults earlier, on a NULL map).  §7 asks for the
    check before any state changes. *)

Theorem resize_zero_breaks_next_frame E a w h :
  tp_phase (app_transparency a) = Idle ->
  tp_targets (app_transparency a) = Some (w, h) -> (0 < w)%Z ->
  tp_targets (app_transparency (resize a 0 0)) = Some (w, h) /\
  app_width (resize a 0 0) = 0%Z /\ app_height (resize a 0 0) = 0%Z /\
  proj_nonfinite (app_proj (resize a 0 0)) = true /\
  (enterFrame E (resize a 0 0) = inl NullStore \/
   enterFrame E (resize a 0 0) = inl (CompositorFault ESizeMismatch)).
Proof.
  intros Hp Ht Hw.
  assert (Et : app_transparency (resize a 0 0) = app_transparency a)
    by (apply (resize_rejected a 0 0 EBadSize); unfold reshapeTransparency; rewrite Hp; reflexivity).
  split; [rewrite Et; exact Ht | split; [reflexivity | split; [reflexivity | split; [reflexivity|]]]].
  apply (enterFrame_size_mismatch E _ w h); rewrite ?Et; [exact Hp | exact Ht |].
  apply andb_false_intro1, Z.eqb_neq. cbn [resize app_width]. lia.
Qed.

(** C19: the same for a size the compositor cannot allocate: the
    targets stay at the old size, [width] and [height] take the new
    one, and the next frame faults.  Line 84 drops the failure that
    §4.4 and §7 ask to propagate. *)

Theorem resize_over_budget_breaks_next_frame E a w h w0 h0 :
  tp_phase (app_transparency a) = Idle -> tp_targets (app_transparency a) = Some (w0, h0) ->
  (0 < w)%Z -> (0 < h)%Z -> (tp_budget (app_transparency a) < w * h)%Z -> (w0, h0) <> (w, h) ->
  tp_targets (app_transparency (resize a w h)) = Some (w0, h0) /\
  app_width (resize a w h) = w /\ app_height (resize a w h) = h /\
  (enterFrame E (resize a w h) = inl NullStore \/
   enterFrame E (resize a w h) = inl (CompositorFault ESizeMismatch)).
Proof.
  intros Hp Ht Hw Hh Hb Hne.
  assert (Et : app_transparency (resize a w h) = app_transparency a).
  { apply (resize_rejected a w h EOutOfMemory). unfold reshapeTransparency. rewrite Hp.
    cbn [phase_eqb negb]. replace ((w <=? 0)%Z || (h <=? 0)%Z) with false by lia.
    replace (tp_budget (app_transparency a) <? w * h)%Z with true by lia. reflexivity. }
  split; [rewrite Et; exact Ht | split; [reflexivity | split; [reflexivity|]]].
  apply (enterFrame_size_mismatch E _ w0 h0); rewrite ?Et; [exact Hp | exact Ht |].
  cbn [resize app_width app_height].
  destruct (Z.eqb_spec w0 w), (Z.eqb_spec h0 h); subst; [congruence | reflexivity ..].
Qed.

(** C17: the same for a negative size: the compositor rejects it and
    keeps its targets, [glViewport] rejects it, keeps the viewport and
    raises [GL_INVALID_VALUE] (or keeps an earlier error), but [width]
    and [height] take the negative size, so the next frame faults. *)

Theorem resize_negative_breaks_next_frame E a w h w0 h0 :
  tp_phase (app_transparency a) = Idle -> tp_targets (app_transparency a) = Some (w0, h0) ->
  (0 < w0)%Z -> (0 < h0)%Z -> (w < 0 \/ h < 0)%Z ->
  tp_targets (app_transparency (resize a w h)) = Some (w0, h0) /\
  glf_viewport (app_fixed (resize a w h)) = glf_viewport (app_fixed a) /\
  glf_error (app_fixed (resize a w h)) <> None /\
  (enterFrame E (resize a w h) = inl NullStore \/
   enterFrame E (resize a w h) = inl (CompositorFault ESizeMismatch)).
Proof.
  intros Hp Ht Hw0 Hh0 Hn.
  assert (Et : app_transparency (resize a w h) = app_transparency a).
  { apply (resize_rejected a w h EBadSize). unfold reshapeTransparency. rewrite Hp.
    cbn [phase_eqb negb].
    replace ((w <=? 0)%Z || (h <=? 0)%Z) with true by (symmetry; apply orb_true_iff; lia).
    reflexivity. }
  destruct (resize_viewport_negative (app_fixed a) w h Hn) as [Hv He].
  split; [rewrite Et; exact Ht | split; [exact Hv | split; [exact He|]]].
  apply (enterFrame_size_mismatch E _ w0 h0); rewrite ?Et; [exact Hp | exact Ht |].
  cbn [resize app_width app_height].
  destruct (Z.eqb_spec w0 w), (Z.eqb_spec h0 h); [lia | reflexivity ..].
Qed.

(** ** Repeated resizes *)

(** [reshapeTransparency] succeeds from [Idle] for a positive size
    within the budget; no call changes the budget. *)

Lemma reshape_accepts t w h :
  tp_phase t = Idle -> (0 < w)%Z -> (0 < h)%Z -> (w * h <= tp_budget t)%Z ->
  exists t', reshapeTransparency t w h = inr t'.
Proof.
  intros Hp Hw Hh Hb. unfold reshapeTransparency. rewrite Hp. cbn [phase_eqb negb].
  replace ((w <=? 0)%Z || (h <=? 0)%Z) with false by lia.
  replace (tp_budget t <? w * h)%Z with false by lia.
  eexists. reflexivity.
Qed.

Lemma resize_budget a w h :
  tp_budget (app_transparency (resize a w h)) = tp_budget (app_transparency a).
Proof.
  cbn [resize app_transparency]. destruct (reshapeTransparency _ w h) as [|t'] eqn:R; [reflexivity|].
  revert R. unfold reshapeTransparency.
  destruct (negb _); [discriminate|]. destruct (_ || _); [discriminate|].
  destruct (_ <? _)%Z; [discriminate|]. intros [= <-]. reflexivity.
Qed.

(** C13: §8's idempotence: [resize(w, h)] repeated with a size the
    compositor accepts leaves the projection, [width], [height], the
    viewport and the compositor's targets as one call leaves them, and
    one set of targets live: each repeated reshape releases the targets
    it replaces. *)

Theorem resize_repeat_idempotent `{CMath} E a w h n :
  app_inv E a -> (0 < w)%Z -> (0 < h)%Z -> (w * h <= tp_budget (app_transparency a))%Z ->
  let a1 := resize a w h in
  let an := Nat.iter n (fun b => resize b w h) a1 in
  app_proj an = app_proj a1 /\ app_width an = w /\ app_height an = h /\
  app_fixed an = app_fixed a1 /\ tp_targets (app_transparency an) = Some (w, h) /\
  live_targets (app_transparency an) = 1%nat.
Proof.
  intros Ha Hw Hh Hb a1 an.
  set (P := fun b => app_inv E b /\ (w * h <= tp_budget (app_transparency b))%Z /\
                     app_proj b = app_proj a1 /\ app_fixed b = app_fixed a1 /\
                     tp_targets (app_transparency b) = Some (w, h) /\
                     app_width b = w /\ app_height b = h).
  (* one more resize of a state at the size keeps all of it *)
  assert (Hstep : forall b, app_inv E b -> (w * h <= tp_budget (app_transparency b))%Z ->
            app_inv E (resize b w h) /\
            (w * h <= tp_budget (app_transparency (resize b w h)))%Z /\
            tp_targets (app_transparency (resize b w h)) = Some (w, h)).
  { intros b Hib Hbb. split; [apply resize_inv, Hib|]. rewrite resize_budget. split; [exact Hbb|].
    destruct (reshape_accepts _ w h (inv_phase E b Hib) Hw Hh Hbb) as [t' R].
    destruct (@tc_reshape_ok _ _ (compositor_contract (env_weight E)) _ w h t'
                (inv_targets E b Hib) R) as (_ & _ & Ht & _).
    cbn [resize app_transparency]. rewrite R. exact Ht. }
  assert (Han : P an).
  { apply iter_invariant.
    - intros b (Hib & Hbb & Hp & Hf & _ & _ & _).
      destruct (Hstep b Hib Hbb) as (Hi' & Hb' & Ht').
      refine (conj Hi' (conj Hb' (conj _ (conj _ (conj Ht' (conj eq_refl eq_refl))))));
        cbn [resize app_proj app_fixed]; subst a1.
      + rewrite Hp. apply resize_projection_last.
      + rewrite Hf. apply resize_viewport_idem.
    - destruct (Hstep a Ha Hb) as (Hi' & Hb' & Ht').
      exact (conj Hi' (conj Hb' (conj eq_refl (conj eq_refl (conj Ht' (conj eq_refl eq_refl)))))). }
  destruct Han as (Hia & _ & Hp & Hf & Ht & Hwn & Hhn).
  pose proof (inv_targets E an Hia) as Hok. unfold targets_ok, tc_targets_ok in Hok.
  cbn [tc_targets tc_allocs tc_frees compositor_ops] in Hok. rewrite Ht in Hok.
  repeat split; try assumption. unfold live_targets. lia.
Qed.

(** ** Witnesses

    A concrete environment: a 800x800 window, the camera 5 units from
    the origin, two draw calls, one opaque and one translucent fragment
    at the modelled pixel, a driver with room for eight buffer storages,
    a compositor budget of ten million pixels.  The C library's
    trigonometry is taken at its small-angle approximations,
    [cmath_small]: the theorems hold for every [CMath], and these keep
    the rationals of a run small. *)

Definition cmath_small : CMath := {|
  tanf := fun x => x; sinf := fun x => x; cosf := fun _ => 1; DEGREE_TO_RAD := 1 # 57 |}.

Definition demo_cfg : camera_config := {| minDistance := 1; maxPitch := 3 # 2; panSpeed := 1 # 100 |}.

Definition demo_camera (d : Q) : Camera1stPerson :=
  {| cam_focus := Vec4 0 0 0 1; cam_distance := d; cam_yaw := 0; cam_pitch := 0;
     cam_active := false |}.

Definition demo_env : env :=
  {| env_cfg := demo_cfg; env_camera0 := demo_camera 5; env_weight := unit_weight;
     env_draws := 2;
     env_fragments := [Opaque (1 # 2) rgb_red; Translucent (1 # 4) rgb_green (1 # 2)];
     env_gl_capacity := 8; env_gpu_budget := 10000000;
     env_gl_context := gl_fixed_default 800 800 gl45_limits demo_fb |}.

(** The program after [init] and the first [resize(800, 800)]. *)
Definition demo_app : app := resize (@init cmath_small demo_env) 800 800.

Ltac close_q := vm_compute; first [reflexivity | intros Hq; discriminate Hq].

Lemma resize_zero_breaks_next_frame_witness :
  let a := demo_app in
  tp_phase (app_transparency a) = Idle /\ tp_targets (app_transparency a) = Some (800, 800)%Z /\
  (0 < 800)%Z /\
  tp_targets (app_transparency (resize a 0 0)) = Some (800, 800)%Z /\
  app_width (resize a 0 0) = 0%Z /\ app_height (resize a 0 0) = 0%Z /\
  proj_nonfinite (app_proj (resize a 0 0)) = true /\
  (enterFrame demo_env (resize a 0 0) = inl NullStore \/
   enterFrame demo_env (resize a 0 0) = inl (CompositorFault ESizeMismatch)).
Proof.
  intros a. refine (conj _ (conj _ (conj _ (resize_zero_breaks_next_frame
    demo_env a 800 800 _ _ _)))); first [vm_compute; reflexivity | lia].
Defined.

Lemma resize_negative_breaks_next_frame_witness :
  let a := demo_app in
  tp_phase (app_transparency a) = Idle /\ tp_targets (app_transparency a) = Some (800, 800)%Z /\
  tp_targets (app_transparency (resize a (-1) 600)) = Some (800, 800)%Z /\
  glf_viewport (app_fixed (resize a (-1) 600)) = glf_viewport (app_fixed a) /\
  glf_error (app_fixed (resize a (-1) 600)) <> None /\
  (enterFrame demo_env (resize a (-1) 600) = inl NullStore \/
   enterFrame demo_env (resize a (-1) 600) = inl (CompositorFault ESizeMismatch)).
Proof.
  intros a. refine (conj _ (conj _ (resize_negative_breaks_next_frame
    demo_env a (-1) 600 800 800 _ _ _ _ _))); first [vm_compute; reflexivity | lia].
Defined.

Lemma resize_over_budget_breaks_next_frame_witness :
  let a := demo_app in
  tp_phase (app_transparency a) = Idle /\ tp_targets (app_transparency a) = Some (800, 800)%Z /\
  (tp_budget (app_transparency a) < 4000 * 4000)%Z /\
  tp_targets (app_transparency (resize a 4000 4000)) = Some (800, 800)%Z /\
  app_width (resize a 4000 4000) = 4000%Z /\ app_height (resize a 4000 4000) = 4000%Z /\
  (enterFrame demo_env (resize a 4000 4000) = inl NullStore \/
   enterFrame demo_env (resize a 4000 4000) = inl (CompositorFault ESizeMismatch)).
Proof.
  intros a.
  refine (conj _ (conj _ (conj _ (resize_over_budget_breaks_next_frame
    demo_env a 4000 4000 800 800 _ _ _ _ _ _)))); first [vm_compute; reflexivity | lia | idtac].
  intros Hq. discriminate Hq.
Defined.

Lemma resize_repeat_idempotent_witness :
  let a := demo_app in
  app_inv demo_env a /\ (0 < 800)%Z /\ (800 * 800 <= tp_budget (app_transparency a))%Z /\
  let a1 := resize a 800 800 in
  let an := Nat.iter 2 (fun b => resize b 800 800) a1 in
  app_proj an = app_proj a1 /\ app_width an = 800%Z /\ app_height an = 800%Z /\
  app_fixed an = app_fixed a1 /\ tp_targets (app_transparency an) = Some (800, 800)%Z /\
  live_targets (app_transparency an) = 1%nat.
Proof.
  intros a.
  assert (Ha : app_inv demo_env a).
  { apply resize_inv, (@init_inv cmath_small); [cbn; lia | repeat split; close_q]. }
  assert (Hb : (800 * 800 <= tp_budget (app_transparency a))%Z) by (vm_compute; discriminate).
  refine (conj Ha (conj _ (conj Hb (@resize_repeat_idempotent cmath_small demo_env a 800 800 2
                                       Ha _ _ Hb)))); reflexivity.
Defined.
