(* ===== verification/MainLoop.v ===== *)
(** * MainLoop: [main] and its loop (main.cpp lines 118-240)

    [main]'s loop is driven by a list of per-iteration inputs: the time
    on the clock, how many queued GPU reads the GPU completes while the
    CPU runs, the keys held down, and the window events.  The loop runs
    while the window is open and the list lasts; each iteration does
    what lines 143-238 do: count the frame, [enterFrame], [Display],
    poll the keys, fetch the events, which sets the window's size to
    that of the batch's last [Resized] event, and handle them, a
    [Resized] event by [resize] at the window's size.

    The invariants of Frame.v are carried through iterations
    ([main_loop_invariant]), which gives the whole-program theorems:
    consistent GPU reads, no fault, no leak of render targets, the
    order of the collaborators' calls, [init]'s GL state in
    effect and the culling it gives at every positive size, square
    pixels within the viewport limits, no GL error while no resize
    carries a negative size ([main_loop_invariant_on], for properties
    kept on the inputs that satisfy a condition), the focus on screen,
    an exact frame count, the pan speed on screen, the viewport calls of
    a batch of events, the end of a drag; and the scenario theorems of
    spec section 8. *)

From stdpp Require Import gmap.
From S2P Require Import Prelude Mat4 Projection GLDriver GLFixed Raster UniformChannel Compositor CompositorContract Camera Frame.

Open Scope Q_scope.
Open Scope moc_scope.

(** ** The loop of [main] *)

Section Loop.
Context `{CMath} (E : env).

Inductive key := KeyW | KeyS | KeyA | KeyD.

Inductive mouse_button := MouseLeft | MouseRight | MouseMiddle.

Inductive event :=
| Resized (w h : Z)
| MouseButtonPressed (b : mouse_button) (x y : Z)
| MouseButtonReleased (b : mouse_button) (x y : Z)
| MouseMoved (x y : Z)
| MouseWheelMoved (delta : Z)
| KeyPressed
| Closed.

(** [main]'s locals, the window's open flag and size (what
    [window->GetWidth()] and [GetHeight()] return) and what the program
    printed ([fps_log], newest first). *)

Record loop_state := {
  mouseDown : bool;
  prevMouseX : Z;
  prevMouseY : Z;
  numFrames : Z;
  clock_start : Q;
  window_open : bool;
  win_width : Z;
  win_height : Z;
  fps_log : list Z
}.

Record frame_input := {
  fi_time : Q;
  fi_gpu_retires : nat;
  fi_keys : list key;
  fi_events : list event
}.

Definition key_eqb (a b : key) : bool :=
  match a, b with
  | KeyW, KeyW | KeyS, KeyS | KeyA, KeyA | KeyD, KeyD => true
  | _, _ => false
  end.

Definition is_down (keys : list key) (k : key) : bool := existsb (key_eqb k) keys.

(** Lines 156-171: one camera command per frame, W first. *)

Definition handle_keys (keys : list key) (c : Camera1stPerson) : Camera1stPerson :=
  if is_down keys KeyW then zoom (env_cfg E) c 2
  else if is_down keys KeyS then zoom (env_cfg E) c (-1)
  else if is_down keys KeyA then pan (env_cfg E) c (-1) 0
  else if is_down keys KeyD then pan (env_cfg E) c 1 0
  else c.

Definition set_loop (ls : loop_state) (down : bool) (x y : Z) : loop_state :=
  {| mouseDown := down; prevMouseX := x; prevMouseY := y; numFrames := numFrames ls;
     clock_start := clock_start ls; window_open := window_open ls;
     win_width := win_width ls; win_height := win_height ls; fps_log := fps_log ls |}.

(** The window's size after it has fetched a batch of events: SFML
    records the size of each [Resized] event as it queues it, so while
    the batch is handled [GetWidth()] and [GetHeight()] give the size of
    its last [Resized] event. *)

Definition is_resized (ev : event) : bool := match ev with Resized _ _ => true | _ => false end.

Fixpoint last_resize (evs : list event) (d : Z * Z) : Z * Z :=
  match evs with
  | [] => d
  | Resized w h :: evs => last_resize evs (w, h)
  | _ :: evs => last_resize evs d
  end.

Definition window_fetch (ls : loop_state) (evs : list event) : loop_state :=
  let '(w, h) := last_resize evs (win_width ls, win_height ls) in
  {| mouseDown := mouseDown ls; prevMouseX := prevMouseX ls; prevMouseY := prevMouseY ls;
     numFrames := numFrames ls; clock_start := clock_start ls; window_open := window_open ls;
     win_width := w; win_height := h; fps_log := fps_log ls |}.

(** [float scaleFactor = .008f] of line 212. *)

Definition mouse_scale : Q := 8 # 1000.

(** One event of the [switch] of lines 177-237. *)

Definition handle_event (st : app * loop_state) (ev : event) : app * loop_state :=
  let '(a, ls) := st in
  match ev with
  | Resized _ _ => (resize a (win_width ls) (win_height ls), ls)
  | MouseButtonPressed MouseLeft x y => (a, set_loop ls true x y)
  | MouseButtonReleased MouseLeft _ _ =>
      (a, set_loop ls false (prevMouseX ls) (prevMouseY ls))
  | MouseMoved x y =>
      if mouseDown ls then
        let mouseXDiff := (x - prevMouseX ls)%Z in
        let mouseYDiff := (y - prevMouseY ls)%Z in
        let mouseXDifference := - inject_Z mouseXDiff * mouse_scale in
        let mouseYDifference := - inject_Z mouseYDiff * mouse_scale in
        (set_camera a (Camera.rotate (env_cfg E) (app_camera a) mouseXDifference mouseYDifference),
         set_loop ls true x y)
      else (a, ls)
  | MouseWheelMoved delta =>
      (set_camera a (zoom (env_cfg E) (app_camera a) (1 * inject_Z delta)), ls)
  | Closed =>
      (a, {| mouseDown := mouseDown ls; prevMouseX := prevMouseX ls;
             prevMouseY := prevMouseY ls; numFrames := numFrames ls;
             clock_start := clock_start ls; window_open := false;
             win_width := win_width ls; win_height := win_height ls; fps_log := fps_log ls |})
  | _ => (a, ls)
  end.

(** Lines 144-150: count the frame; after more than a second, print
    the count and start again. *)

Definition fps_tick (ls : loop_state) (now : Q) : loop_state :=
  let n := (numFrames ls + 1)%Z in
  if Qlt_le_dec 1 (now - clock_start ls)
  then {| mouseDown := mouseDown ls; prevMouseX := prevMouseX ls; prevMouseY := prevMouseY ls;
          numFrames := 0; clock_start := now; window_open := window_open ls;
          win_width := win_width ls; win_height := win_height ls; fps_log := n :: fps_log ls |}
  else {| mouseDown := mouseDown ls; prevMouseX := prevMouseX ls; prevMouseY := prevMouseY ls;
          numFrames := n; clock_start := clock_start ls; window_open := window_open ls;
          win_width := win_width ls; win_height := win_height ls; fps_log := fps_log ls |}.

(** The GPU completes up to [n] queued reads while the CPU runs. *)

Definition gpu_progress (gl : gl_state) (n : nat) : gl_state :=
  Nat.iter n (fun g => match gpu_retire g with Some g' => g' | None => g end) gl.

Definition set_gl (a : app) (gl : gl_state) : app :=
  {| app_proj := app_proj a; app_width := app_width a; app_height := app_height a;
     app_channel := app_channel a; app_camera := app_camera a;
     app_transparency := app_transparency a; app_gl := gl; app_fixed := app_fixed a;
     app_viewMatrix := app_viewMatrix a; app_mvp := app_mvp a;
     app_framebuffer := app_framebuffer a; app_trace := app_trace a |}.

Definition display (a : app) : app :=
  {| app_proj := app_proj a; app_width := app_width a; app_height := app_height a;
     app_channel := app_channel a; app_camera := app_camera a;
     app_transparency := app_transparency a; app_gl := app_gl a; app_fixed := app_fixed a;
     app_viewMatrix := app_viewMatrix a; app_mvp := app_mvp a;
     app_framebuffer := app_framebuffer a; app_trace := app_trace a ++ [CDisplay] |}.

(** One pass of the [while] body (lines 143-238). *)

Definition loop_iteration (st : app * loop_state) (fi : frame_input)
  : fault + (app * loop_state) :=
  let '(a, ls) := st in
  let ls := fps_tick ls (fi_time fi) in
  let a := set_gl a (gpu_progress (app_gl a) (fi_gpu_retires fi)) in
  match enterFrame E a with
  | inl f => inl f
  | inr a =>
      let a := display a in
      let a := set_camera a (handle_keys (fi_keys fi) (app_camera a)) in
      inr (fold_left handle_event (fi_events fi) (a, window_fetch ls (fi_events fi)))
  end.

(** [while (window->IsOpened())], for as many iterations as the
    inputs last. *)

Fixpoint main_loop (st : app * loop_state) (inputs : list frame_input)
  : fault + (app * loop_state) :=
  match inputs with
  | [] => inr st
  | fi :: rest =>
      if window_open (snd st) then
        match loop_iteration st fi with
        | inl f => inl f
        | inr st' => main_loop st' rest
        end
      else inr st
  end.

Definition initial_loop_state : loop_state :=
  {| mouseDown := false; prevMouseX := 0; prevMouseY := 0; numFrames := 0;
     clock_start := 0; window_open := true; win_width := 800; win_height := 800; fps_log := [] |}.

(** Lines 121-130, then the loop. *)

Definition main (inputs : list frame_input) : fault + (app * loop_state) :=
  let a := resize (init E) 800 800 in
  main_loop (a, initial_loop_state) inputs.
End Loop.

(** ** Runs of the loop *)

(** A property of the loop state kept by every iteration holds after
    any run of [main_loop]. *)

Lemma main_loop_invariant `{CMath} E (P : app * loop_state -> Prop) inputs st st' :
  (forall st fi st', P st -> loop_iteration E st fi = inr st' -> P st') ->
  P st -> main_loop E st inputs = inr st' -> P st'.
Proof.
  intros Hstep. revert st. induction inputs as [|fi rest IH]; intros st Hst Hrun; simpl in Hrun.
  - injection Hrun as <-. exact Hst.
  - destruct (window_open (snd st)); [|injection Hrun as <-; exact Hst].
    destruct (loop_iteration E st fi) as [|st1] eqn:Eit; [discriminate | eauto].
Qed.

(** The same, for a property each iteration keeps on the inputs that
    satisfy [Q]. *)

Lemma main_loop_invariant_on `{CMath} E (Q : frame_input -> Prop) (P : app * loop_state -> Prop)
    inputs st st' :
  (forall st fi st', P st -> Q fi -> loop_iteration E st fi = inr st' -> P st') ->
  Forall Q inputs -> P st -> main_loop E st inputs = inr st' -> P st'.
Proof.
  intros Hstep Hin. revert st. induction Hin as [|fi rest Hfi _ IH]; intros st Hst Hrun;
    simpl in Hrun; [injection Hrun as <-; exact Hst|].
  destruct (window_open (snd st)); [|injection Hrun as <-; exact Hst].
  destruct (loop_iteration E st fi) as [|st1] eqn:Eit; [discriminate | eauto].
Qed.

(** ** The window's size *)

(** The handlers and the frame counter leave the window's size alone;
    only fetching a batch of events changes it. *)

Lemma handle_event_window `{CMath} E st ev :
  win_width (snd (handle_event E st ev)) = win_width (snd st) /\
  win_height (snd (handle_event E st ev)) = win_height (snd st).
Proof.
  destruct st as [a ls].
  destruct ev as [w h | [] x y | [] x y | x y | delta | |]; simpl; auto.
  destruct (mouseDown ls); auto.
Qed.

Lemma handle_events_window `{CMath} E evs st :
  win_width (snd (fold_left (handle_event E) evs st)) = win_width (snd st) /\
  win_height (snd (fold_left (handle_event E) evs st)) = win_height (snd st).
Proof.
  revert st. induction evs as [|ev evs IH]; intros st; [auto|]. cbn [fold_left].
  destruct (IH (handle_event E st ev)) as [-> ->]. apply handle_event_window.
Qed.

Lemma fps_tick_window ls now :
  win_width (fps_tick ls now) = win_width ls /\ win_height (fps_tick ls now) = win_height ls.
Proof. unfold fps_tick. destruct (Qlt_le_dec _ _); auto. Qed.

Lemma window_fetch_size ls evs :
  win_width (window_fetch ls evs) = fst (last_resize evs (win_width ls, win_height ls)) /\
  win_height (window_fetch ls evs) = snd (last_resize evs (win_width ls, win_height ls)).
Proof. unfold window_fetch. destruct (last_resize _ _); auto. Qed.

(** A property of the size before a batch and of each of its [Resized]
    sizes holds of the size after it. *)

Lemma last_resize_ok (P : Z -> Z -> Prop) evs d :
  Forall (fun ev => match ev with Resized w h => P w h | _ => True end) evs ->
  P (fst d) (snd d) -> P (fst (last_resize evs d)) (snd (last_resize evs d)).
Proof.
  intros Hevs. revert d. induction Hevs as [|ev evs Hev _ IH]; intros d Hd; [exact Hd|].
  destruct ev; cbn [last_resize]; auto.
Qed.

Lemma window_fetch_ok (P : Z -> Z -> Prop) ls evs :
  Forall (fun ev => match ev with Resized w h => P w h | _ => True end) evs ->
  P (win_width ls) (win_height ls) ->
  P (win_width (window_fetch ls evs)) (win_height (window_fetch ls evs)).
Proof.
  intros Hevs Hd. destruct (window_fetch_size ls evs) as [-> ->].
  apply last_resize_ok; assumption.
Qed.

Section LoopInvariant.
Context `{CMath} (E : env).

Lemma channel_ok_progress ch gl n : channel_ok E ch gl -> channel_ok E ch (gpu_progress gl n).
Proof.
  intros Hok. induction n as [|n IH]; [exact Hok|].
  apply (channel_ok_step E ch (gpu_progress gl n) ERetire); [exact IH|].
  simpl. destruct (gpu_retire _); reflexivity.
Qed.
End LoopInvariant.

Section LoopPreservation.
Context `{CMath} (E : env) (Hcfg : config_wf (env_cfg E)).

Lemma handle_keys_wf keys c :
  cam_wf (env_cfg E) c -> cam_wf (env_cfg E) (handle_keys E keys c).
Proof.
  intros Hc. unfold handle_keys.
  repeat match goal with |- context [if ?b then _ else _] => destruct b end;
    auto with moc.
Qed.

Lemma handle_event_inv st ev :
  app_inv E (fst st) -> app_inv E (fst (handle_event E st ev)).
Proof.
  destruct st as [a ls]. simpl. intros Ha.
  destruct ev as [w h | [] x y | [] x y | x y | delta | |]; simpl; auto using resize_inv.
  - destruct (mouseDown ls); simpl; [|exact Ha].
    apply set_camera_inv; eauto using inv_camera with moc.
  - apply set_camera_inv; eauto using inv_camera with moc.
Qed.

Lemma handle_events_inv evs st :
  app_inv E (fst st) -> app_inv E (fst (fold_left (handle_event E) evs st)).
Proof.
  apply (fold_left_invariant _ (fun st => app_inv E (fst st)) (fun _ => True));
    [intros; apply handle_event_inv; assumption | apply List.Forall_forall; auto].
Qed.

Lemma loop_iteration_inv st fi st' :
  app_inv E (fst st) -> loop_iteration E st fi = inr st' -> app_inv E (fst st').
Proof.
  destruct st as [a ls]. simpl. intros Ha Hit. unfold loop_iteration in Hit.
  destruct (enterFrame E _) as [|a1] eqn:Ef; [discriminate|].
  injection Hit as <-. apply handle_events_inv. simpl.
  assert (Ha0 : app_inv E (set_gl a (gpu_progress (app_gl a) (fi_gpu_retires fi)))).
  { rewrite app_inv_channel in *. destruct Ha as (Hch & Hrest). split; [|exact Hrest].
    apply channel_ok_progress, Hch. }
  pose proof (enterFrame_inv E _ _ Ha0 Ef) as Ha1.
  apply set_camera_inv.
  - rewrite app_inv_channel in *. exact Ha1.
  - apply handle_keys_wf, Ha1.
Qed.

Lemma main_loop_inv inputs st st' :
  app_inv E (fst st) -> main_loop E st inputs = inr st' -> app_inv E (fst st').
Proof.
  apply (main_loop_invariant E (fun st => app_inv E (fst st))). intros ? ? ?.
  apply loop_iteration_inv.
Qed.

Lemma main_inv inputs st' :
  (1 <= env_gl_capacity E)%nat -> cam_wf (env_cfg E) (env_camera0 E) ->
  main E inputs = inr st' -> app_inv E (fst st').
Proof.
  intros Hcap Hcam Hrun. unfold main in Hrun.
  apply (main_loop_inv inputs (resize (init E) 800 800, initial_loop_state)); [|exact Hrun].
  apply resize_inv, init_inv; assumption.
Qed.
End LoopPreservation.

(** ** Progress of the loop: the GPU keeps up and every size is valid *)

Definition event_ok (E : env) (ev : event) : Prop :=
  match ev with Resized w h => size_ok E w h | _ => True end.

Definition input_ok (E : env) (fi : frame_input) : Prop :=
  (env_draws E <= fi_gpu_retires fi)%nat /\ Forall (event_ok E) (fi_events fi).

Lemma gpu_progress_pending gl n :
  length (gl_pending (gpu_progress gl n)) = (length (gl_pending gl) - n)%nat.
Proof.
  induction n as [|n IH]; [simpl; lia|].
  change (gpu_progress gl (S n)) with
    (match gpu_retire (gpu_progress gl n) with Some g' => g' | None => gpu_progress gl n end).
  destruct (gpu_retire (gpu_progress gl n)) as [g'|] eqn:R.
  - rewrite (gpu_retire_pending _ _ R), length_tl, IH. lia.
  - rewrite (gpu_retire_idle _ R) in *. simpl in *. lia.
Qed.

Lemma gpu_progress_rel ch cur gl s n :
  uc_rel ch cur gl s ->
  exists cur' s', uc_rel ch cur' (gpu_progress gl n) s' /\
                  gl_capacity (gpu_progress gl n) = gl_capacity gl.
Proof.
  revert cur s. induction n as [|n IH]; intros cur s Hrel; [exists cur, s; auto|].
  destruct (IH cur s Hrel) as (c1 & s1 & Hr1 & Hc1).
  assert (Hstep : uc_step ch (gpu_progress gl n) ERetire = Some (gpu_progress gl (S n)))
    by (simpl; destruct (gpu_retire _); reflexivity).
  destruct (uc_step_rel _ _ _ _ _ _ Hr1 Hstep) as (c2 & Hr2 & _ & Hc2).
  exists c2, (ideal_step s1 ERetire). split; [exact Hr2 | congruence].
Qed.

Section LoopProgress.
Context `{CMath} (E : env).

Lemma progress_ready k a n :
  ready E k a -> (k <= n)%nat -> ready E 0 (set_gl a (gpu_progress (app_gl a) n)).
Proof.
  intros [(cur & s & Hrel) Hc Hq Hp Ht Hb] Hn.
  destruct (gpu_progress_rel _ _ _ _ n Hrel) as (cur' & s' & Hrel' & Hc').
  constructor; cbn [set_gl app_channel app_gl app_transparency app_width app_height]; eauto.
  - congruence.
  - rewrite gpu_progress_pending. lia.
Qed.

Lemma ready_display k a : ready E k a -> ready E k (display a).
Proof. intros []; constructor; assumption. Qed.

Lemma handle_events_ready k evs st :
  ready E k (fst st) -> size_ok E (win_width (snd st)) (win_height (snd st)) ->
  ready E k (fst (fold_left (handle_event E) evs st)).
Proof.
  intros Ha Hs.
  refine (proj1 (fold_left_invariant _
    (fun st => ready E k (fst st) /\ size_ok E (win_width (snd st)) (win_height (snd st)))
    (fun _ => True) evs st _ _ (conj Ha Hs))); [|apply List.Forall_forall; auto].
  intros [a ls] ev [Ha' Hs'] _. destruct (handle_event_window E (a, ls) ev) as [-> ->].
  split; [|exact Hs'].
  destruct ev as [w h | [] x y | [] x y | x y | delta | |]; simpl in *;
    auto using resize_ready, ready_set_camera.
  destruct (mouseDown ls); simpl; auto using ready_set_camera.
Qed.

Lemma loop_iteration_ready st fi :
  ready E (env_draws E) (fst st) -> size_ok E (win_width (snd st)) (win_height (snd st)) ->
  input_ok E fi -> (2 <= env_gl_capacity E)%nat ->
  exists st', loop_iteration E st fi = inr st' /\ ready E (env_draws E) (fst st') /\
              size_ok E (win_width (snd st')) (win_height (snd st')).
Proof.
  destruct st as [a ls]. intros Ha Hs [Hn Hevs] Hcap. cbn [fst snd] in Ha, Hs.
  unfold loop_iteration.
  destruct (enterFrame_ready E _ (progress_ready _ _ _ Ha Hn) Hcap) as (a1 & -> & Ha1).
  set (ls1 := window_fetch (fps_tick ls (fi_time fi)) (fi_events fi)).
  assert (Hs1 : size_ok E (win_width ls1) (win_height ls1)).
  { apply (window_fetch_ok (size_ok E)); [exact Hevs|].
    destruct (fps_tick_window ls (fi_time fi)) as [-> ->]. exact Hs. }
  eexists. split; [reflexivity|]. split.
  - apply handle_events_ready; [|exact Hs1]. apply ready_set_camera, ready_display, Ha1.
  - destruct (handle_events_window E (fi_events fi)
                (set_camera (display a1) (handle_keys E (fi_keys fi) (app_camera (display a1))), ls1))
      as [-> ->]. exact Hs1.
Qed.

Lemma main_loop_ready inputs st :
  ready E (env_draws E) (fst st) -> size_ok E (win_width (snd st)) (win_height (snd st)) ->
  Forall (input_ok E) inputs ->
  (2 <= env_gl_capacity E)%nat -> exists st', main_loop E st inputs = inr st'.
Proof.
  revert st. induction inputs as [|fi rest IH]; intros st Hst Hs Hin Hcap;
    [eexists; reflexivity|].
  inversion Hin as [|? ? Hfi Hrest]; subst. simpl.
  destruct (window_open (snd st)); [|eexists; reflexivity].
  destruct (loop_iteration_ready st fi Hst Hs Hfi Hcap) as (st1 & -> & Hst1 & Hs1).
  exact (IH st1 Hst1 Hs1 Hrest Hcap).
Qed.
End LoopProgress.

(** ** The view through the loop *)

Lemma loop_iteration_inr `{CMath} E st fi st' :
  loop_iteration E st fi = inr st' ->
  exists a1, enterFrame E (set_gl (fst st) (gpu_progress (app_gl (fst st)) (fi_gpu_retires fi)))
             = inr a1 /\
    st' = fold_left (handle_event E) (fi_events fi)
            (set_camera (display a1) (handle_keys E (fi_keys fi) (app_camera (display a1))),
             window_fetch (fps_tick (snd st) (fi_time fi)) (fi_events fi)).
Proof.
  destruct st as [a ls]. unfold loop_iteration. cbn [fst snd].
  destruct (enterFrame E _) as [|a1]; [discriminate|]. intros [= <-]. eauto.
Qed.

Section LoopView.
Context `{CMath} (E : env).

Lemma handle_keys_placed keys c : cam_placed c -> cam_placed (handle_keys E keys c).
Proof.
  intros Hc. unfold handle_keys.
  repeat match goal with |- context [if ?b then _ else _] => destruct b end; auto with moc.
Qed.

Lemma handle_events_view evs st :
  view_ok (fst st) -> view_ok (fst (fold_left (handle_event E) evs st)).
Proof.
  apply (fold_left_invariant _ (fun st => view_ok (fst st)) (fun _ => True));
    [|apply List.Forall_forall; auto].
  intros [a ls] ev Ha _.
  destruct ev as [w h | [] x y | [] x y | x y | delta | |]; simpl in *; auto using resize_view.
  - destruct (mouseDown ls); simpl; [|exact Ha].
    apply set_camera_view; [exact Ha | apply rotate_placed, Ha].
  - apply set_camera_view; [exact Ha | apply zoom_placed, Ha].
Qed.

Lemma loop_iteration_view st fi st' :
  view_ok (fst st) -> loop_iteration E st fi = inr st' -> view_ok (fst st').
Proof.
  intros [Hv Hc Hs Hd] Hit. destruct (loop_iteration_inr E st fi st' Hit) as (a1 & Ef & ->).
  destruct (enterFrame_inr E _ _ Ef) as (Hp & Hcam & Hview & _).
  cbn [set_gl app_proj app_camera app_viewMatrix] in Hp, Hcam, Hview.
  apply handle_events_view. cbn [fst].
  apply set_camera_view; [|apply handle_keys_placed; cbn [display app_camera]; congruence].
  constructor; cbn [display app_proj app_camera app_viewMatrix]; congruence.
Qed.

Lemma main_view inputs st' :
  vw (cam_focus (env_camera0 E)) == 1 -> main E inputs = inr st' -> view_ok (fst st').
Proof.
  intros Hw. apply (main_loop_invariant E (fun st => view_ok (fst st))).
  - intros ? ? ?. apply loop_iteration_view.
  - cbn [fst]. apply resize_view. unfold init.
    destruct (init_ubo (gl_initial (env_gl_capacity E))).
    constructor; cbn [app_viewMatrix app_camera app_proj init_projection projectionMatrix].
    + reflexivity.
    + apply activate_placed, Hw.
    + apply projection_matrix_perspective.
    + apply projection_matrix_depth_rows.
Qed.
End LoopView.

(** ** The fixed-function state through the loop *)

Section LoopFixed.
Context `{CMath} (E : env).

Lemma handle_events_fixed evs st :
  fixed_ok E (fst st) -> fixed_ok E (fst (fold_left (handle_event E) evs st)).
Proof.
  apply (fold_left_invariant _ (fun st => fixed_ok E (fst st)) (fun _ => True));
    [|apply List.Forall_forall; auto].
  intros [a ls] ev Ha _.
  destruct ev as [w h | [] x y | [] x y | x y | delta | |]; simpl in *;
    auto using resize_fixed, set_camera_fixed.
  destruct (mouseDown ls); simpl; auto using set_camera_fixed.
Qed.

Lemma loop_iteration_fixed st fi st' :
  fixed_ok E (fst st) -> loop_iteration E st fi = inr st' -> fixed_ok E (fst st').
Proof.
  intros Ha Hit. destruct (loop_iteration_inr E st fi st' Hit) as (a1 & Ef & ->).
  apply handle_events_fixed. cbn [fst]. apply set_camera_fixed.
  assert (Ha0 : fixed_ok E (set_gl (fst st) (gpu_progress (app_gl (fst st)) (fi_gpu_retires fi))))
    by (destruct Ha; constructor; assumption).
  destruct (enterFrame_fixed E _ _ Ha0 Ef). constructor; assumption.
Qed.

Lemma main_fixed inputs st' : main E inputs = inr st' -> fixed_ok E (fst st').
Proof.
  apply (main_loop_invariant E (fun st => fixed_ok E (fst st))).
  - intros ? ? ?. apply loop_iteration_fixed.
  - apply init_fixed_ok.
Qed.
End LoopFixed.

(** ** The GL error flag through the loop *)

(** The sizes of [Resized] events are not negative (as SFML's unsigned
    sizes are, once converted to [int]). *)
Definition resize_size_ok (ev : event) : bool :=
  match ev with Resized w h => (0 <=? w)%Z && (0 <=? h)%Z | _ => true end.

Definition sizes_nonneg (fi : frame_input) : bool := forallb resize_size_ok (fi_events fi).

Definition nonneg_size (w h : Z) : Prop := (0 <= w)%Z /\ (0 <= h)%Z.

Lemma resize_size_ok_spec evs :
  forallb resize_size_ok evs = true ->
  Forall (fun ev => match ev with Resized w h => nonneg_size w h | _ => True end) evs.
Proof.
  intros Hevs. apply List.Forall_forall. intros ev Hin.
  pose proof (proj1 (forallb_forall _ _) Hevs ev Hin) as Hok.
  destruct ev; auto. apply andb_true_iff in Hok as [Hw Hh]. apply Z.leb_le in Hw, Hh.
  split; assumption.
Qed.

Section LoopError.
Context `{CMath} (E : env).

Lemma handle_events_error evs st e :
  nonneg_size (win_width (snd st)) (win_height (snd st)) -> glf_error (app_fixed (fst st)) = e ->
  glf_error (app_fixed (fst (fold_left (handle_event E) evs st))) = e.
Proof.
  intros Hs He.
  refine (proj1 (fold_left_invariant _
    (fun st => glf_error (app_fixed (fst st)) = e /\
               nonneg_size (win_width (snd st)) (win_height (snd st)))
    (fun _ => True) evs st _ _ (conj He Hs))); [|apply List.Forall_forall; auto].
  intros [a ls] ev [Ha Hs'] _. destruct (handle_event_window E (a, ls) ev) as [-> ->].
  split; [|exact Hs'].
  destruct ev as [w h | [] x y | [] x y | x y | delta | |]; simpl in *; auto.
  - destruct Hs' as [Hw Hh]. rewrite resize_viewport_error; assumption.
  - destruct (mouseDown ls); simpl; auto.
Qed.

Lemma loop_iteration_error st fi st' e :
  glf_error (app_fixed (fst st)) = e -> nonneg_size (win_width (snd st)) (win_height (snd st)) ->
  sizes_nonneg fi = true -> loop_iteration E st fi = inr st' ->
  glf_error (app_fixed (fst st')) = e /\ nonneg_size (win_width (snd st')) (win_height (snd st')).
Proof.
  intros He Hs Hfi Hit. destruct (loop_iteration_inr E st fi st' Hit) as (a1 & Ef & ->).
  set (ls1 := window_fetch (fps_tick (snd st) (fi_time fi)) (fi_events fi)).
  assert (Hs1 : nonneg_size (win_width ls1) (win_height ls1)).
  { apply (window_fetch_ok nonneg_size); [apply resize_size_ok_spec, Hfi|].
    destruct (fps_tick_window (snd st) (fi_time fi)) as [-> ->]. exact Hs. }
  split.
  - apply handle_events_error; [exact Hs1|].
    destruct (enterFrame_inr E _ _ Ef) as (_ & _ & _ & _ & _ & _ & _ & Hf).
    cbn [fst set_camera display app_fixed]. rewrite Hf, frame_clear_error. exact He.
  - destruct (handle_events_window E (fi_events fi)
                (set_camera (display a1) (handle_keys E (fi_keys fi) (app_camera (display a1))), ls1))
      as [-> ->]. exact Hs1.
Qed.

Lemma init_error : glf_error (app_fixed (resize (init E) 800 800)) = glf_error (env_gl_context E).
Proof.
  cbn [resize app_fixed]. rewrite resize_viewport_error by lia.
  unfold init. destruct (init_ubo _). apply init_fixed_error.
Qed.
End LoopError.

(** ** Events, frame counting and the order of calls *)

(** An event either leaves the trace and the size alone, or is a
    [Resized] event: one [glViewport] at the window's size, which
    becomes [width] and [height]. *)

Lemma handle_event_trace `{CMath} E a ls ev :
  (app_trace (fst (handle_event E (a, ls) ev)) = app_trace a /\
   app_width (fst (handle_event E (a, ls) ev)) = app_width a /\
   app_height (fst (handle_event E (a, ls) ev)) = app_height a /\ is_resized ev = false) \/
  (app_trace (fst (handle_event E (a, ls) ev)) =
     app_trace a ++ [CViewport (win_width ls) (win_height ls)] /\
   app_width (fst (handle_event E (a, ls) ev)) = win_width ls /\
   app_height (fst (handle_event E (a, ls) ev)) = win_height ls /\ is_resized ev = true).
Proof.
  destruct ev as [w h | [] x y | [] x y | x y | delta | |]; simpl;
    try (left; repeat split; fail); try (right; repeat split; fail).
  destruct (mouseDown ls); left; repeat split.
Qed.

(** A batch of events appends one viewport call at the window's size
    per [Resized] event, and leaves [width] and [height] at that size
    if it has one. *)

Lemma handle_events_resizes `{CMath} E evs st :
  app_trace (fst (fold_left (handle_event E) evs st)) =
    app_trace (fst st) ++
    repeat (CViewport (win_width (snd st)) (win_height (snd st))) (length (filter is_resized evs)) /\
  (existsb is_resized evs = true ->
   app_width (fst (fold_left (handle_event E) evs st)) = win_width (snd st) /\
   app_height (fst (fold_left (handle_event E) evs st)) = win_height (snd st)) /\
  (existsb is_resized evs = false ->
   app_width (fst (fold_left (handle_event E) evs st)) = app_width (fst st) /\
   app_height (fst (fold_left (handle_event E) evs st)) = app_height (fst st)).
Proof.
  revert st. induction evs as [|ev evs IH]; intros [a ls].
  - cbn. rewrite app_nil_r. split; [reflexivity | split; [discriminate | auto]].
  - cbn [fold_left filter existsb].
    destruct (IH (handle_event E (a, ls) ev)) as (Ht & Hr & Hn).
    destruct (handle_event_window E (a, ls) ev) as [W1 W2]. rewrite W1, W2 in Ht, Hr.
    destruct (handle_event_trace E a ls ev) as [(T & Wd & Ht' & R) | (T & Wd & Ht' & R)];
      rewrite R; cbn [orb length].
    + rewrite Ht, T. split; [reflexivity|].
      split; [exact Hr | intros Hf; destruct (Hn Hf) as [-> ->]; split; assumption].
    + rewrite Ht, T, <- app_assoc. split; [reflexivity|].
      split; [|discriminate]. intros _.
      destruct (existsb is_resized evs); [apply Hr; reflexivity|].
      destruct (Hn eq_refl) as [-> ->]. cbn [snd]. split; assumption.
Qed.

(** A batch without [Resized] events leaves the window's size alone. *)
Lemma last_resize_none evs d : existsb is_resized evs = false -> last_resize evs d = d.
Proof.
  revert d. induction evs as [|[] evs IH]; intros d Hn; cbn in *; try discriminate; auto.
Qed.

(** Released, the left button stops the drag: mouse moves change nothing. *)
Lemma moves_released `{CMath} E a ls moves :
  mouseDown ls = false ->
  fold_left (handle_event E) (map (fun m => MouseMoved (fst m) (snd m)) moves) (a, ls) = (a, ls).
Proof.
  intros Hd. induction moves as [|m moves IH]; [reflexivity|].
  cbn [map fold_left handle_event]. rewrite Hd. exact IH.
Qed.

Lemma handle_event_counters `{CMath} E a ls ev :
  numFrames (snd (handle_event E (a, ls) ev)) = numFrames ls /\
  fps_log (snd (handle_event E (a, ls) ev)) = fps_log ls.
Proof.
  destruct ev as [w h | [] x y | [] x y | x y | delta | |]; simpl; auto.
  destruct (mouseDown ls); auto.
Qed.

Lemma handle_event_closed `{CMath} E st ev :
  window_open (snd st) = false -> window_open (snd (handle_event E st ev)) = false.
Proof.
  destruct st as [a ls]. simpl. intros Hc.
  destruct ev as [w h | [] x y | [] x y | x y | delta | |]; simpl; auto.
  destruct (mouseDown ls); auto.
Qed.

Lemma handle_events_stay_closed `{CMath} E evs st :
  window_open (snd st) = false -> window_open (snd (fold_left (handle_event E) evs st)) = false.
Proof.
  apply (fold_left_invariant _ (fun st => window_open (snd st) = false) (fun _ => True));
    [intros; apply handle_event_closed; assumption | apply List.Forall_forall; auto].
Qed.

Lemma handle_events_closed `{CMath} E evs st :
  In Closed evs -> window_open (snd (fold_left (handle_event E) evs st)) = false.
Proof.
  revert st. induction evs as [|ev evs IH]; intros st Hin; [destruct Hin|].
  simpl. destruct Hin as [->|Hin]; [|apply IH, Hin].
  apply handle_events_stay_closed. destruct st; reflexivity.
Qed.

(** Frames shown so far: the [window->Display()] calls. *)

(** The order of the collaborators' calls: [init]'s, the first
    [glViewport], then whole frames (clear, upload, shader preparation,
    compositor preparation at the window size, mesh rendering,
    compositor finalisation, display) with viewport changes only between
    them. *)

Definition init_calls : list call := [CGlewInit; CShaderInit; CMeshInit; CTransparencyInit].

Definition frame_calls (w h : Z) : list call :=
  [CClear; CUpload; CShaderPrepare; CTransparencyPrepare w h; CMeshRender;
   CTransparencyFinalize; CDisplay].

(** [protocol tr w h]: the calls [tr] are allowed and leave the
    window at [w] x [h], the size of the last viewport call; every
    frame is prepared at that size. *)

Inductive protocol : list call -> Z -> Z -> Prop :=
| proto_start : protocol (init_calls ++ [CViewport 800 800]) 800 800
| proto_viewport tr w h w' h' : protocol tr w h -> protocol (tr ++ [CViewport w' h']) w' h'
| proto_frame tr w h : protocol tr w h -> protocol (tr ++ frame_calls w h) w h.

Definition is_display (c : call) : bool := match c with CDisplay => true | _ => false end.

Definition frames_shown (tr : list call) : Z := Z.of_nat (length (filter is_display tr)).

Lemma frames_shown_app tr1 tr2 :
  frames_shown (tr1 ++ tr2) = (frames_shown tr1 + frames_shown tr2)%Z.
Proof. unfold frames_shown. rewrite filter_app, length_app. lia. Qed.

Definition fps_total (ls : loop_state) : Z := (fold_right Z.add 0 (fps_log ls) + numFrames ls)%Z.

Lemma handle_events_fps `{CMath} E evs st :
  fps_total (snd (fold_left (handle_event E) evs st)) = fps_total (snd st) /\
  frames_shown (app_trace (fst (fold_left (handle_event E) evs st))) =
  frames_shown (app_trace (fst st)).
Proof.
  revert st. induction evs as [|ev evs IH]; intros [a ls]; cbn [fold_left]; [auto|].
  destruct (IH (handle_event E (a, ls) ev)) as [H1 H2]. rewrite H1, H2.
  destruct (handle_event_counters E a ls ev) as [C1 C2]. unfold fps_total. rewrite C1, C2.
  split; [reflexivity|].
  destruct (handle_event_trace E a ls ev) as [(-> & _)|(-> & _)]; [reflexivity|].
  rewrite frames_shown_app. unfold frames_shown at 2. simpl. lia.
Qed.

Lemma window_fetch_total ls evs : fps_total (window_fetch ls evs) = fps_total ls.
Proof. unfold window_fetch. destruct (last_resize _ _). reflexivity. Qed.

Lemma fps_tick_total ls now : fps_total (fps_tick ls now) = (fps_total ls + 1)%Z.
Proof.
  unfold fps_tick, fps_total. destruct (Qlt_le_dec _ _); cbn [fps_log numFrames fold_right]; lia.
Qed.

Lemma enterFrame_frames `{CMath} E a a' :
  enterFrame E a = inr a' -> frames_shown (app_trace a') = frames_shown (app_trace a).
Proof.
  intros Hf. destruct (enterFrame_inr E _ _ Hf) as (_ & _ & _ & _ & -> & _).
  rewrite frames_shown_app. unfold frames_shown at 2. simpl. lia.
Qed.

(** What a frame adds to the count and to the frames shown: one each. *)

Lemma loop_iteration_fps `{CMath} E st fi st' :
  loop_iteration E st fi = inr st' ->
  fps_total (snd st') = (fps_total (snd st) + 1)%Z /\
  frames_shown (app_trace (fst st')) = (frames_shown (app_trace (fst st)) + 1)%Z.
Proof.
  destruct st as [a ls]. unfold loop_iteration. intros Hit.
  destruct (enterFrame E _) as [|a1] eqn:Ef; [discriminate|]. injection Hit as <-.
  match goal with |- context [fold_left (handle_event E) ?evs ?s0] =>
    destruct (handle_events_fps E evs s0) as [-> ->] end.
  cbn [fst snd app_trace set_camera display].
  rewrite window_fetch_total, fps_tick_total, frames_shown_app.
  rewrite (enterFrame_frames _ _ _ Ef). split; reflexivity.
Qed.

Lemma main_loop_fps `{CMath} E inputs st st' :
  fps_total (snd st) = frames_shown (app_trace (fst st)) ->
  main_loop E st inputs = inr st' -> fps_total (snd st') = frames_shown (app_trace (fst st')).
Proof.
  apply (main_loop_invariant E (fun st => fps_total (snd st) = frames_shown (app_trace (fst st)))).
  intros st0 fi st1 Hst Eit.
  destruct (loop_iteration_fps E st0 fi st1 Eit) as [-> ->]. lia.
Qed.

Lemma handle_event_moved `{CMath} E a ls x y :
  mouseDown ls = true ->
  handle_event E (a, ls) (MouseMoved x y) =
  (set_camera a (Camera.rotate (env_cfg E) (app_camera a)
                   (- inject_Z (x - prevMouseX ls) * mouse_scale)
                   (- inject_Z (y - prevMouseY ls) * mouse_scale)),
   set_loop ls true x y).
Proof. intros Hd. simpl. rewrite Hd. reflexivity. Qed.

Lemma last_cons {A} (m : A) ms d : List.last (m :: ms) d = List.last ms m.
Proof.
  revert m d. induction ms as [|a ms IH]; intros m d; [reflexivity|].
  change (List.last (m :: a :: ms) d) with (List.last (a :: ms) d). rewrite !IH. reflexivity.
Qed.

Lemma handle_events_protocol `{CMath} E evs st :
  protocol (app_trace (fst st)) (app_width (fst st)) (app_height (fst st)) ->
  protocol (app_trace (fst (fold_left (handle_event E) evs st)))
    (app_width (fst (fold_left (handle_event E) evs st)))
    (app_height (fst (fold_left (handle_event E) evs st))).
Proof.
  apply (fold_left_invariant _
           (fun st => protocol (app_trace (fst st)) (app_width (fst st)) (app_height (fst st)))
           (fun _ => True)); [|apply List.Forall_forall; auto].
  intros [a ls] ev Hp _.
  destruct (handle_event_trace E a ls ev) as [(-> & -> & -> & _) | (-> & -> & -> & _)];
    [exact Hp | eapply proto_viewport, Hp].
Qed.

Lemma loop_iteration_protocol `{CMath} E st fi st' :
  protocol (app_trace (fst st)) (app_width (fst st)) (app_height (fst st)) ->
  loop_iteration E st fi = inr st' ->
  protocol (app_trace (fst st')) (app_width (fst st')) (app_height (fst st')).
Proof.
  intros Hp Hit. destruct (loop_iteration_inr E st fi st' Hit) as (a1 & Ef & ->).
  apply handle_events_protocol.
  destruct (enterFrame_inr E _ _ Ef) as (_ & _ & _ & _ & Et & Ew & Eh & _).
  cbn [fst set_camera display app_trace app_width app_height]. rewrite Et, Ew, Eh.
  cbn [set_gl app_trace app_width app_height].
  rewrite <- app_assoc. apply proto_frame, Hp.
Qed.

(** ** Program theorems *)

Section Theorems.
Context `{CMath}.

(** C3: whatever the window, the keys, the mouse and the GPU's pace,
    every read the GPU makes of the uniform buffer in a run of [main]
    sees the matrix of the frame that issued it, and the CPU never
    waited for the GPU. *)

Theorem main_gpu_reads_consistent E inputs a ls :
  config_wf (env_cfg E) -> (1 <= env_gl_capacity E)%nat ->
  cam_wf (env_cfg E) (env_camera0 E) ->
  main E inputs = inr (a, ls) ->
  Forall (fun o => fst o = snd o) (gl_observed (app_gl a)) /\ gl_stalls (app_gl a) = 0%nat.
Proof.
  intros Hcfg Hcap Hcam Hrun.
  destruct (main_inv E Hcfg inputs (a, ls) Hcap Hcam Hrun) as [(cur & s & Hrel & Hd) Hs _ _ _ _].
  cbn [fst] in *. split; [rewrite (rel_log _ _ _ _ Hrel); exact Hd | exact Hs].
Qed.

(** C7: progress: [main] does not fault when the driver has room for two
    storages, the GPU completes each frame's draws before the next
    upload, and every window size is positive and within the
    compositor's budget: then every run of the loop reaches the end of
    its inputs or a Closed event. *)

Theorem main_no_fault E inputs :
  (2 <= env_gl_capacity E)%nat -> size_ok E 800 800 -> Forall (input_ok E) inputs ->
  exists st, main E inputs = inr st.
Proof.
  intros Hcap Hsz Hin. unfold main.
  apply main_loop_ready; [apply init_ready; [lia | exact Hsz] | exact Hsz | exact Hin | exact Hcap].
Qed.

(** C20: between frames the compositor is idle and holds one set of
    render targets at most: [resize] never leaks them (§8). *)

Theorem main_no_target_leak E inputs a ls :
  config_wf (env_cfg E) -> (1 <= env_gl_capacity E)%nat ->
  cam_wf (env_cfg E) (env_camera0 E) ->
  main E inputs = inr (a, ls) ->
  tp_phase (app_transparency a) = Idle /\ (live_targets (app_transparency a) <= 1)%nat.
Proof.
  intros Hcfg Hcap Hcam Hrun.
  destruct (main_inv E Hcfg inputs (a, ls) Hcap Hcam Hrun) as [_ _ _ Hp Ht _].
  cbn [fst] in *. split; [exact Hp|]. unfold live_targets, targets_ok, tc_targets_ok in *.
  cbn [tc_targets tc_allocs tc_frees compositor_ops] in Ht.
  destruct (tp_targets (app_transparency a)) as [[]|]; lia.
Qed.

(** C35: §8's scenario: W held for one frame then S for one frame
    moves the camera as a single [zoom(1)] does, from any distance. *)

Theorem keys_W_then_S_net_zoom E c :
  cam_distance (handle_keys E [KeyS] (handle_keys E [KeyW] c)) ==
  cam_distance (zoom (env_cfg E) c 1).
Proof.
  change (handle_keys E [KeyS] (handle_keys E [KeyW] c))
    with (zoom (env_cfg E) (zoom (env_cfg E) c 2) (-1)).
  rewrite zoom_zoom_in by lra. cbn [zoom cam_distance].
  assert (E1 : 2 + -1 == 1) by reflexivity. rewrite E1. reflexivity.
Qed.

(** C34: an iteration that handles [Closed] is the last: the loop
    condition [window->IsOpened()] fails and later inputs are not
    processed. *)

Theorem closed_event_ends_loop E st fi rest st' :
  In Closed (fi_events fi) -> loop_iteration E st fi = inr st' ->
  main_loop E st' rest = inr st'.
Proof.
  intros Hin Hit. unfold loop_iteration in Hit. destruct st as [a ls].
  destruct (enterFrame E _) as [|a1]; [discriminate|].
  injection Hit as <-.
  destruct rest as [|fi' rest]; [reflexivity|]. simpl.
  rewrite (handle_events_closed E _ _ Hin). reflexivity.
Qed.

(** C33: the frame counter of lines 144-150 loses no frame: the
    counts printed plus the current count are the frames displayed. *)

Theorem fps_counts_every_frame E inputs a ls :
  main E inputs = inr (a, ls) -> fps_total ls = frames_shown (app_trace a).
Proof.
  intros Hrun.
  exact (main_loop_fps E inputs (resize (init E) 800 800, initial_loop_state) (a, ls)
           eq_refl Hrun).
Qed.

(** C37: a mouse drag turns the camera by the horizontal distance
    dragged, [-0.008] radian per pixel, however the motion is split
    into events. *)

Theorem drag_yaw_telescopes E a ls moves :
  mouseDown ls = true ->
  cam_yaw (app_camera (fst (fold_left (handle_event E)
                              (map (fun m => MouseMoved (fst m) (snd m)) moves) (a, ls)))) ==
  cam_yaw (app_camera a) -
    inject_Z (fst (List.last moves (prevMouseX ls, prevMouseY ls)) - prevMouseX ls) * mouse_scale.
Proof.
  revert a ls. induction moves as [|[x y] moves IH]; intros a ls Hd.
  - simpl. rewrite Z.sub_diag. ring.
  - rewrite last_cons. cbn [map fold_left fst snd]. rewrite handle_event_moved by exact Hd.
    rewrite IH by reflexivity. cbn [set_camera set_loop app_camera prevMouseX prevMouseY cam_yaw Camera.rotate].
    autorewrite with moc_rw. ring.
Qed.

(** C38: §6's window collaborator: every [Resized] event of a batch
    resizes to the size the window reports, [resize(window->GetWidth(),
    window->GetHeight())] (lines 179-181), which is the size of the
    batch's last [Resized] event: an iteration appends a whole frame at
    the current size, then one viewport call at that size per [Resized]
    event, and leaves [width] and [height] at it when there is one. *)

Theorem events_resize_to_window_size E st fi st' :
  loop_iteration E st fi = inr st' ->
  let ws := last_resize (fi_events fi) (win_width (snd st), win_height (snd st)) in
  app_trace (fst st') =
    app_trace (fst st) ++ frame_calls (app_width (fst st)) (app_height (fst st)) ++
    repeat (CViewport (fst ws) (snd ws)) (length (filter is_resized (fi_events fi))) /\
  (existsb is_resized (fi_events fi) = true ->
   app_width (fst st') = fst ws /\ app_height (fst st') = snd ws).
Proof.
  intros Hit ws. destruct (loop_iteration_inr E st fi st' Hit) as (a1 & Ef & ->).
  destruct (enterFrame_inr E _ _ Ef) as (_ & _ & _ & _ & Et & _).
  destruct (handle_events_resizes E (fi_events fi)
              (set_camera (display a1) (handle_keys E (fi_keys fi) (app_camera (display a1))),
               window_fetch (fps_tick (snd st) (fi_time fi)) (fi_events fi))) as (Ht & Hr & _).
  destruct (window_fetch_size (fps_tick (snd st) (fi_time fi)) (fi_events fi)) as [W1 W2].
  destruct (fps_tick_window (snd st) (fi_time fi)) as [F1 F2].
  rewrite F1, F2 in W1, W2. cbn [snd] in Ht, Hr. rewrite W1, W2 in Ht, Hr.
  split; [|exact Hr].
  rewrite Ht. cbn [fst set_camera display app_trace]. rewrite Et.
  cbn [set_gl app_trace app_width app_height]. rewrite <- !app_assoc. reflexivity.
Qed.

(** C39: lines 192-199 and 202-218: releasing the left button ends a
    drag: after [MouseButtonReleased], mouse moves leave the program's
    state as it is, until the button is pressed again. *)

Theorem release_stops_drag E a ls x y moves :
  let st := fold_left (handle_event E)
              (MouseButtonReleased MouseLeft x y :: map (fun m => MouseMoved (fst m) (snd m)) moves)
              (a, ls) in
  fst st = a /\ mouseDown (snd st) = false.
Proof.
  cbv zeta. cbn [fold_left handle_event]. rewrite moves_released by reflexivity.
  split; reflexivity.
Qed.

(** C18: composition of the camera, [Globals::viewMatrix] and the
    projection: in the frame after any run of [main], the matrix
    [enterFrame] uploads puts the camera's focus at the centre of the
    screen, at the window depth [f (d - n) / (d (f - n))] of its
    distance [d], with the [fzNear] and [fzFar] of [init], whatever
    resizes came before. *)

Theorem main_focus_on_screen E inputs a ls a' :
  config_wf (env_cfg E) -> (1 <= env_gl_capacity E)%nat ->
  cam_wf (env_cfg E) (env_camera0 E) -> vw (cam_focus (env_camera0 E)) == 1 ->
  main E inputs = inr (a, ls) -> enterFrame E a = inr a' ->
  ndc_x (app_mvp a') (cam_focus (app_camera a)) == 0 /\
  ndc_y (app_mvp a') (cam_focus (app_camera a)) == 0 /\
  window_depth depth_range (ndc_depth (app_mvp a') (cam_focus (app_camera a))) ==
    1000 * (cam_distance (app_camera a) - (1 # 10)) /
    (cam_distance (app_camera a) * (1000 - (1 # 10))).
Proof.
  intros Hcfg Hcap Hcam Hw Hrun Ef.
  pose proof (main_view E inputs (a, ls) Hw Hrun) as Hv. cbn [fst] in Hv.
  destruct (main_inv E Hcfg inputs (a, ls) Hcap Hcam Hrun) as [_ _ _ _ _ [Hd _]].
  cbn [fst] in Hd. destruct Hcfg as [Hmin _].
  destruct (ndc_clip _ _ _ _ (frame_focus_clip E a a' Hv Ef)) as (Ex & Ey & Ez).
  destruct (perspective_centre _ (cam_distance (app_camera a)) (vo_shape _ Hv)) as [Cx Cy].
  rewrite Ex, Ey, Ez, Cx, Cy. split; [reflexivity | split; [reflexivity|]].
  change (window_depth depth_range (ndc_depth ?m (eye_point 0 0 ?d))) with (depth_of m d).
  rewrite (depth_of_rows _ _ _ (vo_depth _ Hv)), depth_of_projection by lra. reflexivity.
Qed.

(** C9: the order of operations of every run of [main]: [init]'s calls
    and the first [glViewport], then whole frames, each clearing,
    uploading the matrix, preparing the shaders and the compositor at
    the current window size, rendering the meshes, finalising and
    displaying, in that order, with [resize]'s viewport changes only
    between frames. *)

Theorem main_call_protocol E inputs a ls :
  main E inputs = inr (a, ls) -> protocol (app_trace a) (app_width a) (app_height a).
Proof.
  intros Hrun.
  apply (main_loop_invariant E
           (fun st => protocol (app_trace (fst st)) (app_width (fst st)) (app_height (fst st))) inputs
           (resize (init E) 800 800, initial_loop_state) (a, ls));
    [intros ? ? ?; apply loop_iteration_protocol | apply proto_start | exact Hrun].
Qed.

(** C11: in every run of [main] the fixed-function state [init] set
    (lines 49-56) is the one in effect: back faces culled, front faces
    counter-clockwise, the depth test on with GL_LEQUAL, depth writes
    on, depth range [0, 1]; so the GL depth test is the compositor
    model's [depth_test].  And the viewport is the current [width] x
    [height], clamped to GL_MAX_VIEWPORT_DIMS, whenever that size is not
    negative. *)

Theorem main_gl_state E inputs a ls :
  main E inputs = inr (a, ls) ->
  glf_face (app_fixed a) = init_face /\ glf_depth (app_fixed a) = init_depth /\
  (forall d s, depth_pass (glf_depth (app_fixed a)) d s = depth_test d s) /\
  ((0 <= app_width a)%Z -> (0 <= app_height a)%Z ->
   glf_viewport (app_fixed a) =
   viewport_for (glf_limits (env_gl_context E)) (app_width a) (app_height a)).
Proof.
  intros Hrun. destruct (main_fixed E inputs _ Hrun) as [Hf Hd _ Hv _]. cbn [fst] in *.
  split; [exact Hf | split; [exact Hd | split; [|exact Hv]]].
  intros d s. rewrite Hd. reflexivity.
Qed.

(** C12: in every run of [main], while the window has a positive size,
    the triangles in front of the camera that the program's GL state,
    viewport and projection discard are exactly those that run
    clockwise as the camera sees them, whatever sizes came before. *)

Theorem main_culls_clockwise E inputs a ls p1 p2 p3 :
  main E inputs = inr (a, ls) -> limits_ok (glf_limits (env_gl_context E)) ->
  (0 < app_width a)%Z -> (0 < app_height a)%Z -> ~ frustumScale init_projection == 0 ->
  vw p1 == 1 -> vw p2 == 1 -> vw p3 == 1 -> vz p1 < 0 -> vz p2 < 0 -> vz p3 < 0 ->
  culled (app_fixed a) (projectionMatrix (app_proj a)) p1 p2 p3 =
  negb (qlt 0 (eye_orientation p1 p2 p3)).
Proof.
  intros Hrun [Hmw Hmh] Hw Hh Hfs H1 H2 H3 Z1 Z2 Z3.
  destruct (main_fixed E inputs _ Hrun) as [Hf _ _ Hv Hp]. cbn [fst] in *.
  rewrite Hp, resize_projection_matrix.
  apply (culled_init_face _ _ _ _ _ 0 0
           (Z.min (app_width a) (lim_max_w (glf_limits (env_gl_context E))))
           (Z.min (app_height a) (lim_max_h (glf_limits (env_gl_context E)))));
    try assumption; try lia.
  - rewrite Hv by lia. reflexivity.
  - apply resize_scales_pos; assumption.
Qed.

(** C15: in every run of [main], while the window has a positive size,
    a horizontal and a vertical segment of the same eye-space length at
    the same distance [d] in front of the camera cover numbers of pixels
    [dx] and [dy] with [dx * (width * vh) = dy * (height * vw)], where
    [(vw, vh)] is the viewport [glViewport] left, the window size
    clamped to GL_MAX_VIEWPORT_DIMS; so pixels are square whenever the
    window fits the limits, and stretched by the clamp when it does not:
    the projection's aspect factor uses the window size, not the
    viewport's. *)

Theorem main_square_pixels E inputs a ls s d :
  main E inputs = inr (a, ls) ->
  (0 < app_width a)%Z -> (0 < app_height a)%Z -> 0 < d ->
  let lim := glf_limits (env_gl_context E) in
  let vp := glf_viewport (app_fixed a) in
  let m := projectionMatrix (app_proj a) in
  let dx := fst (window_pos vp m (eye_point s 0 d)) - fst (window_pos vp m (eye_point 0 0 d)) in
  let dy := snd (window_pos vp m (eye_point 0 s d)) - snd (window_pos vp m (eye_point 0 0 d)) in
  dx * (inject_Z (app_width a) * inject_Z (Z.min (app_height a) (lim_max_h lim))) ==
  dy * (inject_Z (app_height a) * inject_Z (Z.min (app_width a) (lim_max_w lim))) /\
  ((app_width a <= lim_max_w lim)%Z -> (app_height a <= lim_max_h lim)%Z -> dx == dy).
Proof.
  intros Hrun Hw Hh Hd. cbv zeta.
  destruct (main_fixed E inputs _ Hrun) as [_ _ _ Hv Hp]. cbn [fst] in *.
  rewrite (Hv ltac:(lia) ltac:(lia)). unfold viewport_for.
  assert (Hpers : perspective (projectionMatrix (app_proj a)))
    by (rewrite Hp; apply resize_perspective, projection_matrix_perspective).
  destruct (window_span _ 0 0 (Z.min (app_width a) (lim_max_w (glf_limits (env_gl_context E))))
              (Z.min (app_height a) (lim_max_h (glf_limits (env_gl_context E)))) s d Hpers)
    as [Ex Ey].
  rewrite Ex, Ey.
  pose proof (resize_ndc_aspect (app_width a) (app_height a) s d Hw Hh Hd) as Ha.
  cbv zeta in Ha. rewrite <- Hp in Ha.
  split; [|intros Hmw Hmh; rewrite !Z.min_l by assumption; exact Ha].
  apply Qeq_trans with (ndc_x (projectionMatrix (app_proj a)) (eye_point s 0 d) *
                (inject_Z (app_width a) / 2) *
                (inject_Z (Z.min (app_width a) (lim_max_w (glf_limits (env_gl_context E)))) *
                 inject_Z (Z.min (app_height a) (lim_max_h (glf_limits (env_gl_context E))))));
    [unfold Qdiv; ring|]. rewrite Ha. unfold Qdiv; ring.
Qed.

(** C16: §9's GL calls raise no error: in every run of [main] whose
    [Resized] events carry sizes that are not negative, the GL error
    flag is the one the context started with: [init]'s state calls, the
    viewport of every [resize] and the clear of every frame are all
    valid GL calls. *)

Theorem main_no_gl_error E inputs a ls :
  main E inputs = inr (a, ls) -> forallb sizes_nonneg inputs = true ->
  glf_error (app_fixed a) = glf_error (env_gl_context E).
Proof.
  intros Hrun Hin.
  refine (proj1 (main_loop_invariant_on E (fun fi => sizes_nonneg fi = true)
    (fun st => glf_error (app_fixed (fst st)) = glf_error (env_gl_context E) /\
               nonneg_size (win_width (snd st)) (win_height (snd st)))
    inputs (resize (init E) 800 800, initial_loop_state) (a, ls) _ _ _ Hrun));
    [intros ? ? ? [He Hs] Hfi; apply loop_iteration_error; assumption
    | apply List.Forall_forall, forallb_forall, Hin
    | split; [apply init_error | unfold nonneg_size; cbn; lia]].
Qed.

(** C36: §4.1's pan keeps its speed on screen at every zoom: holding A
    (or D) for a frame moves the camera so that the point its focus was
    on lands [panSpeed * m[0].x] NDC units right (or left) of the centre
    of the screen under any perspective projection [m], whatever the
    camera's distance, for a yaw whose [sin] and [cos] are those of an
    angle. *)

Theorem keys_pan_speed_independent_of_zoom E m c :
  perspective m -> vw (cam_focus c) == 1 -> 0 < cam_distance c ->
  sinf (cam_yaw c) * sinf (cam_yaw c) + cosf (cam_yaw c) * cosf (cam_yaw c) == 1 ->
  ndc_x (m *m view_matrix (handle_keys E [KeyA] c)) (cam_focus c) ==
    panSpeed (env_cfg E) * vx (c0 m) /\
  ndc_x (m *m view_matrix (handle_keys E [KeyD] c)) (cam_focus c) ==
    - (panSpeed (env_cfg E) * vx (c0 m)).
Proof.
  intros Hm Hw Hd Hp.
  assert (Hpan : forall dx, ndc_x (m *m view_matrix (pan (env_cfg E) c dx 0)) (cam_focus c) ==
                            - (panSpeed (env_cfg E) * vx (c0 m) * dx)).
  { intros dx. destruct (ndc_clip (m *m view_matrix (pan (env_cfg E) c dx 0)) (cam_focus c) m
                 (eye_point (- (panSpeed (env_cfg E) * cam_distance c * dx)) 0 (cam_distance c)))
      as [-> _].
    - rewrite mat_mul_vec_assoc, view_pan_focus by assumption. reflexivity.
    - rewrite perspective_ndc_x by exact Hm. field. lra. }
  cbn [handle_keys is_down existsb key_eqb orb]. rewrite !Hpan. split; ring.
Qed.
End Theorems.

(** ** Witnesses

    A run of [main] in the environment [demo_env] of Frame.v: the user
    holds W, drags the mouse, holds S, then closes the window; the GPU
    completes each frame's two draws before the next frame. *)

Definition demo_close : frame_input :=
  {| fi_time := 3 # 2; fi_gpu_retires := 5; fi_keys := []; fi_events := [Closed] |}.

Definition demo_inputs : list frame_input := [
  {| fi_time := 0; fi_gpu_retires := 2; fi_keys := [KeyW];
     fi_events := [MouseButtonPressed MouseLeft 10 10; MouseMoved 20 5] |};
  {| fi_time := 1 # 2; fi_gpu_retires := 2; fi_keys := [KeyS]; fi_events := [] |};
  demo_close;
  {| fi_time := 2; fi_gpu_retires := 2; fi_keys := []; fi_events := [] |}].

Definition demo_start : app * loop_state := (demo_app, initial_loop_state).

Lemma main_gpu_reads_consistent_witness :
  config_wf (env_cfg demo_env) /\ (1 <= env_gl_capacity demo_env)%nat /\
  cam_wf (env_cfg demo_env) (env_camera0 demo_env) /\
  exists a ls, @main cmath_small demo_env demo_inputs = inr (a, ls) /\
  Forall (fun o => fst o = snd o) (gl_observed (app_gl a)) /\ gl_stalls (app_gl a) = 0%nat.
Proof.
  do 3 (split; [repeat split; first [close_q | cbn; lia] |]).
  destruct (@main cmath_small demo_env demo_inputs) as [f | [a ls]] eqn:Hrun;
    [vm_compute in Hrun; discriminate Hrun |].
  exists a, ls. split; [reflexivity|].
  apply (@main_gpu_reads_consistent cmath_small demo_env demo_inputs a ls);
    [repeat split; close_q | cbn; lia | repeat split; close_q | exact Hrun].
Defined.

Lemma main_no_target_leak_witness :
  config_wf (env_cfg demo_env) /\ (1 <= env_gl_capacity demo_env)%nat /\
  cam_wf (env_cfg demo_env) (env_camera0 demo_env) /\
  exists a ls, @main cmath_small demo_env demo_inputs = inr (a, ls) /\
  tp_phase (app_transparency a) = Idle /\ (live_targets (app_transparency a) <= 1)%nat.
Proof.
  do 3 (split; [repeat split; first [close_q | cbn; lia] |]).
  destruct (@main cmath_small demo_env demo_inputs) as [f | [a ls]] eqn:Hrun;
    [vm_compute in Hrun; discriminate Hrun |].
  exists a, ls. split; [reflexivity|].
  apply (@main_no_target_leak cmath_small demo_env demo_inputs a ls);
    [repeat split; close_q | cbn; lia | repeat split; close_q | exact Hrun].
Defined.

Lemma fps_counts_every_frame_witness :
  exists a ls, @main cmath_small demo_env demo_inputs = inr (a, ls) /\
  fps_total ls = frames_shown (app_trace a).
Proof.
  destruct (@main cmath_small demo_env demo_inputs) as [f | [a ls]] eqn:Hrun;
    [vm_compute in Hrun; discriminate Hrun |].
  exists a, ls. split; [reflexivity|].
  exact (@fps_counts_every_frame cmath_small demo_env demo_inputs a ls Hrun).
Defined.

Lemma closed_event_ends_loop_witness :
  In Closed (fi_events demo_close) /\
  exists st', @loop_iteration cmath_small demo_env demo_start demo_close = inr st' /\
  @main_loop cmath_small demo_env st' demo_inputs = inr st'.
Proof.
  split; [left; reflexivity|].
  destruct (@loop_iteration cmath_small demo_env demo_start demo_close) as [f | st'] eqn:Hit;
    [vm_compute in Hit; discriminate Hit |].
  exists st'. split; [reflexivity|].
  exact (@closed_event_ends_loop cmath_small demo_env demo_start demo_close demo_inputs st'
           (or_introl eq_refl) Hit).
Defined.

Lemma drag_yaw_telescopes_witness :
  let ls := set_loop initial_loop_state true 10 10 in
  let moves := [(20, 5); (25, 7); (22, 9)]%Z in
  mouseDown ls = true /\
  cam_yaw (app_camera (fst (fold_left (@handle_event cmath_small demo_env)
                              (map (fun m => MouseMoved (fst m) (snd m)) moves)
                              (fst demo_start, ls)))) ==
  cam_yaw (app_camera (fst demo_start)) -
    inject_Z (fst (List.last moves (prevMouseX ls, prevMouseY ls)) - prevMouseX ls) * mouse_scale.
Proof.
  intros ls moves. split; [reflexivity|].
  apply (@drag_yaw_telescopes cmath_small demo_env (fst demo_start) ls moves). reflexivity.
Defined.

Lemma main_no_fault_witness :
  (2 <= env_gl_capacity demo_env)%nat /\ size_ok demo_env 800%Z 800%Z /\
  Forall (input_ok demo_env) demo_inputs /\
  exists st, @main cmath_small demo_env demo_inputs = inr st.
Proof.
  assert (Hcap : (2 <= env_gl_capacity demo_env)%nat) by (cbn; lia).
  assert (Hsz : size_ok demo_env 800%Z 800%Z) by (unfold size_ok; cbn; lia).
  (* element by element: normalising [input_ok] under its binder would
     unfold the budget comparison on open integers *)
  assert (Hin : Forall (input_ok demo_env) demo_inputs)
    by (apply List.Forall_forall; intros fi Hfi;
        destruct Hfi as [<- | [<- | [<- | [<- | []]]]];
        (split; [cbn; lia | repeat constructor])).
  exact (conj Hcap (conj Hsz (conj Hin (@main_no_fault cmath_small demo_env demo_inputs
                                           Hcap Hsz Hin)))).
Defined.

Lemma main_focus_on_screen_witness :
  config_wf (env_cfg demo_env) /\ (1 <= env_gl_capacity demo_env)%nat /\
  cam_wf (env_cfg demo_env) (env_camera0 demo_env) /\
  vw (cam_focus (env_camera0 demo_env)) == 1 /\
  exists a ls a', @main cmath_small demo_env demo_inputs = inr (a, ls) /\
    enterFrame demo_env a = inr a' /\
    ndc_x (app_mvp a') (cam_focus (app_camera a)) == 0 /\
    ndc_y (app_mvp a') (cam_focus (app_camera a)) == 0 /\
    window_depth depth_range (ndc_depth (app_mvp a') (cam_focus (app_camera a))) ==
      1000 * (cam_distance (app_camera a) - (1 # 10)) /
      (cam_distance (app_camera a) * (1000 - (1 # 10))).
Proof.
  do 4 (split; [repeat split; first [close_q | cbn; lia] |]).
  do 3 eexists. split; [vm_compute; reflexivity|]. split; [vm_compute; reflexivity|].
  eapply (@main_focus_on_screen cmath_small demo_env demo_inputs);
    [repeat split; close_q | cbn; lia | repeat split; close_q | close_q
    | vm_compute; reflexivity | vm_compute; reflexivity].
Defined.

Lemma main_call_protocol_witness :
  exists a ls, @main cmath_small demo_env demo_inputs = inr (a, ls) /\
  protocol (app_trace a) (app_width a) (app_height a).
Proof.
  destruct (@main cmath_small demo_env demo_inputs) as [f | [a ls]] eqn:Hrun;
    [vm_compute in Hrun; discriminate Hrun |].
  exists a, ls. split; [reflexivity|].
  exact (@main_call_protocol cmath_small demo_env demo_inputs a ls Hrun).
Defined.

Lemma main_gl_state_witness :
  exists a ls, @main cmath_small demo_env demo_inputs = inr (a, ls) /\
  glf_face (app_fixed a) = init_face /\ glf_depth (app_fixed a) = init_depth /\
  (forall d s, depth_pass (glf_depth (app_fixed a)) d s = depth_test d s) /\
  ((0 <= app_width a)%Z -> (0 <= app_height a)%Z ->
   glf_viewport (app_fixed a) =
   viewport_for (glf_limits (env_gl_context demo_env)) (app_width a) (app_height a)).
Proof.
  destruct (@main cmath_small demo_env demo_inputs) as [f | [a ls]] eqn:Hrun;
    [vm_compute in Hrun; discriminate Hrun |].
  exists a, ls. split; [reflexivity|].
  exact (@main_gl_state cmath_small demo_env demo_inputs a ls Hrun).
Defined.

Lemma main_culls_clockwise_witness :
  let p1 := Vec4 0 0 (-5) 1 in let p2 := Vec4 1 0 (-5) 1 in let p3 := Vec4 0 1 (-5) 1 in
  limits_ok (glf_limits (env_gl_context demo_env)) /\
  ~ frustumScale (@init_projection cmath_small) == 0 /\
  exists a ls, @main cmath_small demo_env demo_inputs = inr (a, ls) /\
    (0 < app_width a)%Z /\ (0 < app_height a)%Z /\
    culled (app_fixed a) (projectionMatrix (app_proj a)) p1 p2 p3 =
    negb (qlt 0 (eye_orientation p1 p2 p3)).
Proof.
  intros p1 p2 p3.
  assert (Hl : limits_ok (glf_limits (env_gl_context demo_env))) by (split; reflexivity).
  assert (Hfs : ~ frustumScale (@init_projection cmath_small) == 0) by close_q.
  split; [exact Hl|]. split; [exact Hfs|].
  do 2 eexists. split; [vm_compute; reflexivity|].
  split; [close_q|]. split; [close_q|].
  eapply (@main_culls_clockwise cmath_small demo_env demo_inputs);
    [vm_compute; reflexivity | exact Hl | close_q | close_q | exact Hfs | close_q ..].
Defined.

Lemma main_square_pixels_witness :
  exists a ls, @main cmath_small demo_env demo_inputs = inr (a, ls) /\
  (0 < app_width a)%Z /\ (0 < app_height a)%Z /\ 0 < 5 /\
  let lim := glf_limits (env_gl_context demo_env) in
  let vp := glf_viewport (app_fixed a) in
  let m := projectionMatrix (app_proj a) in
  let dx := fst (window_pos vp m (eye_point 1 0 5)) - fst (window_pos vp m (eye_point 0 0 5)) in
  let dy := snd (window_pos vp m (eye_point 0 1 5)) - snd (window_pos vp m (eye_point 0 0 5)) in
  dx * (inject_Z (app_width a) * inject_Z (Z.min (app_height a) (lim_max_h lim))) ==
  dy * (inject_Z (app_height a) * inject_Z (Z.min (app_width a) (lim_max_w lim))) /\
  ((app_width a <= lim_max_w lim)%Z -> (app_height a <= lim_max_h lim)%Z -> dx == dy).
Proof.
  destruct (@main cmath_small demo_env demo_inputs) as [f | [a ls]] eqn:Hrun;
    [vm_compute in Hrun; discriminate Hrun |].
  assert (Hw : (0 < app_width a)%Z) by (revert Hrun; vm_compute; intros [= <-]; reflexivity).
  assert (Hh : (0 < app_height a)%Z) by (revert Hrun; vm_compute; intros [= <-]; reflexivity).
  exists a, ls. split; [reflexivity|]. split; [exact Hw|]. split; [exact Hh|].
  split; [close_q|].
  exact (@main_square_pixels cmath_small demo_env demo_inputs a ls 1 5 Hrun Hw Hh ltac:(close_q)).
Defined.

Lemma main_no_gl_error_witness :
  exists a ls, @main cmath_small demo_env demo_inputs = inr (a, ls) /\
  forallb sizes_nonneg demo_inputs = true /\
  glf_error (app_fixed a) = glf_error (env_gl_context demo_env).
Proof.
  destruct (@main cmath_small demo_env demo_inputs) as [f | [a ls]] eqn:Hrun;
    [vm_compute in Hrun; discriminate Hrun |].
  assert (Hin : forallb sizes_nonneg demo_inputs = true) by reflexivity.
  exists a, ls. split; [reflexivity|]. split; [exact Hin|].
  exact (@main_no_gl_error cmath_small demo_env demo_inputs a ls Hrun Hin).
Defined.

Definition demo_resizes : frame_input :=
  {| fi_time := 0; fi_gpu_retires := 2; fi_keys := [];
     fi_events := [Resized 640 480; MouseMoved 3 4; Resized 1024 768] |}.

Lemma events_resize_to_window_size_witness :
  exists st', @loop_iteration cmath_small demo_env demo_start demo_resizes = inr st' /\
  let ws := last_resize (fi_events demo_resizes)
              (win_width (snd demo_start), win_height (snd demo_start)) in
  app_trace (fst st') =
    app_trace (fst demo_start) ++
    frame_calls (app_width (fst demo_start)) (app_height (fst demo_start)) ++
    repeat (CViewport (fst ws) (snd ws)) (length (filter is_resized (fi_events demo_resizes))) /\
  (existsb is_resized (fi_events demo_resizes) = true ->
   app_width (fst st') = fst ws /\ app_height (fst st') = snd ws).
Proof.
  destruct (@loop_iteration cmath_small demo_env demo_start demo_resizes) as [f | st'] eqn:Hit;
    [vm_compute in Hit; discriminate Hit |].
  exists st'. split; [reflexivity|].
  exact (@events_resize_to_window_size cmath_small demo_env demo_start demo_resizes st' Hit).
Defined.

Lemma keys_pan_speed_independent_of_zoom_witness :
  let m := projectionMatrix (@init_projection cmath_small) in
  perspective m /\ vw (cam_focus (demo_camera 5)) == 1 /\ 0 < cam_distance (demo_camera 5) /\
  @sinf cmath_small 0 * @sinf cmath_small 0 + @cosf cmath_small 0 * @cosf cmath_small 0 == 1 /\
  ndc_x (m *m @view_matrix cmath_small (@handle_keys cmath_small demo_env [KeyA] (demo_camera 5)))
        (cam_focus (demo_camera 5)) == panSpeed (env_cfg demo_env) * vx (c0 m) /\
  ndc_x (m *m @view_matrix cmath_small (@handle_keys cmath_small demo_env [KeyD] (demo_camera 5)))
        (cam_focus (demo_camera 5)) == - (panSpeed (env_cfg demo_env) * vx (c0 m)).
Proof.
  intros m.
  assert (Hm : perspective m) by apply projection_matrix_perspective.
  assert (Hw : vw (cam_focus (demo_camera 5)) == 1) by reflexivity.
  assert (Hd : 0 < cam_distance (demo_camera 5)) by close_q.
  assert (Hp : @sinf cmath_small 0 * @sinf cmath_small 0 + @cosf cmath_small 0 * @cosf cmath_small 0 == 1)
    by reflexivity.
  exact (conj Hm (conj Hw (conj Hd (conj Hp
           (@keys_pan_speed_independent_of_zoom cmath_small demo_env m (demo_camera 5) Hm Hw Hd Hp))))).
Defined.
