(* ===== verification/Collaborators.v ===== *)
(** * Collaborators: the contracts of the shader state, the mesh library
      and the compositor, checked on [main]'s calls

    Spec sections 2, 5 and 6 say how main.cpp may call its external
    collaborators: each of the shader state, the mesh library and the
    compositor initialised once, before the first frame (and after
    GLEW, which loads the GL entry points their calls need); in each
    frame [Shader State.prepareForRender()] once, before
    any draw; [Mesh Library.render()] once, after the compositor has
    entered Accepting-Draws; the compositor's [reshape] only while it is
    [Idle], [prepare] before the draws and [finalize] after them.  The
    monitor [collab_step] follows these rules over the calls main.cpp
    makes ([call], recorded in [app_trace] by Frame.v and MainLoop.v)
    and refuses ([None]) a call that breaks one.  The theorem: every run
    of [main] is accepted, ends between frames, and the monitor counts
    one completed frame per displayed frame. *)

From stdpp Require Import gmap.
From S2P Require Import Prelude Mat4 Projection GLDriver GLFixed UniformChannel Compositor CompositorContract Camera Frame MainLoop.

(** ** The monitor *)

Record collab_state := {
  glew_done : bool;
  shader_initialized : bool;
  mesh_initialized : bool;
  compositor_initialized : bool;
  (** within the current frame *)
  shader_prepared : bool;
  compositor_phase : phase;
  mesh_rendered : bool;
  (** frames completed *)
  frames_done : nat
}.

Definition collab_initial : collab_state := {|
  glew_done := false; shader_initialized := false; mesh_initialized := false;
  compositor_initialized := false; shader_prepared := false; compositor_phase := Idle;
  mesh_rendered := false; frames_done := 0 |}.

Definition collab_ready (s : collab_state) : bool :=
  glew_done s && shader_initialized s && mesh_initialized s && compositor_initialized s.

Definition collab_idle (s : collab_state) : bool := phase_eqb (compositor_phase s) Idle.

(** The state in which the monitor waits between frames, [n] frames
    completed. *)
Definition collab_between (n : nat) : collab_state := {|
  glew_done := true; shader_initialized := true; mesh_initialized := true;
  compositor_initialized := true; shader_prepared := false; compositor_phase := Idle;
  mesh_rendered := false; frames_done := n |}.

Definition set_inits (s : collab_state) (g sh me co : bool) : collab_state := {|
  glew_done := g; shader_initialized := sh; mesh_initialized := me;
  compositor_initialized := co; shader_prepared := shader_prepared s;
  compositor_phase := compositor_phase s; mesh_rendered := mesh_rendered s;
  frames_done := frames_done s |}.

Definition set_frame (s : collab_state) (sp : bool) (p : phase) (mr : bool) (n : nat)
  : collab_state := {|
  glew_done := glew_done s; shader_initialized := shader_initialized s;
  mesh_initialized := mesh_initialized s; compositor_initialized := compositor_initialized s;
  shader_prepared := sp; compositor_phase := p; mesh_rendered := mr; frames_done := n |}.

Definition collab_step (s : collab_state) (c : call) : option collab_state :=
  match c with
  | CGlewInit =>
      if glew_done s then None
      else Some (set_inits s true (shader_initialized s) (mesh_initialized s)
                   (compositor_initialized s))
  | CShaderInit =>
      if glew_done s && negb (shader_initialized s)
      then Some (set_inits s true true (mesh_initialized s) (compositor_initialized s)) else None
  | CMeshInit =>
      if glew_done s && negb (mesh_initialized s)
      then Some (set_inits s true (shader_initialized s) true (compositor_initialized s)) else None
  | CTransparencyInit =>
      if glew_done s && negb (compositor_initialized s)
      then Some (set_inits s true (shader_initialized s) (mesh_initialized s) true) else None
  | CViewport _ _ =>
      (* resize forwards to the compositor's reshape: only while Idle *)
      if compositor_initialized s && collab_idle s && negb (shader_prepared s)
      then Some s else None
  | CClear | CUpload =>
      if collab_ready s && collab_idle s && negb (shader_prepared s) then Some s else None
  | CShaderPrepare =>
      if collab_ready s && collab_idle s && negb (shader_prepared s)
      then Some (set_frame s true Idle false (frames_done s)) else None
  | CTransparencyPrepare _ _ =>
      if collab_ready s && collab_idle s && shader_prepared s
      then Some (set_frame s true AcceptingDraws false (frames_done s)) else None
  | CMeshRender =>
      if phase_eqb (compositor_phase s) AcceptingDraws && shader_prepared s &&
         negb (mesh_rendered s)
      then Some (set_frame s true AcceptingDraws true (frames_done s)) else None
  | CTransparencyFinalize =>
      if phase_eqb (compositor_phase s) AcceptingDraws && mesh_rendered s
      then Some (set_frame s false Idle false (S (frames_done s))) else None
  | CDisplay =>
      if collab_ready s && collab_idle s && negb (shader_prepared s) then Some s else None
  end.

Fixpoint collab_run (s : collab_state) (tr : list call) : option collab_state :=
  match tr with
  | [] => Some s
  | c :: tr => match collab_step s c with Some s' => collab_run s' tr | None => None end
  end.

(** ** Lemmas *)

Lemma collab_run_app s tr1 tr2 :
  collab_run s (tr1 ++ tr2) =
  match collab_run s tr1 with Some s' => collab_run s' tr2 | None => None end.
Proof.
  revert s. induction tr1 as [|c tr1 IH]; intros s; simpl; [reflexivity|].
  destruct (collab_step s c); [apply IH | reflexivity].
Qed.

Lemma collab_frame n w h :
  collab_run (collab_between n) (frame_calls w h) = Some (collab_between (S n)).
Proof. reflexivity. Qed.

Lemma frames_shown_frame tr w h : frames_shown (tr ++ frame_calls w h) = (frames_shown tr + 1)%Z.
Proof. rewrite frames_shown_app. reflexivity. Qed.

Lemma frames_shown_viewport tr w h : frames_shown (tr ++ [CViewport w h]) = frames_shown tr.
Proof. rewrite frames_shown_app. apply Z.add_0_r. Qed.

(** Every trace of [protocol] is accepted and ends between frames. *)
Lemma protocol_accepted tr w h :
  protocol tr w h ->
  exists n, collab_run collab_initial tr = Some (collab_between n) /\
            Z.of_nat n = frames_shown tr.
Proof.
  induction 1 as [| tr w h w' h' _ (n & Hr & Hn) | tr w h _ (n & Hr & Hn)].
  - exists 0%nat. split; reflexivity.
  - exists n. rewrite collab_run_app, Hr, frames_shown_viewport. split; [reflexivity | exact Hn].
  - exists (S n). rewrite collab_run_app, Hr, collab_frame, frames_shown_frame.
    split; [reflexivity | lia].
Qed.

(** ** The theorem *)

(** C10: every run of [main] calls its collaborators as their contracts
    allow (spec sections 2, 5, 6): GLEW, the shader state, the mesh
    library and the compositor are initialised once before the first
    frame; in every frame the shader is prepared once before the
    compositor's [prepare], the mesh library renders once in
    Accepting-Draws, [finalize] follows it; viewport changes, and so
    [reshape], come only while the compositor is [Idle].  The run ends
    between frames, with one completed frame per displayed one. *)
Theorem main_respects_collaborator_contracts `{CMath} E inputs a ls :
  main E inputs = inr (a, ls) ->
  exists n, collab_run collab_initial (app_trace a) = Some (collab_between n) /\
            Z.of_nat n = frames_shown (app_trace a).
Proof.
  intros Hrun. apply (protocol_accepted _ (app_width a) (app_height a)).
  apply (main_loop_invariant E
           (fun st => protocol (app_trace (fst st)) (app_width (fst st)) (app_height (fst st))) inputs
           (resize (init E) 800 800, initial_loop_state) (a, ls));
    [intros ? ? ?; apply loop_iteration_protocol | apply proto_start | exact Hrun].
Qed.

Lemma main_respects_collaborator_contracts_witness :
  exists a ls, @main cmath_small demo_env demo_inputs = inr (a, ls) /\
  exists n, collab_run collab_initial (app_trace a) = Some (collab_between n) /\
            Z.of_nat n = frames_shown (app_trace a).
Proof.
  destruct (@main cmath_small demo_env demo_inputs) as [f | [a ls]] eqn:Hrun;
    [vm_compute in Hrun; discriminate Hrun |].
  exists a, ls. split; [reflexivity|].
  exact (@main_respects_collaborator_contracts cmath_small demo_env demo_inputs a ls Hrun).
Defined.
